(** * Euclid image cutout service: a shallow embedding and its verified properties

  The development follows the Python sources:
  - [euclid_cutout_remix.py]: the tile index and its lookup, file-name
    resolution, window and stamp extraction, the per-source worker and
    the per-catalog statistics;
  - [euclid_service/legacy/Euclid_flash_app.py]: cache keys, unified
    file names, the cached task pipeline [process_task] and the
    configuration [submit_task] builds;
  - [euclid_service/core/task_processor.py], [task_executor.py],
    [flask_app/routes/task_routes.py]: the task registry, one run of the
    executor and the download route;
  - [euclid_service/core/catalog_processor.py], [euclid_service/config.py]:
    catalog loading and the configuration store.

  Part I embeds the code; Part II states and proves the properties.

  Conventions.  Python [float]s are embedded as exact rationals [Q] (every
  finite double is one, but for the negative zero, which is written out
  where the code produces and prints it); library calls whose body is not
  part of the repository (astropy's angular separation, [Cutout2D], FITS
  input, float formatting, the iteration order of a set) are fields of
  type classes.  [try/except] blocks are written with the [result] monad
  and an explicit handler. *)

From Stdlib Require Import ZArith QArith Qround Qabs Lqa String Ascii List Lia.
From stdpp Require Import base option list gmap strings pretty.

Local Open Scope string_scope.
Set Warnings "-register-all".

(* ====================================================================== *)
(** * Part I.  The model                                                  *)
(* ====================================================================== *)

(** ** Python runtime: exceptions, strings, slices *)

Module Py.

Inductive exn : Type :=
| ValueError (msg : string)
| KeyError (key : string)
| IndexError
| FileNotFoundError
| NotADirectoryError
| OSError (msg : string).

(** [str(e)] *)
Definition exn_str (e : exn) : string :=
  match e with
  | ValueError m => m
  | KeyError k => "'" ++ k ++ "'"
  | IndexError => "index out of range"
  | FileNotFoundError => "No such file or directory"
  | NotADirectoryError => "Not a directory"
  | OSError m => m
  end.

Inductive result (A : Type) : Type :=
| Ok (a : A)
| Raise (e : exn).
Arguments Ok {A} a.
Arguments Raise {A} e.

#[export] Instance result_ret : MRet result := fun A a => Ok a.
#[export] Instance result_bind : MBind result :=
  fun A B f m => match m with Ok a => f a | Raise e => Raise e end.

(** [try: body  except Exception as e: handler e] *)
Definition try_except {A} (body : result A) (handler : exn -> A) : A :=
  match body with Ok a => a | Raise e => handler e end.

(** [l[i]] for a non-negative index *)
Definition getitem {A} (l : list A) (i : nat) : result A :=
  match l !! i with Some x => Ok x | None => Raise IndexError end.

(** [for x in l: acc = f acc x], where [f] may raise *)
Fixpoint for_each {A S} (f : S -> A -> result S) (l : list A) (s : S)
  : result S :=
  match l with
  | [] => Ok s
  | x :: l' => s' ← f s x; for_each f l' s'
  end.

(** [[f(x) for x in l]], where [f] may raise *)
Fixpoint map_result {A B} (f : A -> result B) (l : list A)
  : result (list B) :=
  match l with
  | [] => Ok []
  | x :: l' => y ← f x; ys ← map_result f l'; Ok (y :: ys)
  end.

(** *** [str] methods *)

(** [sub in s] *)
Fixpoint str_contains (sub s : string) : bool :=
  String.prefix sub s ||
  match s with
  | EmptyString => false
  | String _ s' => str_contains sub s'
  end.

(** [s.endswith(suf)] *)
Fixpoint str_endswith (suf s : string) : bool :=
  String.eqb suf s ||
  match s with
  | EmptyString => false
  | String _ s' => str_endswith suf s'
  end.

(** [s.split(sep)] for a non-empty separator: scan left to right, cutting
    at every non-overlapping occurrence.  [skip] counts the characters of
    a separator just matched that are still to be dropped; [cur] is the
    piece being read. *)
Fixpoint split_go (sep s : string) (skip : nat) (cur : string)
  : list string :=
  match s with
  | EmptyString => [cur]
  | String c s' =>
      match skip with
      | S k => split_go sep s' k cur
      | O =>
          if String.prefix sep s
          then cur :: split_go sep s' (String.length sep - 1) EmptyString
          else split_go sep s' O (cur ++ String c EmptyString)
      end
  end.

Definition str_split (sep s : string) : list string :=
  split_go sep s O EmptyString.

(** [sep.join(parts)] *)
Fixpoint str_join (sep : string) (parts : list string) : string :=
  match parts with
  | [] => EmptyString
  | [p] => p
  | p :: rest => p ++ sep ++ str_join sep rest
  end.

(** [s.split(sep, 1)] for a one-character separator *)
Fixpoint str_split1 (sep : ascii) (s : string) (cur : string)
  : list string :=
  match s with
  | EmptyString => [cur]
  | String c s' =>
      if Ascii.eqb c sep then [cur; s']
      else str_split1 sep s' (cur ++ String c EmptyString)
  end.

(** [s.replace(old, new)] for a non-empty [old] *)
Definition str_replace (old new s : string) : string :=
  str_join new (str_split old s).

(** [s.upper()] and [s.lower()] on ASCII letters *)
Definition ascii_upper (c : ascii) : ascii :=
  let n := nat_of_ascii c in
  if (97 <=? n)%nat && (n <=? 122)%nat then ascii_of_nat (n - 32) else c.

Definition ascii_lower (c : ascii) : ascii :=
  let n := nat_of_ascii c in
  if (65 <=? n)%nat && (n <=? 90)%nat then ascii_of_nat (n + 32) else c.

Fixpoint str_map (f : ascii -> ascii) (s : string) : string :=
  match s with
  | EmptyString => EmptyString
  | String c s' => String (f c) (str_map f s')
  end.

Definition str_upper : string -> string := str_map ascii_upper.
Definition str_lower : string -> string := str_map ascii_lower.

(** Truthiness of an optional string: [x if x else d] *)
Definition or_default (x : option string) (d : string) : string :=
  match x with
  | None => d
  | Some b => if String.eqb b EmptyString then d else b
  end.

(** [parts[0]] and [parts[-1]] of the never-empty list [split] returns *)
Definition first (parts : list string) : string := hd EmptyString parts.
Definition final (parts : list string) : string := List.last parts EmptyString.

(** *** Slices: the bounds [a[lo:hi]] selects in a sequence of length [n] *)
Definition slice_index (i : Z) (n : nat) : nat :=
  Z.to_nat (if (i <? 0)%Z then Z.max (i + Z.of_nat n) 0
            else Z.min i (Z.of_nat n)).

(** [int(x)] of a finite float: truncation towards zero *)
Definition int_of_float (x : Q) : Z := Z.quot (Qnum x) (Zpos (Qden x)).

End Py.
Import Py.

(** ** File-name resolution ([euclid_cutout_remix.py], lines 142-266) *)

Module FileNames.

Definition pattern_map : gmap string string :=
  list_to_map [("BGSUB", "BGSUB-MOSAIC"); ("BGMOD", "BGMOD");
               ("FLAG", "MOSAIC"); ("RMS", "MOSAIC");
               ("CATALOG-PSF", "CATALOG-PSF")].

Definition _get_file_pattern (file_type : string) : string :=
  default file_type (pattern_map !! file_type).

(** The token left after the [_TILE] suffix and the product-type prefix
    (and, for FLAG and RMS, the product-type suffix) are stripped. *)
Definition inst_band (filename file_type : string) : string :=
  let notile := first (str_split "_TILE" filename) in
  if bool_decide (file_type ∈ ["FLAG"; "RMS"])
  then first (str_split ("-" ++ file_type)
                (final (str_split "EUC_MER_MOSAIC-" notile)))
  else
    let pattern := _get_file_pattern file_type in
    final (str_split ("EUC_MER_" ++ pattern ++ "-") notile).

(** No operation of the body raises on strings, so the [except] branch
    (returning [None]) is never taken. *)
Definition _parse_filename (filename file_type : string)
  : option (string * string) :=
  let parts := str_split "-" (inst_band filename file_type) in
  if (length parts =? 1)%nat
  then Some (first parts, first parts)
  else Some (first parts, str_join "-" (tl parts)).

(** *** The archive directory tree

    An entry is a file or a directory, or it is one on which the system
    calls fail: [Sealed e cs] is a directory that can be entered but not
    listed, [os.listdir] failing with [e] (no read permission); under
    [Failing e] even [os.stat] fails with [e] (no permission, a link
    that dangles or loops, an I/O error), although the directory above
    lists the name. *)

Inductive node : Type :=
| File
| Dir (children : list (string * node))
| Sealed (e : exn) (children : list (string * node))
| Failing (e : exn).

Definition path := list string.

Definition child (n : node) (name : string) : option node :=
  match n with
  | Dir cs | Sealed _ cs =>
      snd <$> List.find (fun c => String.eqb (fst c) name) cs
  | File | Failing _ => None
  end.

Fixpoint resolve (n : node) (p : path) : option node :=
  match p with
  | [] => Some n
  | x :: p' => match child n x with
               | Some n' => resolve n' p'
               | None => None
               end
  end.

(** The error of [os.stat] on a path that leads nowhere: the first
    component that cannot be entered decides. *)
Fixpoint stat_error (n : node) (p : path) : exn :=
  match p with
  | [] => FileNotFoundError
  | x :: p' =>
      match n with
      | File => NotADirectoryError
      | Failing e => e
      | Dir _ | Sealed _ _ =>
          match child n x with
          | Some n' => stat_error n' p'
          | None => FileNotFoundError
          end
      end
  end.

(** [os.stat(p)] *)
Definition os_stat (fs : node) (p : path) : result node :=
  match resolve fs p with
  | Some (Failing e) => Raise e
  | Some n => Ok n
  | None => Raise (stat_error fs p)
  end.

(** [os.path.exists] and [os.path.isdir] answer [False] on every error
    of [os.stat]. *)
Definition os_path_exists (fs : node) (p : path) : bool :=
  match os_stat fs p with Ok _ => true | Raise _ => false end.

Definition os_path_isdir (fs : node) (p : path) : bool :=
  match os_stat fs p with
  | Ok (Dir _) | Ok (Sealed _ _) => true
  | _ => false
  end.

(** [os.listdir] raises the error of [os.stat], on what is not a
    directory, and on a directory it may not read. *)
Definition os_listdir (fs : node) (p : path) : result (list string) :=
  match os_stat fs p with
  | Ok (Dir cs) => Ok (map fst cs)
  | Ok (Sealed e _) => Raise e
  | Ok _ => Raise NotADirectoryError
  | Raise e => Raise e
  end.

(** [x in xs] for an optional filter list: [None] lets everything pass *)
Definition passes (filter : option (list string)) (x : string) : bool :=
  match filter with
  | None => true
  | Some xs => bool_decide (x ∈ xs)
  end.

(** The part of a band identifier the key and the band filter use *)
Definition full_band (file_instrument file_band : string) : string :=
  if String.eqb file_instrument file_band then file_band
  else file_instrument ++ "-" ++ file_band.

(** A file of an instrument directory is a candidate image *)
Definition is_candidate (file_type fits_file : string) : bool :=
  str_contains ("EUC_MER_" ++ _get_file_pattern file_type) fits_file
  && str_endswith ".fits" fits_file
  && negb (str_contains "FINAL-CAT" fits_file).

(** Body of the inner [for fits_file in fits_files] loop *)
Definition add_file (file_type : string) (bands : option (list string))
    (instrument_dir : string) (inst_path : path)
    (found_files : gmap string path) (fits_file : string)
  : gmap string path :=
  match _parse_filename fits_file file_type with
  | None => found_files
  | Some (file_instrument, file_band) =>
      if passes bands (full_band file_instrument file_band)
      then <[instrument_dir ++ "_" ++ full_band file_instrument file_band
             := (inst_path ++ [fits_file])%list]> found_files
      else found_files
  end.

(** Body of the outer [for instrument_dir in os.listdir(mer_dir)] loop *)
Definition scan_instrument_dir (fs : node) (mer_dir : path)
    (file_type : string) (instruments bands : option (list string))
    (found_files : gmap string path) (instrument_dir : string)
  : result (gmap string path) :=
  let inst_path := (mer_dir ++ [instrument_dir])%list in
  if negb (os_path_isdir fs inst_path) then Ok found_files
  else if negb (passes instruments instrument_dir) then Ok found_files
  else
    names ← os_listdir fs inst_path;
    let fits_files := List.filter (is_candidate file_type) names in
    Ok (fold_left (add_file file_type bands instrument_dir inst_path)
          fits_files found_files).

Definition find_files (fs : node) (tile_id file_type : string)
    (mer_root : path) (instruments bands : option (list string))
  : result (gmap string path) :=
  let mer_dir := (mer_root ++ [tile_id])%list in
  if negb (os_path_exists fs mer_dir) then Ok ∅
  else
    dirs ← os_listdir fs mer_dir;
    for_each (scan_instrument_dir fs mer_dir file_type instruments bands)
      dirs ∅.

(** A small archive: a tile with a VIS and a NISP mosaic and a catalog
    index file, and a tile id under which a plain file is stored. *)
Definition sample_archive : node :=
  Dir [("MER",
        Dir [("102019587",
              Dir [("VIS",
                    Dir [("EUC_MER_BGSUB-MOSAIC-VIS_TILE102019587-ACBD03_20241018T164415.012922Z_00.00.fits", File);
                         ("EUC_MER_FINAL-CAT_TILE102019587-CB5786_20241018T164415.012922Z_00.00.fits", File)]);
                   ("NISP",
                    Dir [("EUC_MER_BGSUB-MOSAIC-NIR-Y_TILE102019587-DEDE9D_20241018T160516.574568Z_00.00.fits", File)]);
                   ("README", File)]);
             ("102019588", File)])].

(** An archive with entries on which the system calls fail: a tile that
    cannot be examined, a tile whose directory cannot be listed, and a
    tile with an instrument directory that cannot be examined and one
    that cannot be listed. *)
Definition failing_archive : node :=
  Dir [("MER",
        Dir [("102019587", Failing (OSError "Input/output error"));
             ("102019588", Sealed (OSError "Permission denied") []);
             ("102019589",
              Dir [("VIS", Failing (OSError "Permission denied"))]);
             ("102019590",
              Dir [("VIS", Sealed (OSError "Permission denied")
                             [("EUC_MER_BGSUB-MOSAIC-VIS_TILE102019590-ACBD03_20241018T164415.012922Z_00.00.fits", File)])])])].

Definition vis_mosaic : path :=
  ["MER"; "102019587"; "VIS";
   "EUC_MER_BGSUB-MOSAIC-VIS_TILE102019587-ACBD03_20241018T164415.012922Z_00.00.fits"].

Definition nisp_mosaic : path :=
  ["MER"; "102019587"; "NISP";
   "EUC_MER_BGSUB-MOSAIC-NIR-Y_TILE102019587-DEDE9D_20241018T160516.574568Z_00.00.fits"].

(** *** What "a file matches the requested filters" means *)

(** An entry of the tile directory is searched *)
Definition selected_dir (fs : node) (mer_dir : path)
    (instruments : option (list string)) (d : string) : bool :=
  os_path_isdir fs (mer_dir ++ [d])%list && passes instruments d.

(** A file of a searched directory is kept *)
Definition selected_file (file_type : string) (bands : option (list string))
    (f : string) : bool :=
  is_candidate file_type f
  && match _parse_filename f file_type with
     | Some (file_instrument, file_band) =>
         passes bands (full_band file_instrument file_band)
     | None => false
     end.

Definition no_file_matches (fs : node) (tile_id file_type : string)
    (mer_root : path) (instruments bands : option (list string)) : Prop :=
  forall d names f,
    selected_dir fs (mer_root ++ [tile_id])%list instruments d = true ->
    os_listdir fs (mer_root ++ [tile_id; d])%list = Ok names ->
    f ∈ names ->
    selected_file file_type bands f = false.

End FileNames.

(** ** Sky coordinates and nearest-neighbour selection (astropy, numpy) *)

Module Sky.

(** [SkyCoord(ra, dec, unit='deg')]: astropy rejects a latitude outside
    [-90, 90] degrees with a [ValueError]. *)
Record SkyCoord : Type := { sc_ra : Q; sc_dec : Q }.

Definition valid_dec (dec : Q) : bool :=
  Qle_bool (-90) dec && Qle_bool dec 90.

Definition mkSkyCoord (ra dec : Q) : result SkyCoord :=
  if valid_dec dec then Ok {| sc_ra := ra; sc_dec := dec |}
  else Raise (ValueError "Latitude angle(s) must be within -90 deg <= angle <= 90 deg").

(** [a.separation(b)]: the great-circle angle between two positions, in
    degrees.  Its body is astropy's. *)
Class SkyGeometry : Type := { separation : SkyCoord -> SkyCoord -> Q }.

Definition Qlt_bool (x y : Q) : bool := negb (Qle_bool y x).

(** [np.argmin]: the first index at which the minimum is attained;
    [ValueError] on an empty sequence. *)
Fixpoint argmin_from (best_i : nat) (best : Q) (i : nat) (l : list Q) : nat :=
  match l with
  | [] => best_i
  | x :: l' =>
      if Qlt_bool x best then argmin_from i x (S i) l'
      else argmin_from best_i best (S i) l'
  end.

Definition np_argmin (l : list Q) : result nat :=
  match l with
  | [] => Raise (ValueError "attempt to get argmin of an empty sequence")
  | x :: l' => Ok (argmin_from 0 x 1 l')
  end.

(** [v] at index [r] is a first minimum of [l] *)
Definition first_min (l : list Q) (r : nat) (v : Q) : Prop :=
  l !! r = Some v /\
  (forall j y, l !! j = Some y -> (v <= y)%Q) /\
  (forall j y, (j < r)%nat -> l !! j = Some y -> (v < y)%Q).

End Sky.
Import Sky.

(** ** Spatial tile index ([euclid_cutout_remix.py], lines 111-139;
     [coordinate_matcher.py], lines 15-39) *)

Module TileIndex.

Record TileRecord : Type := {
  TILE_ID : string;
  RA_MIN : Q; RA_MAX : Q;
  DEC_MIN : Q; DEC_MAX : Q;
  RA_CENTER : Q; DEC_CENTER : Q;
  N_OBJECTS : Z
}.

(** What [Table.read] hands back when it does not raise: a table that has
    the index columns, or one that lacks a column the lookup reads. *)
Inductive tile_table : Type :=
| MissingColumn (name : string)
| Tiles (rows : list TileRecord).

(** The disk: [Table.read(tile_index_file)] *)
Definition table_reader := string -> result tile_table.

Definition columns (t : tile_table) : result (list TileRecord) :=
  match t with
  | MissingColumn name => Raise (KeyError name)
  | Tiles rows => Ok rows
  end.

(** The boolean mask of the tolerance-expanded bounding-box test *)
Definition in_bbox (ra dec tolerance : Q) (t : TileRecord) : bool :=
  Qle_bool (RA_MIN t - tolerance) ra
  && Qle_bool ra (RA_MAX t + tolerance)
  && Qle_bool (DEC_MIN t - tolerance) dec
  && Qle_bool dec (DEC_MAX t + tolerance).

Definition tile_center (t : TileRecord) : result SkyCoord :=
  mkSkyCoord (RA_CENTER t) (DEC_CENTER t).

(** The angular separation between a position and the centre of a tile *)
Definition tile_separation `{SkyGeometry} (ra dec : Q) (t : TileRecord) : Q :=
  separation {| sc_ra := ra; sc_dec := dec |}
             {| sc_ra := RA_CENTER t; sc_dec := DEC_CENTER t |}.

(** The body of the [try] block, on the rows of the index *)
Definition lookup_tile `{SkyGeometry} (rows : list TileRecord)
    (ra dec tolerance : Q) : result (option string) :=
  let matched_tiles := List.filter (in_bbox ra dec tolerance) rows in
  match matched_tiles with
  | [] => Ok None
  | [t] => Ok (Some (TILE_ID t))
  | _ =>
      coord ← mkSkyCoord ra dec;
      tile_centers ← map_result tile_center matched_tiles;
      let separations := map (separation coord) tile_centers in
      nearest_idx ← np_argmin separations;
      t ← getitem matched_tiles nearest_idx;
      Ok (Some (TILE_ID t))
  end.

Definition query_tile_id `{SkyGeometry} (Table_read : table_reader)
    (ra dec : Q) (tile_index_file : string) (tolerance : Q)
  : option string :=
  try_except
    (tile_table ← Table_read tile_index_file;
     rows ← columns tile_table;
     lookup_tile rows ra dec tolerance)
    (fun _ => None).

Definition default_tolerance : Q := 1 # 100.

(** Sample data: two overlapping tiles with distinct centres on one
    meridian, and a second index row that shares the centre of the first
    under another id.  [taxicab] is a stand-in for astropy's separation,
    used only to run examples; between two points of one meridian it is
    the great-circle angle. *)
Definition tile_a : TileRecord :=
  {| TILE_ID := "102019587";
     RA_MIN := 10; RA_MAX := 12; DEC_MIN := 0; DEC_MAX := 2;
     RA_CENTER := 11; DEC_CENTER := 1; N_OBJECTS := 1000 |}.

Definition tile_b : TileRecord :=
  {| TILE_ID := "102019588";
     RA_MIN := 10; RA_MAX := 12; DEC_MIN := 1; DEC_MAX := 3;
     RA_CENTER := 11; DEC_CENTER := 2; N_OBJECTS := 1200 |}.

Definition tile_a' : TileRecord :=
  {| TILE_ID := "102019589";
     RA_MIN := 10; RA_MAX := 12; DEC_MIN := 0; DEC_MAX := 2;
     RA_CENTER := 11; DEC_CENTER := 1; N_OBJECTS := 1000 |}.

Definition index_of (rows : list TileRecord) : table_reader :=
  fun _ => Ok (Tiles rows).

Definition taxicab : SkyGeometry :=
  {| separation a b :=
       (Qabs (sc_ra a - sc_ra b) + Qabs (sc_dec a - sc_dec b))%Q |}.

(** [coordinate_matcher.query_tile_id]: a wrapper that supplies the
    default index path and has its own [try/except]. *)
Definition default_tile_index_file : string :=
  "data/EuclidQ1_tile_coordinates.fits".

Definition matcher_query_tile_id `{SkyGeometry} (Table_read : table_reader)
    (ra dec : Q) (tile_index_file : option string) : option string :=
  try_except
    (Ok (query_tile_id Table_read ra dec
           (default default_tile_index_file tile_index_file)
           default_tolerance))
    (fun _ => None).

(** The tile [t] at index [i] of [matched] is a nearest one, and the
    first such in index order. *)
Definition nearest_first `{SkyGeometry} (ra dec : Q) (matched : list TileRecord)
    (i : nat) (t : TileRecord) : Prop :=
  matched !! i = Some t /\
  (forall t', t' ∈ matched ->
              (tile_separation ra dec t <= tile_separation ra dec t')%Q) /\
  (forall j t', (j < i)%nat -> matched !! j = Some t' ->
                (tile_separation ra dec t < tile_separation ra dec t')%Q).

End TileIndex.

(** ** Window and stamp extraction ([euclid_cutout_remix.py], lines 273-475) *)

Module Extract.
Import FileNames.

(** A pixel is a finite value or NaN. *)
Inductive pixel : Type := Val (v : Q) | NaN.

Definition isnan (p : pixel) : bool :=
  match p with NaN => true | Val _ => false end.

(** A two-dimensional [ndarray]: its shape and an accessor *)
Record ndarray : Type := {
  shape0 : nat;                       (* rows:    [a.shape[0]] *)
  shape1 : nat;                       (* columns: [a.shape[1]] *)
  at_ : nat -> nat -> pixel
}.

Definition ndarray_size (a : ndarray) : nat := (shape0 a * shape1 a)%nat.

(** [a[y0:y1, x0:x1]] *)
Definition ndarray_slice (a : ndarray) (y0 y1 x0 x1 : Z) : ndarray :=
  let ys := slice_index y0 (shape0 a) in
  let ye := slice_index y1 (shape0 a) in
  let xs := slice_index x0 (shape1 a) in
  let xe := slice_index x1 (shape1 a) in
  {| shape0 := ye - ys;
     shape1 := xe - xs;
     at_ := fun i j => at_ a (ys + i) (xs + j) |}.

(** [np.isnan(a).any()] *)
Definition any_nan (a : ndarray) : bool :=
  existsb (fun i => existsb (fun j => isnan (at_ a i j)) (seq 0 (shape1 a)))
          (seq 0 (shape0 a)).

(** Window size: an integer (square) or a [(height, width)] pair *)
Inductive size : Type := Square (n : Z) | Rect (h w : Z).

(** Provenance header of a stamp *)
Record psf_header : Type := {
  H_STMPSIZE : Z;
  PSF_RA : Q; PSF_DEC : Q;
  PSF_FWHM : option Q;
  PSF_IDX : nat;
  PSF_XCTR : Q; PSF_YCTR : Q
}.

(** The result dictionary shared by [cutout_image] and [cutout_psf];
    ['instrument'] and ['band'] are the two keys [cutout_tile] adds.
    The coordinate-transform fragment of a window is opaque here. *)
Record cutout_result : Type := {
  success : bool;
  data : option ndarray;
  has_wcs : bool;
  header : option psf_header;
  error : option string;
  contains_nan : bool;
  instrument : option string;
  band : option string
}.

Definition initial_result : cutout_result :=
  {| success := false; data := None; has_wcs := false; header := None;
     error := None; contains_nan := false;
     instrument := None; band := None |}.

Definition with_error (msg : string) : cutout_result :=
  {| success := false; data := None; has_wcs := false; header := None;
     error := Some msg; contains_nan := false;
     instrument := None; band := None |}.

(** A row of the stamp position table ([hdul[2]]) *)
Record psf_row : Type := {
  RA : Q; Dec : Q;
  x_center : Q; y_center : Q;
  FWHM : option Q
}.

(** An opened stamp file: [hdul[1].data], the [STMPSIZE] card of
    [hdul[1].header] when present, and the table of [hdul[2]] *)
Record psf_file : Type := {
  img_data : ndarray;
  STMPSIZE : option Z;
  psf_table : list psf_row
}.

(** Reading the archive.  [fits_open_psf p] is [fits.open(p)] on a stamp
    file together with the reads of [hdul[1]], [hdul[2]] and the table
    columns, any of which raises on a file that lacks them;
    [image_window p ra dec size] is the [fits.open], [WCS] and [Cutout2D]
    sequence of [cutout_image], returning the sliced window. *)
Class Archive : Type := {
  fits_open_psf : path -> result psf_file;
  image_window : path -> Q -> Q -> size -> result ndarray
}.

Definition cutout_image `{Archive} (fits_path : path) (ra dec : Q)
    (sz : size) : cutout_result :=
  try_except
    (cutout ← image_window fits_path ra dec sz;
     Ok {| success := true; data := Some cutout; has_wcs := true;
           header := None; error := None;
           contains_nan := any_nan cutout;
           instrument := None; band := None |})
    (fun e => with_error (exn_str e)).

(** The lower bound of the stamp on one axis: derived from the recorded
    centre, floored at 0, then shifted back if the stamp would run past
    the end of the axis. *)
Definition stamp_min (center : Q) (stmpsize : Z) (axis_len : nat) : Z :=
  let half_size := (stmpsize `div` 2)%Z in
  let lo := Z.max 0 (int_of_float (center - inject_Z half_size) - 1) in
  if (lo + stmpsize >? Z.of_nat axis_len)%Z
  then (Z.of_nat axis_len - stmpsize)%Z
  else lo.

Definition cutout_psf_body `{SkyGeometry} (hdul : psf_file) (ra dec : Q)
  : result cutout_result :=
  let stmpsize := default 0%Z (STMPSIZE hdul) in
  if (stmpsize =? 0)%Z then Ok (with_error "PSF文件中没有STMPSIZE信息")
  else
    target_coord ← mkSkyCoord ra dec;
    psf_coords ← map_result (fun r => mkSkyCoord (RA r) (Dec r)) (psf_table hdul);
    let separations := map (separation target_coord) psf_coords in
    nearest_idx ← np_argmin separations;
    nearest_psf ← getitem (psf_table hdul) nearest_idx;
    let x_min := stamp_min (x_center nearest_psf) stmpsize (shape1 (img_data hdul)) in
    let y_min := stamp_min (y_center nearest_psf) stmpsize (shape0 (img_data hdul)) in
    if (x_min <? 0)%Z || (y_min <? 0)%Z
    then Ok (with_error "PSF裁剪区域超出图像边界")
    else
      let psf_cutout :=
        ndarray_slice (img_data hdul)
          y_min (y_min + stmpsize) x_min (x_min + stmpsize) in
      if (ndarray_size psf_cutout =? 0)%nat
      then Ok (with_error "PSF裁剪得到空数组")
      else
        Ok {| success := true;
              data := Some psf_cutout;
              has_wcs := false;
              header := Some {| H_STMPSIZE := stmpsize;
                                PSF_RA := RA nearest_psf;
                                PSF_DEC := Dec nearest_psf;
                                PSF_FWHM := FWHM nearest_psf;
                                PSF_IDX := nearest_idx;
                                PSF_XCTR := x_center nearest_psf;
                                PSF_YCTR := y_center nearest_psf |};
              error := None;
              contains_nan := any_nan psf_cutout;
              instrument := None; band := None |}.

Definition cutout_psf `{SkyGeometry} `{Archive} (psf_fits_path : path)
    (ra dec : Q) : cutout_result :=
  try_except
    (hdul ← fits_open_psf psf_fits_path; cutout_psf_body hdul ra dec)
    (fun e => with_error (exn_str e)).

(** The result dictionary of [cutout_tile] *)
Record tile_result : Type := {
  t_success : bool;
  t_cutouts : gmap string cutout_result;
  t_error : option string
}.

Definition tagged (r : cutout_result) (inst bnd : string) : cutout_result :=
  {| success := success r; data := data r; has_wcs := has_wcs r;
     header := header r; error := error r;
     contains_nan := contains_nan r;
     instrument := Some inst; band := Some bnd |}.

(** [instrument, band = key.split('_', 1)]: unpacking fails with a
    [ValueError] unless the split has exactly two parts; the stamp
    product then falls back to fixed labels, every other product skips
    the file. *)
Definition key_labels (file_type key : string) : option (string * string) :=
  match str_split1 "_" key EmptyString with
  | [i; b] => Some (i, b)
  | _ => if String.eqb file_type "CATALOG-PSF"
         then Some ("CATALOG", "PSF") else None
  end.

(** The extraction a product type calls for *)
Definition cutout_of `{SkyGeometry} `{Archive} (file_type : string)
    (filepath : path) (ra dec : Q) (sz : size) : cutout_result :=
  if String.eqb file_type "CATALOG-PSF"
  then cutout_psf filepath ra dec
  else cutout_image filepath ra dec sz.

(** Body of [for key, filepath in files.items()] *)
Definition add_cutout `{SkyGeometry} `{Archive} (file_type : string)
    (ra dec : Q) (sz : size) (skip_nan : bool)
    (cutouts : gmap string cutout_result) (item : string * path)
  : gmap string cutout_result :=
  let '(key, filepath) := item in
  match key_labels file_type key with
  | None => cutouts
  | Some (inst, bnd) =>
      let cutout_result := cutout_of file_type filepath ra dec sz in
      if success cutout_result then
        if contains_nan cutout_result && skip_nan then cutouts
        else <[key := tagged cutout_result inst bnd]> cutouts
      else cutouts
  end.

Definition cutout_tile `{SkyGeometry} `{Archive} (fs : node)
    (tile_id : string) (ra dec : Q) (sz : size) (file_type : string)
    (mer_root : path) (instruments bands : option (list string))
    (skip_nan : bool) : tile_result :=
  try_except
    (files ← find_files fs tile_id file_type mer_root instruments bands;
     if bool_decide (files = ∅)
     then Ok {| t_success := false; t_cutouts := ∅;
                t_error := Some ("未找到TILE " ++ tile_id ++ " 的 "
                                 ++ file_type ++ " 文件") |}
     else
       let cutouts :=
         fold_left (add_cutout file_type ra dec sz skip_nan)
           (map_to_list files) ∅ in
       if bool_decide (cutouts = ∅)
       then Ok {| t_success := false; t_cutouts := cutouts;
                  t_error := Some "所有波段裁剪都失败或包含NaN" |}
       else Ok {| t_success := true; t_cutouts := cutouts;
                  t_error := None |})
    (fun e => {| t_success := false; t_cutouts := ∅;
                 t_error := Some (exn_str e) |}).

(** Sample data.  A 10 x 10 stamp image whose header declares the
    width [w]; a window with a NaN pixel. *)
Definition zeros (h w : nat) : ndarray :=
  {| shape0 := h; shape1 := w; at_ := fun _ _ => Val 0 |}.

Definition stamp_file (w : Z) (xc yc : Q) : psf_file :=
  {| img_data := zeros 10 10; STMPSIZE := Some w;
     psf_table := [{| RA := 11; Dec := 1; x_center := xc; y_center := yc;
                      FWHM := None |}] |}.

Definition window_with_nan : ndarray :=
  {| shape0 := 4; shape1 := 4;
     at_ := fun i j => if (i =? 1)%nat && (j =? 2)%nat then NaN else Val 1 |}.

(** An archive in which every stamp file is [f], the VIS mosaic gives a
    window with an invalid pixel and no other mosaic can be cut. *)
Definition archive_with (f : psf_file) : Archive :=
  {| fits_open_psf := fun _ => Ok f;
     image_window := fun p _ _ _ =>
       if bool_decide (p = vis_mosaic)
       then Ok window_with_nan
       else Raise (ValueError "Arrays do not overlap.") |}.

(** What a result of [cutout_psf] looks like: a failure carries an error
    message and no data; a success carries the slice the bounds select. *)
Definition psf_failure (r : cutout_result) : Prop :=
  success r = false /\ is_Some (error r) /\ data r = None.

Definition psf_success (hdul : psf_file) (r : cutout_result) : Prop :=
  let stmpsize := default 0%Z (STMPSIZE hdul) in
  exists row,
    row ∈ psf_table hdul /\
    let x_min := stamp_min (x_center row) stmpsize (shape1 (img_data hdul)) in
    let y_min := stamp_min (y_center row) stmpsize (shape0 (img_data hdul)) in
    (0 <= x_min)%Z /\ (0 <= y_min)%Z /\
    success r = true /\ error r = None /\
    data r = Some (ndarray_slice (img_data hdul)
                     y_min (y_min + stmpsize) x_min (x_min + stmpsize)).

(** A file whose extraction enters the returned mapping *)
Definition kept `{SkyGeometry} `{Archive} (file_type : string) (ra dec : Q) (sz : size)
    (skip_nan : bool) (filepath : path) : Prop :=
  success (cutout_of file_type filepath ra dec sz) = true /\
  contains_nan (cutout_of file_type filepath ra dec sz) && skip_nan = false.

End Extract.

(** ** Per-catalog statistics ([euclid_cutout_remix.py], lines 1061-1127)

  [process_catalog] accumulates the statistics in one loop body that its
  parallel and its sequential branch share.  The loop consumes, in
  completion order, what each call of [_process_single_source_parallel]
  gave: a result dictionary, or an exception. *)

Module Batch.

Record file_stats : Type := {
  n_success : nat;
  n_failed : nat;
  errors : list string
}.

Inductive outcome : Type :=
| Returned (obj_id : string) (results : list (string * string))
| Crashed (e : exn).

(** [{ft: {'success': 0, 'failed': 0, 'errors': []} for ft in file_types}] *)
Definition initial_stats (file_types : list string) : gmap string file_stats :=
  list_to_map
    ((fun ft => (ft, {| n_success := 0; n_failed := 0; errors := [] |}))
       <$> file_types).

Definition bump_success (s : file_stats) : file_stats :=
  {| n_success := S (n_success s); n_failed := n_failed s;
     errors := errors s |}.

Definition bump_failed (s : file_stats) : file_stats :=
  {| n_success := n_success s; n_failed := S (n_failed s);
     errors := errors s |}.

(** [if verbose and len(errors) < 10: errors.append(...)] *)
Definition sample_error (verbose : bool) (msg : string) (s : file_stats)
  : file_stats :=
  if verbose && (length (errors s) <? 10)%nat
  then {| n_success := n_success s; n_failed := n_failed s;
          errors := (errors s ++ [msg])%list |}
  else s.

(** One iteration of [for file_type, status in results.items()];
    [stats[file_type]] raises [KeyError] on an unknown file type. *)
Definition record_status (verbose : bool) (obj_id : string)
    (stats : gmap string file_stats) (item : string * string)
  : result (gmap string file_stats) :=
  let '(file_type, status) := item in
  match stats !! file_type with
  | None => Raise (KeyError file_type)
  | Some s =>
      if String.eqb status "success"
      then Ok (<[file_type := bump_success s]> stats)
      else Ok (<[file_type :=
                   sample_error verbose (obj_id ++ ": " ++ status)
                     (bump_failed s)]> stats)
  end.

(** The whole [for] over [results.items()]: the statistics are updated in
    place, so what was recorded before an exception stays recorded. *)
Fixpoint record_results (verbose : bool) (obj_id : string)
    (results : list (string * string)) (stats : gmap string file_stats)
  : gmap string file_stats * option exn :=
  match results with
  | [] => (stats, None)
  | item :: rest =>
      match record_status verbose obj_id stats item with
      | Ok stats' => record_results verbose obj_id rest stats'
      | Raise e => (stats, Some e)
      end
  end.

(** The [except] branch: [for file_type in file_types:
    stats[file_type]['failed'] += 1].  Every file type is a key of the
    statistics, so the lookups of this branch find their entry. *)
Definition fail_all (file_types : list string)
    (stats : gmap string file_stats) : gmap string file_stats :=
  fold_left (fun st ft => alter bump_failed ft st) file_types stats.

(** One iteration of the loop over the per-source outcomes *)
Definition absorb (verbose : bool) (file_types : list string)
    (stats : gmap string file_stats) (o : outcome)
  : gmap string file_stats :=
  match o with
  | Returned obj_id results =>
      match record_results verbose obj_id results stats with
      | (stats', None) => stats'
      | (stats', Some _) => fail_all file_types stats'
      end
  | Crashed _ => fail_all file_types stats
  end.

Definition process_catalog (verbose : bool) (file_types : list string)
    (outcomes : list outcome) : gmap string file_stats :=
  fold_left (absorb verbose file_types) outcomes (initial_stats file_types).

(** The invariant of the accumulation loop *)
Definition capped (stats : gmap string file_stats) : Prop :=
  forall ft st, stats !! ft = Some st -> (length (errors st) <= 10)%nat.

(** Twelve failing sources of one file type: ten samples are kept. *)
Definition twelve_failures : list outcome :=
  map (fun i => Returned ("obj" ++ pretty i)
                  [("BGSUB", "cutout_failed: no data")])
      (seq 0 12).

End Batch.

(** ** Cache keys and the cached task pipeline
     ([Euclid_flash_app.py], lines 136-174, 318-441, 561-1498) *)

Module Cache.

(** Formatting of floats in f-strings: [f"{x}"] and [f"{x:.Nf}"] *)
Class PyFormat : Type := {
  float_str : Q -> string;
  float_fixed : nat -> Q -> string
}.

(** [round(y)]: nearest integer, ties to the even one *)
Definition round_half_even (y : Q) : Z :=
  let f := Qfloor y in
  match Qcompare (y - inject_Z f) (1 # 2) with
  | Lt => f
  | Gt => (f + 1)%Z
  | Eq => if Z.even f then f else (f + 1)%Z
  end.

(** A float that is a number.  Beside the rationals the model computes
    with, Python has a negative zero, which compares equal to zero and
    prints as [-0.0]; it is where a small negative number rounds to. *)
Inductive pyfloat : Type :=
| Fin (q : Q)
| NegZero.

Definition float_value (x : pyfloat) : Q :=
  match x with Fin q => q | NegZero => 0 end.

(** [round(x, 6)], kept in lowest terms; the sign of [x] is kept where
    the result is zero.  (A coordinate that is itself the negative zero
    is not among the rationals; rounded, it would stay what it is.) *)
Definition round6 (x : Q) : pyfloat :=
  let k := round_half_even (x * 1000000) in
  if (k =? 0)%Z && negb (Qle_bool 0 x) then NegZero
  else Fin (Qred (inject_Z k / 1000000)).

(** [f"{x}"] of a float: the negative zero prints as zero does, behind
    a minus sign *)
Definition float_repr `{PyFormat} (x : pyfloat) : string :=
  match x with
  | Fin q => float_str q
  | NegZero => "-" ++ float_str 0
  end.

(** [band if band else 'unknown'] *)
Definition band_str (band : option string) : string :=
  or_default band "unknown".

Definition generate_source_cache_key `{PyFormat} (ra dec : Q) (size : Z)
    (instrument file_type : string) (band : option string) : string :=
  let ra_rounded := round6 ra in
  let dec_rounded := round6 dec in
  let key_parts := ["ra_" ++ float_repr ra_rounded;
                    "dec_" ++ float_repr dec_rounded;
                    "size_" ++ pretty size;
                    "inst_" ++ instrument;
                    "type_" ++ file_type;
                    "band_" ++ band_str band] in
  str_join "_" key_parts.

(** *** The stores

    Files are addressed by the directory they live in:
    - [CacheFile i t n] is [CACHE_DIR/i/t/n], the per-run tier, named by
      cache key;
    - [BandCacheFile b n] is [PERMANENT_DOWNLOAD_DIR/b/n], the permanent
      tier, named by target, instrument, product type and band;
    - [BandCacheNested b ds n] is [PERMANENT_DOWNLOAD_DIR/b/ds/n] for a
      chain [ds] of directories: whatever else lies below the directory
      of a band, where the pipeline itself stores nothing;
    - [PermanentTaskFile], [TaskOutputFile], [PermanentZip], [OutputZip]
      hold the results of one task.
    A name is the last component of its path.  The code joins target
    ids and task ids into paths unexamined; an id that holds a path
    separator, and a task whose id is the name of a band, would make
    paths of different kinds meet, and are outside this model. *)
Inductive fpath : Type :=
| CacheFile (instrument file_type name : string)
| BandCacheFile (band name : string)
| BandCacheNested (band : string) (dirs : list string) (name : string)
| PermanentTaskFile (task_id band name : string)
| TaskOutputFile (task_id band name : string)
| PermanentZip (task_id : string)
| OutputZip (task_id : string).

#[export] Instance fpath_eq_dec : EqDecision fpath.
Proof. solve_decision. Defined.

Definition fpath_encode (p : fpath) : nat * list string :=
  match p with
  | CacheFile i t n => (0, [i; t; n])
  | BandCacheFile b n => (1, [b; n])
  | PermanentTaskFile k b n => (2, [k; b; n])
  | TaskOutputFile k b n => (3, [k; b; n])
  | PermanentZip k => (4, [k])
  | OutputZip k => (5, [k])
  | BandCacheNested b ds n => (6, b :: n :: ds)
  end.

Definition fpath_decode (x : nat * list string) : option fpath :=
  match x with
  | (0, [i; t; n]) => Some (CacheFile i t n)
  | (1, [b; n]) => Some (BandCacheFile b n)
  | (2, [k; b; n]) => Some (PermanentTaskFile k b n)
  | (3, [k; b; n]) => Some (TaskOutputFile k b n)
  | (4, [k]) => Some (PermanentZip k)
  | (5, [k]) => Some (OutputZip k)
  | (6, b :: n :: ds) => Some (BandCacheNested b ds n)
  | _ => None
  end.

#[export] Instance fpath_countable : Countable fpath.
Proof.
  apply (inj_countable fpath_encode fpath_decode).
  intros []; reflexivity.
Defined.

(** What a stored FITS file holds, as far as the pipeline looks at it:
    the [BAND] card of its headers and the pixel payload (by identity). *)
Record fits_file : Type := { band_card : option string; payload : nat }.

(** A row of the catalog: its position and its target id, which the
    table may hold masked (missing). *)
Record source : Type := {
  s_ra : Q; s_dec : Q;
  s_target_id : string;
  s_masked : bool
}.

(** [str(target_id)] of a row, and the id as [build_unified_filename]
    tests and prints it: a masked id prints as [--] and counts as
    absent. *)
Definition id_text (s : source) : string :=
  if s_masked s then "--" else s_target_id s.

Definition id_given (s : source) : string :=
  if s_masked s then EmptyString else s_target_id s.

(** The task configuration; [cfg_band] is the value of
    [config.get('band', 'VIS')]. *)
Record task_config : Type := {
  cfg_file_types : list string;
  cfg_instruments : list string;
  cfg_band : option string;
  cfg_size : Z
}.

Definition all_bands : list string :=
  ["VIS"; "NIR-Y"; "NIR-J"; "NIR-H"; "DES-G"; "DES-R"; "DES-I"; "DES-Z"].

Definition band_map : gmap string (list string) :=
  list_to_map [("NISP", ["NIR-Y"; "NIR-J"; "NIR-H"]);
               ("DECAM", ["DES-G"; "DES-R"; "DES-I"; "DES-Z"]);
               ("VIS", ["VIS"]);
               ("HSC", ["WISHES-G"; "WISHES-Z"]);
               ("GPC", ["PANSTARRS-I"]);
               ("MEGACAM", ["CFIS-U"; "CFIS-R"])].

(** [f"{x:.8f}".replace('.', '').replace('-', '')] *)
Definition coord_digits `{PyFormat} (x : Q) : string :=
  str_replace "-" EmptyString (str_replace "." EmptyString (float_fixed 8 x)).

Definition build_unified_filename `{PyFormat} (target_id file_type
    instrument : string) (band : option string) (radec : option (Q * Q))
  : string :=
  let file_type_clean := str_replace "-" "_" file_type in
  let instrument_clean := str_upper instrument in
  let band_clean :=
    match band with
    | Some b => if String.eqb b EmptyString then "VIS" else str_upper b
    | None => "VIS"
    end in
  let target_id :=
    if String.eqb target_id EmptyString then
      match radec with
      | Some (ra, dec) =>
          "RA_" ++ coord_digits ra ++ "_Dec_" ++ coord_digits dec
      | None => "unknown"
      end
    else target_id in
  if String.eqb band_clean "VIS"
  then target_id ++ "_" ++ instrument_clean ++ "_" ++ file_type_clean
       ++ ".fits"
  else target_id ++ "_" ++ instrument_clean ++ "_" ++ file_type_clean
       ++ "_" ++ band_clean ++ ".fits".

(** The first band named inside a [_]-separated part of a file name *)
Definition band_in_name (name : string) : option string :=
  head (flat_map
          (fun part => List.filter (fun b => str_contains b part) all_bands)
          (str_split "_" name)).

(** *** The permanent tier is read by [scan_band_cache] *)

Record band_hit : Type := {
  b_file : fpath;
  b_name : string;
  b_target_id : string;
  b_instrument : string;
  b_file_type : string;
  b_band : string
}.

(** [os.walk(PERMANENT_DOWNLOAD_DIR/band)]: the files in the directory
    of a band and below it, each with its name *)
Definition band_tree (fs : gmap fpath fits_file) (band : string)
  : list (fpath * string) :=
  omap (fun p => match p with
                 | BandCacheFile b n | BandCacheNested b _ n =>
                     if String.eqb b band then Some (p, n) else None
                 | _ => None
                 end)
       (map fst (map_to_list fs)).

(** [scan_band_cache].  [bands] is the list given, the empty list
    standing for [None] as well: the code tests [bands and len(bands) >
    0] and otherwise scans every band of the instrument.  The product
    type of a file is the first requested one whose lower-cased name
    occurs in the lower-cased file name; the regular expressions the
    source tries afterwards all contain that name literally and are
    matched ignoring case, so they find nothing more. *)
Definition scan_band_cache (fs : gmap fpath fits_file)
    (target_ids instruments file_types bands : list string)
  : list band_hit :=
  match instruments with
  | [] => []
  | target_instrument :: _ =>
      let target_bands :=
        match bands with
        | _ :: _ =>
            List.filter
              (fun b => bool_decide
                          (b ∈ default [] (band_map !! target_instrument)))
              bands
        | [] => default [] (band_map !! target_instrument)
        end in
      flat_map
        (fun band =>
           omap
             (fun '(file_path, file) =>
                if negb (str_endswith ".fits" file) then None
                else
                  match List.find (fun tid => str_contains tid file)
                          target_ids with
                  | None => None
                  | Some matched_target_id =>
                      if String.eqb matched_target_id EmptyString then None
                      else
                        match List.find
                                (fun ft => str_contains (str_lower ft)
                                             (str_lower file))
                                file_types with
                        | None => None
                        | Some ft =>
                            Some {| b_file := file_path;
                                    b_name := file;
                                    b_target_id := matched_target_id;
                                    b_instrument := target_instrument;
                                    b_file_type := ft;
                                    b_band := band |}
                        end
                  end)
             (band_tree fs band))
        target_bands
  end.

(** *** Planning: which (source, instrument, product type) is cached *)

Record job : Type := {
  j_index : nat;
  j_source : source;
  j_instrument : string;
  j_file_type : string;
  j_band : option string
}.

Record cache_hit : Type := {
  c_file : fpath;
  c_name : string;
  c_instrument : string;
  c_file_type : string;
  c_index : nat;
  c_target_id : string;
  c_band : option string
}.

Inductive planned : Type :=
| Cached (c : cache_hit)
| ToProcess (j : job).

(** Lines 816-846, for the source at row [i] *)
Definition plan_source `{PyFormat} (fs : gmap fpath fits_file)
    (cfg : task_config) (i : nat) (s : source) : list planned :=
  flat_map
    (fun instrument =>
       map
         (fun file_type =>
            let requested_band := cfg_band cfg in
            let cache_key :=
              generate_source_cache_key (s_ra s) (s_dec s) (cfg_size cfg)
                instrument file_type requested_band in
            let cache_file :=
              CacheFile instrument file_type (cache_key ++ ".fits") in
            if bool_decide (is_Some (fs !! cache_file))
            then Cached {| c_file := cache_file;
                           c_name := cache_key ++ ".fits";
                           c_instrument := instrument;
                           c_file_type := file_type;
                           c_index := i;
                           c_target_id := s_target_id s;
                           c_band := requested_band |}
            else ToProcess {| j_index := i; j_source := s;
                              j_instrument := instrument;
                              j_file_type := file_type;
                              j_band := requested_band |})
         (cfg_file_types cfg))
    (cfg_instruments cfg).

(** The planning loop passes over a row whose target id is masked
    (lines 742-745). *)
Definition plan `{PyFormat} (fs : gmap fpath fits_file) (cfg : task_config)
    (catalog : list source) : list planned :=
  flat_map (fun '(i, s) => if s_masked s then []
                           else plan_source fs cfg i s)
    (imap pair catalog).

Definition cached_sources_info (pl : list planned) : list cache_hit :=
  omap (fun p => match p with Cached c => Some c | _ => None end) pl.

Definition sources_to_process (pl : list planned) : list job :=
  omap (fun p => match p with ToProcess j => Some j | _ => None end) pl.

(** Lines 752-766: the permanent-tier files of the requested band *)
Definition permanent_cached_files (band_cache : list band_hit)
    (cfg : task_config) (catalog : list source) : list band_hit :=
  flat_map
    (fun s =>
       if s_masked s then []
       else
         List.filter
           (fun h => String.eqb (b_target_id h) (s_target_id s)
                     && bool_decide (Some (b_band h) = cfg_band cfg))
           band_cache)
    catalog.

(** Lines 628-638: the target ids handed to the scan, masked ones left
    out *)
Definition target_ids_of (catalog : list source) : list string :=
  omap (fun s => if s_masked s then None else Some (s_target_id s)) catalog.

(** *** Extraction and persistence of new artifacts *)

(** A file [process_catalog] leaves under [temp_process_dir/file_type] *)
Record temp_file : Type := {
  tf_type : string;
  tf_name : string;
  tf_content : fits_file
}.

(** The extraction engine: the files a call of [process_catalog] on the
    given rows produces (one per source and product type whose
    extraction succeeded and was accepted by the invalid-value policy),
    or the exception the call ends in (a worker pool of size zero, for
    one).  The files lie in a directory of their own, which the run
    removes when it has copied them. *)
Class CutoutEngine : Type := {
  process_catalog_files :
    list source -> task_config -> result (list temp_file)
}.

(** [list(set(l))] for a list of row indices: every index once, in the
    order in which Python iterates over the set, which depends on the
    hash table and is no order of the catalog. *)
Class SetOrder : Type := {
  list_set : list nat -> list nat;
  list_set_NoDup : forall l, NoDup (list_set l);
  list_set_elem : forall l i, i ∈ list_set l <-> i ∈ l
}.

(** The three copies every loop of [process_task] makes of an artifact:
    into the task's permanent directory, into the task's output
    directory, and - only when no file of that name is there yet - into
    the permanent band cache. *)
Definition store_artifact (task_id file_band output_filename : string)
    (content : fits_file) (fs : gmap fpath fits_file)
  : gmap fpath fits_file :=
  let fs := <[PermanentTaskFile task_id file_band output_filename
              := content]> fs in
  let fs := <[TaskOutputFile task_id file_band output_filename
              := content]> fs in
  let band_cache_file := BandCacheFile file_band output_filename in
  if bool_decide (is_Some (fs !! band_cache_file)) then fs
  else <[band_cache_file := content]> fs.

(** Lines 916-950: the new files of one product type that belong to a
    source, by target id or else by formatted position *)
Definition matching_files `{PyFormat} (temp : list temp_file)
    (file_type : string) (s : source) : list temp_file :=
  let all_fits_files :=
    List.filter (fun f => String.eqb (tf_type f) file_type
                          && str_endswith ".fits" (tf_name f)) temp in
  let by_id :=
    List.filter (fun f => str_contains (id_text s) (tf_name f))
      all_fits_files in
  match by_id with
  | _ :: _ => by_id
  | [] =>
      List.filter
        (fun f => str_contains ("ra_" ++ float_fixed 6 (s_ra s)) (tf_name f)
                  && str_contains ("dec_" ++ float_fixed 6 (s_dec s))
                       (tf_name f))
        all_fits_files
  end.

(** Lines 961-1017: the band of a new file, from its name, else from its
    [BAND] card, else the default *)
Definition new_file_band (f : temp_file) : string :=
  match band_in_name (tf_name f) with
  | Some b => b
  | None => or_default (band_card (tf_content f)) "VIS"
  end.

(** Lines 903-1056 *)
Definition persist_new `{PyFormat} (task_id : string) (cfg : task_config)
    (catalog : list source) (temp : list temp_file)
    (fs : gmap fpath fits_file) : gmap fpath fits_file :=
  fold_left
    (fun fs s =>
       fold_left
         (fun fs file_type =>
            fold_left
              (fun fs f =>
                 match cfg_instruments cfg with
                 | [] => fs          (* [instruments[0]] raises; caught *)
                 | instrument0 :: _ =>
                     let file_band := new_file_band f in
                     let output_filename :=
                       build_unified_filename (id_given s) file_type
                         instrument0 (Some file_band)
                         (Some (s_ra s, s_dec s)) in
                     store_artifact task_id file_band output_filename
                       (tf_content f) fs
                 end)
              (matching_files temp file_type s) fs)
         (cfg_file_types cfg) fs)
    catalog fs.

(** Lines 1158-1276, one iteration.  The local name [cache_filename] is
    bound only on the path that has to guess the band; the log line that
    precedes the copies reads it, so while it is unbound the iteration
    ends in the [except] branch and copies nothing.  The flag carries
    whether an earlier iteration has bound it. *)
Definition copy_cached `{PyFormat} (task_id : string)
    (st : gmap fpath fits_file * bool) (c : cache_hit)
  : gmap fpath fits_file * bool :=
  let '(fs, bound) := st in
  let guess := String.eqb (or_default (c_band c) EmptyString) EmptyString in
  let bound := bound || guess in
  let content := fs !! c_file c in
  let file_band :=
    if guess then
      match band_in_name (c_name c) with
      | Some b => b
      | None => or_default (content ≫= band_card) "VIS"
      end
    else or_default (c_band c) "VIS" in
  let output_filename :=
    build_unified_filename (c_target_id c) (c_file_type c)
      (c_instrument c) (Some file_band) None in
  if bound then
    match content with
    | Some x => (store_artifact task_id file_band output_filename x fs, bound)
    | None => (fs, bound)
    end
  else (fs, bound).

(** Lines 1279-1366, one iteration *)
Definition permanent_copy_name (h : band_hit) : string :=
  let original_filename := b_name h in
  let filename_parts :=
    str_split "_" (str_replace ".fits" EmptyString original_filename) in
  let base_filename_parts :=
    List.filter (fun p => negb (bool_decide (p ∈ all_bands)))
      filename_parts in
  let has_band_in_name :=
    existsb (fun p => bool_decide (p ∈ all_bands)) filename_parts in
  if has_band_in_name || String.eqb (b_band h) "VIS"
  then original_filename
  else str_join "_" base_filename_parts ++ "_" ++ b_band h ++ ".fits".

Definition copy_permanent (task_id : string) (fs : gmap fpath fits_file)
    (h : band_hit) : gmap fpath fits_file :=
  match fs !! b_file h with
  | Some x => store_artifact task_id (b_band h) (permanent_copy_name h) x fs
  | None => fs
  end.

Definition zip_archive : fits_file := {| band_card := None; payload := 0 |}.

(** [shutil.rmtree(task_output_dir, ignore_errors=True)] *)
Definition outside_output (task_id : string) (p : fpath) : bool :=
  match p with
  | TaskOutputFile k _ _ => negb (String.eqb k task_id)
  | _ => true
  end.

Definition rmtree_output (task_id : string) (fs : gmap fpath fits_file)
  : gmap fpath fits_file :=
  filter (fun kv => outside_output task_id (fst kv) = true) fs.

(** What a run of [process_task] leaves behind: the stores, the calls it
    made to the extraction engine (the rows of each call), and the
    exception that sent it into the [except] branch, where the task is
    marked failed. *)
Record task_run : Type := {
  fs_after : gmap fpath fits_file;
  extraction_calls : list (list source);
  failure : option exn
}.

(** [process_task], as far as it reads and writes the stores: the early
    exit on an existing result archive (lines 575-592), the reading of
    the catalog (598-680), the scan of the permanent tier (717-728), the
    planning loop (737-846), the extraction of what the plan left
    uncached (856-890), the three copy loops (903-1056, 1158-1276,
    1279-1366), the result archives (1375-1460) and the removal of the
    task's output directory (1489).
    An archive that exists is taken to hold something, as those the
    run writes do (the early exit tests its size as well).
    [table] is what reading the catalog and finding its coordinate
    columns gives: the rows, or the exception of [Table.read] or of a
    missing coordinate column.  The catalog has a target-id column.
    An exception of the reading or of the engine ends the run in the
    [except] branch (1491-1497) before anything is stored; failures of
    single copies are caught inside the loops and those of writing the
    archives are left out.  Lines 787-812 add no job: they run only when
    a permanent-tier file of the requested band was found for the
    source, and then that band is among the matched ones.  Progress,
    statistics and log output are left out, and so is the copy of the
    catalog file into the task's permanent directory. *)
Definition process_task `{PyFormat} `{SetOrder} `{CutoutEngine}
    (fs : gmap fpath fits_file) (task_id : string)
    (table : result (list source)) (cfg : task_config) : task_run :=
  if bool_decide (is_Some (fs !! PermanentZip task_id))
  then {| fs_after := fs; extraction_calls := []; failure := None |}
  else
    match table with
    | Raise e => {| fs_after := fs; extraction_calls := [];
                    failure := Some e |}
    | Ok catalog =>
        let requested_bands := [or_default (cfg_band cfg) "VIS"] in
        let band_cache :=
          scan_band_cache fs (target_ids_of catalog) (cfg_instruments cfg)
            (cfg_file_types cfg) requested_bands in
        let permanent := permanent_cached_files band_cache cfg catalog in
        let pl := plan fs cfg catalog in
        let jobs := sources_to_process pl in
        let processed_indices := list_set (map j_index jobs) in
        let processed_catalog :=
          omap (fun i => catalog !! i) processed_indices in
        let calls :=
          match jobs with [] => [] | _ :: _ => [processed_catalog] end in
        let extracted :=
          match jobs with
          | [] => Ok fs
          | _ :: _ =>
              temp ← process_catalog_files processed_catalog cfg;
              Ok (persist_new task_id cfg catalog temp fs)
          end in
        match extracted with
        | Raise e => {| fs_after := fs; extraction_calls := calls;
                        failure := Some e |}
        | Ok fs1 =>
            let fs2 := fst (fold_left (copy_cached task_id)
                              (cached_sources_info pl) (fs1, false)) in
            let fs3 := fold_left (copy_permanent task_id) permanent fs2 in
            let fs4 := <[OutputZip task_id := zip_archive]>
                         (<[PermanentZip task_id := zip_archive]> fs3) in
            {| fs_after := rmtree_output task_id fs4;
               extraction_calls := calls; failure := None |}
        end
    end.

(** *** Sample data

    [plain_format] prints a float in positional decimal notation, as
    Python does for the magnitudes of sky coordinates: [f"{x:.Nf}"] with
    [N] digits, [f"{x}"] (of a value rounded to six places) with the
    trailing zeros dropped.  It is used only to run examples. *)
Fixpoint zero_digits (n : nat) : string :=
  match n with
  | O => EmptyString
  | S n' => "0" ++ zero_digits n'
  end.

Definition pad_zeros (n : nat) (s : string) : string :=
  zero_digits (n - String.length s) ++ s.

Definition fixed_digits (n : nat) (x : Q) : string :=
  let scale := (10 ^ Z.of_nat n)%Z in
  let k := round_half_even (x * inject_Z scale) in
  let a := Z.abs k in
  (if Qle_bool 0 x then EmptyString else "-")
  ++ pretty (a `div` scale)%Z ++ "."
  ++ pad_zeros n (pretty (a `mod` scale)%Z).

Fixpoint strip_zeros (s : string) : string :=
  match s with
  | EmptyString => EmptyString
  | String c s' =>
      let r := strip_zeros s' in
      if String.eqb r EmptyString && Ascii.eqb c "0" then EmptyString
      else String c r
  end.

Definition shortest_digits (x : Q) : string :=
  match str_split "." (fixed_digits 6 x) with
  | [i; f] => i ++ "." ++ or_default (Some (strip_zeros f)) "0"
  | _ => fixed_digits 6 x
  end.

Definition plain_format : PyFormat :=
  {| float_str := shortest_digits; float_fixed := fixed_digits |}.

(** An engine that cuts every requested product of every row, naming
    the file after the target id as [process_catalog] does. *)
Definition eager_engine : CutoutEngine :=
  {| process_catalog_files := fun rows cfg =>
       Ok (flat_map
             (fun s =>
                map (fun ft =>
                       {| tf_type := ft;
                          tf_name := s_target_id s ++ ".fits";
                          tf_content := {| band_card := Some "VIS";
                                           payload := 7 |} |})
                    (cfg_file_types cfg))
             rows) |}.

(** An engine that cannot start *)
Definition failing_engine : CutoutEngine :=
  {| process_catalog_files := fun _ _ =>
       Raise (ValueError "max_workers must be greater than 0") |}.

(** A set order for the examples: the indices in the order of their
    first occurrence *)
Definition first_seen : SetOrder :=
  {| list_set := remove_dups;
     list_set_NoDup := NoDup_remove_dups;
     list_set_elem := fun l i => elem_of_remove_dups l i |}.

Definition sample_source : source :=
  {| s_ra := 1501234564 # 10000000; s_dec := 22 # 10;
     s_target_id := "2687494719"; s_masked := false |}.

(** A row whose target id the table holds masked *)
Definition masked_source : source :=
  {| s_ra := 1501234564 # 10000000; s_dec := 23 # 10;
     s_target_id := EmptyString; s_masked := true |}.

Definition sample_config : task_config :=
  {| cfg_file_types := ["BGSUB"]; cfg_instruments := ["VIS"];
     cfg_band := Some "VIS"; cfg_size := 128 |}.

(** Two stores hold the same files in the per-run cache tier *)
Definition same_cache_tier (fs fs' : gmap fpath fits_file) : Prop :=
  forall i t n, fs' !! CacheFile i t n = fs !! CacheFile i t n.

(** Two requests for the same source, one after the other *)
Definition first_run : task_run :=
  @process_task plain_format first_seen eager_engine ∅ "task-1"
    (Ok [sample_source]) sample_config.

Definition second_run : task_run :=
  @process_task plain_format first_seen eager_engine (fs_after first_run)
    "task-2" (Ok [sample_source]) sample_config.

Definition sample_cache_file : fpath :=
  CacheFile "VIS" "BGSUB"
    (@generate_source_cache_key plain_format (s_ra sample_source)
       (s_dec sample_source) 128 "VIS" "BGSUB" (Some "VIS") ++ ".fits").

End Cache.

(** ** The task registry ([task_processor.py], [task_executor.py],
     [models/task.py]) *)

Module Tasks.

(** [models/task.py]: the status enumeration and its string values *)
Inductive TaskStatus : Type :=
| QUEUED | PROCESSING | COMPLETED | FAILED | CANCELLED.

Definition value (s : TaskStatus) : string :=
  match s with
  | QUEUED => "queued"
  | PROCESSING => "processing"
  | COMPLETED => "completed"
  | FAILED => "failed"
  | CANCELLED => "cancelled"
  end.

Definition all_statuses : list TaskStatus :=
  [QUEUED; PROCESSING; COMPLETED; FAILED; CANCELLED].

(** [TaskStatus(s)]: the member whose value is [s], or [ValueError] *)
Definition TaskStatus_of (s : string) : result TaskStatus :=
  match List.find (fun m => String.eqb (value m) s) all_statuses with
  | Some m => Ok m
  | None => Raise (ValueError ("'" ++ s ++ "' is not a valid TaskStatus"))
  end.

(** An entry of the registry dictionary *)
Record task : Type := {
  status : string;
  progress : Z;
  message : string;
  start_time : option nat;
  end_time : option nat;
  zip_path : option string
}.

Definition set_status (s : string) (t : task) : task :=
  {| status := s; progress := progress t; message := message t;
     start_time := start_time t; end_time := end_time t;
     zip_path := zip_path t |}.

Definition set_progress (p : Z) (t : task) : task :=
  {| status := status t; progress := p; message := message t;
     start_time := start_time t; end_time := end_time t;
     zip_path := zip_path t |}.

Definition set_message (m : string) (t : task) : task :=
  {| status := status t; progress := progress t; message := m;
     start_time := start_time t; end_time := end_time t;
     zip_path := zip_path t |}.

Definition set_start_time (now : nat) (t : task) : task :=
  {| status := status t; progress := progress t; message := message t;
     start_time := Some now; end_time := end_time t;
     zip_path := zip_path t |}.

Definition set_end_time (now : nat) (t : task) : task :=
  {| status := status t; progress := progress t; message := message t;
     start_time := start_time t; end_time := Some now;
     zip_path := zip_path t |}.

Definition set_zip_path (z : string) (t : task) : task :=
  {| status := status t; progress := progress t; message := message t;
     start_time := start_time t; end_time := end_time t;
     zip_path := Some z |}.

(** [TaskProcessor.create_task], with the fresh [uuid4] as an argument:
    the registry entry it writes before it starts the executor thread *)
Definition create_task (task_id : string) (tasks : gmap string task)
  : gmap string task :=
  <[task_id := {| status := "pending"; progress := 0;
                  message := "任务已创建，等待处理";
                  start_time := None; end_time := None;
                  zip_path := None |}]> tasks.

(** [TaskProcessor.cancel_task] *)
Definition cancel_task (task_id : string) (tasks : gmap string task)
  : gmap string task * bool :=
  match tasks !! task_id with
  | None => (tasks, false)
  | Some t =>
      if bool_decide (status t ∈ ["completed"; "failed"])
      then (tasks, false)
      else (<[task_id := set_message "任务已取消" (set_status "cancelled" t)]>
              tasks, true)
  end.

(** [TaskExecutor._update_status] *)
Definition _update_status (now : nat) (task_id status : string)
    (progress : option Z) (message : option string)
    (tasks : gmap string task) : gmap string task :=
  alter
    (fun t =>
       let t := set_status status t in
       let t := match progress with
                | Some p => set_progress p t
                | None => t
                end in
       let t := match message with
                | Some m => if String.eqb m EmptyString then t else set_message m t
                | None => t
                end in
       let t := if String.eqb status "processing"
                   && bool_decide (start_time t = None)
                then set_start_time now t else t in
       if bool_decide (status ∈ ["completed"; "failed"])
       then set_end_time now t else t)
    task_id tasks.

(** [TaskExecutor._check_cached_result], when the archive is there *)
Definition use_cached_result (now : nat) (task_id zip : string)
    (tasks : gmap string task) : gmap string task :=
  alter
    (fun t =>
       set_progress 100
         (set_message "使用缓存的处理结果"
            (set_zip_path zip (set_end_time now (set_status "completed" t)))))
    task_id tasks.

(** The registry writes of one [TaskExecutor.execute], in order *)
Inductive exec_step : Type :=
| Begin                         (* [_update_status('processing', progress=0)] *)
| CachedResult (zip : string)   (* [_check_cached_result] finds the archive *)
| Truncated (msg : string)      (* catalog over the row cap *)
| Finish                        (* [_update_status('completed', progress=100)] *)
| Abort (msg : string).         (* the [except] branch *)

Definition exec (now : nat) (task_id : string) (s : exec_step)
    (tasks : gmap string task) : gmap string task :=
  match s with
  | Begin => _update_status now task_id "processing" (Some 0%Z) None tasks
  | CachedResult zip => use_cached_result now task_id zip tasks
  | Truncated msg =>
      _update_status now task_id "processing" None (Some msg) tasks
  | Finish => _update_status now task_id "completed" (Some 100%Z) None tasks
  | Abort msg =>
      _update_status now task_id "failed" None
        (Some ("处理失败: " ++ msg)) tasks
  end.

(** What a client and the executor thread of a task do to the registry *)
Inductive event : Type :=
| Create (task_id : string)
| Cancel (task_id : string)
| Exec (task_id : string) (s : exec_step).

Definition apply_event (now : nat) (e : event) (tasks : gmap string task)
  : gmap string task :=
  match e with
  | Create task_id => create_task task_id tasks
  | Cancel task_id => fst (cancel_task task_id tasks)
  | Exec task_id s => exec now task_id s tasks
  end.

Definition run (events : list event) (tasks : gmap string task)
  : gmap string task :=
  fold_left (fun t e => apply_event 0 e t) events tasks.

Definition status_of (task_id : string) (tasks : gmap string task)
  : option string :=
  status <$> tasks !! task_id.

(** A cancelled task that its executor thread then picks up *)
Definition cancelled_then_run : list event :=
  [Create "t1"; Cancel "t1"; Exec "t1" Begin; Exec "t1" Finish].

End Tasks.

(** ** Building the tile index ([euclid_cutout_remix.py], lines 58-108) *)

Module TileBuild.
Import FileNames TileIndex.

(** A catalog table, as far as the index builder reads it: its named
    columns of floats, in column order. *)
Definition cat_table := list (string * list Q).

Definition colnames (t : cat_table) : list string := map fst t.

(** [t[name]] for a column that is there *)
Definition column (t : cat_table) (name : string) : list Q :=
  match List.find (fun c => String.eqb (fst c) name) t with
  | Some c => snd c
  | None => []
  end.

(** [len(t)]: the number of rows *)
Definition table_len (t : cat_table) : nat :=
  match t with
  | [] => 0
  | (_, c) :: _ => length c
  end.

(** [fits.open(catalog_file)] and [Table(hdul[1].data)] *)
Class CatalogReader : Type := { read_catalog : path -> result cat_table }.

(** [np.min], [np.max]: an element of the array; [ValueError] on an empty
    one.  [np.mean]: the sum over the count (evaluated only after
    [np.min] has accepted the column, so never on an empty one). *)
Definition qmin (x y : Q) : Q := if Qle_bool x y then x else y.
Definition qmax (x y : Q) : Q := if Qle_bool x y then y else x.

Definition np_min (l : list Q) : result Q :=
  match l with
  | [] => Raise (ValueError "zero-size array to reduction operation minimum which has no identity")
  | x :: l' => Ok (fold_left qmin l' x)
  end.

Definition np_max (l : list Q) : result Q :=
  match l with
  | [] => Raise (ValueError "zero-size array to reduction operation maximum which has no identity")
  | x :: l' => Ok (fold_left qmax l' x)
  end.

Definition np_mean (l : list Q) : Q :=
  (fold_left Qplus l 0 / inject_Z (Z.of_nat (length l)))%Q.

(** The [if/elif/else] on the column names: the two position columns *)
Definition position_columns (t : cat_table) : option (list Q * list Q) :=
  if bool_decide ("RIGHT_ASCENSION" ∈ colnames t)
     && bool_decide ("DECLINATION" ∈ colnames t)
  then Some (column t "RIGHT_ASCENSION", column t "DECLINATION")
  else if bool_decide ("RA" ∈ colnames t) && bool_decide ("DEC" ∈ colnames t)
  then Some (column t "RA", column t "DEC")
  else None.

(** The dictionary appended for a tile; [None] is the [continue] of the
    [else] branch. *)
Definition tile_record (tile_id : string) (t : cat_table)
  : result (option TileRecord) :=
  match position_columns t with
  | None => Ok None
  | Some (ras, decs) =>
      ra_min ← np_min ras;
      ra_max ← np_max ras;
      dec_min ← np_min decs;
      dec_max ← np_max decs;
      Ok (Some {| TILE_ID := tile_id;
                  RA_MIN := ra_min; RA_MAX := ra_max;
                  DEC_MIN := dec_min; DEC_MAX := dec_max;
                  RA_CENTER := np_mean ras; DEC_CENTER := np_mean decs;
                  N_OBJECTS := Z.of_nat (table_len t) |})
  end.

(** The catalog of a tile directory: the first listed file whose name
    holds the pattern and ends in [.fits]; [None] when there is none. *)
Definition tile_catalog `{CatalogReader} (fs : node) (tile_catalog_root : path)
    (catalog_pattern tile_id : string) : result (option cat_table) :=
  let tile_path := (tile_catalog_root ++ [tile_id])%list in
  names ← os_listdir fs tile_path;
  let catalog_files :=
    List.filter (fun f => str_contains catalog_pattern f
                          && str_endswith ".fits" f) names in
  match catalog_files with
  | [] => Ok None
  | f :: _ => t ← read_catalog (tile_path ++ [f])%list; Ok (Some t)
  end.

(** Body of [for tile_id in tile_dirs], inside its [try/except] *)
Definition scan_tile `{CatalogReader} (fs : node) (tile_catalog_root : path)
    (catalog_pattern tile_id : string) : option TileRecord :=
  try_except
    (cat ← tile_catalog fs tile_catalog_root catalog_pattern tile_id;
     match cat with
     | None => Ok None
     | Some t => tile_record tile_id t
     end)
    (fun _ => None).

(** The rows of the index [generate_tile_index] returns (it also writes
    them to its output file). *)
Definition generate_tile_index `{CatalogReader} (fs : node)
    (tile_catalog_root : path) (catalog_pattern : string)
  : result (list TileRecord) :=
  entries ← os_listdir fs tile_catalog_root;
  let tile_dirs :=
    List.filter (fun d => os_path_isdir fs (tile_catalog_root ++ [d])%list)
      entries in
  Ok (omap (scan_tile fs tile_catalog_root catalog_pattern) tile_dirs).

Definition default_catalog_pattern : string := "EUC_MER_FINAL-CAT_TILE".

(** A position listed in the catalog of a tile directory *)
Definition catalogued `{CatalogReader} (fs : node) (tile_catalog_root : path)
    (catalog_pattern tile_id : string) (ra dec : Q) : Prop :=
  exists t ras decs i,
    tile_catalog fs tile_catalog_root catalog_pattern tile_id = Ok (Some t) /\
    position_columns t = Some (ras, decs) /\
    ras !! i = Some ra /\ decs !! i = Some dec.

(** Sample data: a catalog root with a tile whose catalog lists two
    sources, a tile directory without a catalog and a plain file. *)
Definition sample_catalog_root : node :=
  Dir [("CAT",
        Dir [("102019587",
              Dir [("notes.txt", File);
                   ("EUC_MER_FINAL-CAT_TILE102019587-CB5786_20241018T164415.012922Z_00.00.fits", File)]);
             ("102019588", Dir []);
             ("README", File)])].

Definition sample_catalog : cat_table :=
  [("OBJECT_ID", [1; 2]%Q);
   ("RIGHT_ASCENSION", [10; 12]%Q);
   ("DECLINATION", [0; 2]%Q)].

Definition sample_reader : CatalogReader :=
  {| read_catalog := fun p =>
       if bool_decide
            (p = ["CAT"; "102019587";
                  "EUC_MER_FINAL-CAT_TILE102019587-CB5786_20241018T164415.012922Z_00.00.fits"])
       then Ok sample_catalog
       else Raise FileNotFoundError |}.

End TileBuild.

(** ** One source of a catalog ([euclid_cutout_remix.py], lines 482-544,
     672-755, 1045-1068, 1103-1118) *)

Module Worker.
Import FileNames TileIndex Extract Batch Cache.

(** A catalog row, read through the column names of the call: the
    position, the per-row size when there is a size column, the object id
    when there is an id column and the value is not masked, and the
    [TILE_ID] cell. *)
Record catalog_row : Type := {
  row_ra : Q;
  row_dec : Q;
  row_size : option size;
  row_obj_id : option string;
  row_tile_id : string
}.

(** The part of the argument tuple that is the same for every row *)
Record worker_args : Type := {
  a_file_types : list string;
  a_output_dir : path;
  a_mer_root : path;
  a_instruments : option (list string);
  a_bands : option (list string);
  a_skip_nan : bool;
  a_default_size : size;
  a_verbose : bool
}.

(** Assembling the HDU list of a successful result and writing it:
    whether that completes without an exception *)
Class Disk : Type := { hdul_writeto : path -> tile_result -> bool }.

(** [save_cutouts]: nothing is written for an unsuccessful result. *)
Definition save_cutouts `{Disk} (output_path : path)
    (cutouts_result : tile_result) : bool :=
  if negb (t_success cutouts_result) then false
  else hdul_writeto output_path cutouts_result.

(** [d[k] = v] on a dictionary kept as its list of items, in insertion
    order *)
Fixpoint dict_set (k v : string) (d : list (string * string))
  : list (string * string) :=
  match d with
  | [] => [(k, v)]
  | (k', v') :: d' =>
      if String.eqb k' k then (k', v) :: d'
      else (k', v') :: dict_set k v d'
  end.

(** [f"ra_{ra:.6f}_dec_{dec:.6f}"] *)
Definition position_id `{PyFormat} (ra dec : Q) : string :=
  "ra_" ++ float_fixed 6 ra ++ "_dec_" ++ float_fixed 6 dec.

Definition obj_id_of `{PyFormat} (row : catalog_row) : string :=
  match row_obj_id row with
  | Some raw_obj_id => raw_obj_id
  | None => position_id (row_ra row) (row_dec row)
  end.

(** Body of [for file_type in file_types]: the status recorded for one
    product type.  [cutout_tile] and [save_cutouts] catch their own
    exceptions, so the [except] branch of the body is not taken. *)
Definition source_status `{SkyGeometry} `{Archive} `{Disk} `{PyFormat}
    (fs : node) (args : worker_args) (row : catalog_row)
    (file_type : string) : string :=
  let size := default (a_default_size args) (row_size row) in
  let cutout_result :=
    cutout_tile fs (row_tile_id row) (row_ra row) (row_dec row) size
      file_type (a_mer_root args) (a_instruments args) (a_bands args)
      (a_skip_nan args) in
  if t_success cutout_result then
    let output_path :=
      (a_output_dir args ++ [file_type; (obj_id_of row ++ ".fits")%string])%list in
    if save_cutouts output_path cutout_result then "success"
    else "save_failed"
  else "cutout_failed: " ++ default "None" (t_error cutout_result).

(** [_process_single_source_parallel]: the object id and the result
    dictionary *)
Definition _process_single_source_parallel `{SkyGeometry} `{Archive} `{Disk}
    `{PyFormat} (fs : node) (args : worker_args) (row : catalog_row)
  : string * list (string * string) :=
  let obj_id := obj_id_of row in
  if String.eqb (row_tile_id row) EmptyString
  then (obj_id,
        fold_left (fun results ft => dict_set ft "no_tile" results)
          (a_file_types args) [])
  else (obj_id,
        fold_left
          (fun results file_type =>
             dict_set file_type (source_status fs args row file_type) results)
          (a_file_types args) []).

(** Lines 1045-1054 of [process_catalog]: a catalog without a [TILE_ID]
    column gets one, holding the looked-up id or the empty string. *)
Definition fill_tile_ids `{SkyGeometry} (Table_read : table_reader)
    (tile_index_file : string) (has_tile_id : bool)
    (rows : list catalog_row) : list catalog_row :=
  if has_tile_id then rows
  else
    map (fun row =>
           let tile_id :=
             query_tile_id Table_read (row_ra row) (row_dec row)
               tile_index_file default_tolerance in
           {| row_ra := row_ra row; row_dec := row_dec row;
              row_size := row_size row; row_obj_id := row_obj_id row;
              row_tile_id := default EmptyString tile_id |})
        rows.

(** The sequential branch of [process_catalog], end to end, for a
    catalog that has the position columns of the call *)
Definition process_catalog_rows `{SkyGeometry} `{Archive} `{Disk} `{PyFormat}
    (Table_read : table_reader) (tile_index_file : string) (fs : node)
    (args : worker_args) (has_tile_id : bool) (rows : list catalog_row)
  : gmap string file_stats :=
  process_catalog (a_verbose args) (a_file_types args)
    (map (fun row =>
            let '(obj_id, results) :=
              _process_single_source_parallel fs args row in
            Returned obj_id results)
         (fill_tile_ids Table_read tile_index_file has_tile_id rows)).

(** A source is delivered for a product type: it has a tile, the tile
    extraction succeeds and the file is written. *)
Definition delivered `{SkyGeometry} `{Archive} `{Disk} `{PyFormat}
    (fs : node) (args : worker_args) (file_type : string)
    (row : catalog_row) : bool :=
  let size := default (a_default_size args) (row_size row) in
  let cutout_result :=
    cutout_tile fs (row_tile_id row) (row_ra row) (row_dec row) size
      file_type (a_mer_root args) (a_instruments args) (a_bands args)
      (a_skip_nan args) in
  negb (String.eqb (row_tile_id row) EmptyString)
  && t_success cutout_result
  && hdul_writeto
       (a_output_dir args ++ [file_type; (obj_id_of row ++ ".fits")%string])%list
       cutout_result.

(** Sample data: a disk that accepts every file; two rows, the second at
    a position no tile holds. *)
Definition willing_disk : Disk := {| hdul_writeto := fun _ _ => true |}.

Definition sample_args : worker_args :=
  {| a_file_types := ["BGSUB"; "CATALOG-PSF"];
     a_output_dir := ["out"]; a_mer_root := ["MER"];
     a_instruments := None; a_bands := None;
     a_skip_nan := false; a_default_size := Square 4;
     a_verbose := true |}.

Definition sample_rows : list catalog_row :=
  [{| row_ra := 11; row_dec := 1; row_size := None;
      row_obj_id := Some "2687494719"; row_tile_id := EmptyString |};
   {| row_ra := 200; row_dec := 1; row_size := None;
      row_obj_id := None; row_tile_id := EmptyString |}].

End Worker.

(** ** One run of the task executor ([task_executor.py], lines 77-304) and
     the download route ([task_routes.py], lines 97-119) *)

Module Executor.
Import Tasks.

(** A catalog table: its column names and its rows *)
Record table (X : Type) : Type := { colnames : list string; rows : list X }.
Arguments colnames {X} t.
Arguments rows {X} t.

(** [repr] of a list of plain strings *)
Definition list_repr (l : list string) : string :=
  "[" ++ str_join ", " (map (fun s => "'" ++ s ++ "'") l) ++ "]".

(** [TaskExecutor._detect_column] *)
Definition _detect_column (available_cols : list string) (preferred : string)
    (aliases : list string) : result string :=
  if bool_decide (preferred ∈ available_cols) then Ok preferred
  else
    match List.find (fun alias => bool_decide (alias ∈ available_cols))
            aliases with
    | Some alias => Ok alias
    | None => Raise (ValueError ("未找到合适的列，可用列: "
                                 ++ list_repr (take 10 available_cols)))
    end.

Definition ra_aliases : list string :=
  ["TARGET_RA"; "RA_1"; "RA_2"; "ra"; "Ra"; "RightAscension";
   "RIGHT_ASCENSION"].

Definition dec_aliases : list string :=
  ["TARGET_DEC"; "DEC_1"; "DEC_2"; "dec"; "Dec"; "Declination";
   "DECLINATION"].

(** What a run finds outside the registry: whether the result archive of
    the task is already there (and not empty), whether the directories
    can be made, what reading the catalog gives, the configured column
    names and row cap, what the extraction engine does with the loaded
    catalog, and whether the archive can be written. *)
Record executor_env (X : Type) : Type := {
  permanent_zip_path : string;
  zip_exists : bool;
  create_directories : result unit;
  Table_read : result (table X);
  cfg_ra_col : string;
  cfg_dec_col : string;
  max_catalog_rows : nat;
  process_new_sources : table X -> string -> string -> result unit;
  write_zip : result unit
}.
Arguments permanent_zip_path {X} e.
Arguments zip_exists {X} e.
Arguments create_directories {X} e.
Arguments Table_read {X} e.
Arguments cfg_ra_col {X} e.
Arguments cfg_dec_col {X} e.
Arguments max_catalog_rows {X} e.
Arguments process_new_sources {X} e.
Arguments write_zip {X} e.

(** What [_load_and_validate_catalog] hands on: the catalog, cut to the
    row cap, and the two position columns it settled on *)
Record loaded (X : Type) : Type := {
  l_catalog : table X;
  l_ra_col : string;
  l_dec_col : string
}.
Arguments l_catalog {X} l.
Arguments l_ra_col {X} l.
Arguments l_dec_col {X} l.

Definition truncation_notice (max_rows : nat) : string :=
  "星表超过" ++ pretty max_rows ++ "行，仅处理前" ++ pretty max_rows ++ "行".

(** [_load_and_validate_catalog]: the registry is written when the
    catalog is cut, before the columns are looked for. *)
Definition _load_and_validate_catalog {X} (now : nat) (env : executor_env X)
    (task_id : string) (tasks : gmap string task)
  : gmap string task * result (loaded X) :=
  match Table_read env with
  | Raise e => (tasks, Raise e)
  | Ok catalog =>
      let '(catalog, tasks) :=
        if (max_catalog_rows env <? length (rows catalog))%nat
        then ({| colnames := colnames catalog;
                 rows := take (max_catalog_rows env) (rows catalog) |},
              exec now task_id
                (Truncated (truncation_notice (max_catalog_rows env))) tasks)
        else (catalog, tasks) in
      (tasks,
       ra_col ← _detect_column (colnames catalog) (cfg_ra_col env) ra_aliases;
       dec_col ← _detect_column (colnames catalog) (cfg_dec_col env)
                   dec_aliases;
       Ok {| l_catalog := catalog; l_ra_col := ra_col; l_dec_col := dec_col |})
  end.






(** The column [c] is the one to use: it exists, and it is the preferred
    one or, when that is missing, the first alias that exists. *)
Definition settled (available_cols : list string) (preferred : string)
    (aliases : list string) (c : string) : Prop :=
  c ∈ available_cols /\
  (c = preferred \/
   (preferred ∉ available_cols) /\
   exists i, aliases !! i = Some c /\
             forall j a, (j < i)%nat -> aliases !! j = Some a ->
                         a ∉ available_cols).

(** The statuses the registry of the task processor can hold *)
Definition registry_statuses : list string :=
  ["pending"; "processing"; "completed"; "failed"; "cancelled"].

(** What holds of every entry of a registry that was built by creating,
    cancelling and executing tasks *)
Definition well_formed (t : task) : Prop :=
  status t ∈ registry_statuses /\
  (status t = "processing" -> is_Some (start_time t)) /\
  (status t ∈ ["completed"; "failed"] -> is_Some (end_time t)) /\
  (status t = "completed" -> progress t = 100%Z).

(** Sample data: a catalog of three rows under a cap of two *)
Definition sample_env : executor_env nat :=
  {| permanent_zip_path := "/permanent/t1/t1.zip";
     zip_exists := false;
     create_directories := Ok ();
     Table_read := Ok {| colnames := ["TARGETID"; "ra"; "DEC"];
                         rows := [1; 2; 3]%nat |};
     cfg_ra_col := "RA"; cfg_dec_col := "DEC";
     max_catalog_rows := 2;
     process_new_sources := fun _ _ _ => Ok ();
     write_zip := Ok () |}.

End Executor.

(** ** The configuration of a submitted task ([Euclid_flash_app.py],
     lines 1695-1748) *)

Module Submit.
Import Cache.

Definition supported_file_types : list string :=
  ["BGSUB"; "CATALOG-PSF"; "FLAG"; "BGMOD"; "RMS"; "GRID-PSF"].

Definition supported_instruments : list string :=
  ["VIS"; "NISP"; "DECAM"; "HSC"; "GPC"; "MEGACAM"].

(** The fields of the request form the configuration is built from:
    the lists [file_types[]] and [instruments[]], the list [bands[]]
    when the field is present, and the two numbers as [int(...)] reads
    them (a [ValueError] on text that is not a number). *)
Record form : Type := {
  f_file_types : list string;
  f_instruments : list string;
  f_bands : option (list string);
  f_size : result Z;
  f_n_workers : result Z
}.

Record submitted : Type := {
  s_config : task_config;
  s_n_workers : Z
}.

Definition submitted_config (f : form) : result submitted :=
  let file_types :=
    List.filter (fun ft => bool_decide (ft ∈ supported_file_types))
      (f_file_types f) in
  let file_types :=
    match file_types with
    | [] => ["BGSUB"; "CATALOG-PSF"]
    | _ => file_types
    end in
  let instruments :=
    List.filter (fun inst => bool_decide (inst ∈ supported_instruments))
      (f_instruments f) in
  let instruments :=
    match instruments with
    | first_instrument :: _ :: _ => [first_instrument]
    | _ => instruments
    end in
  let instruments :=
    match instruments with
    | [] => ["VIS"]
    | _ => instruments
    end in
  let bands :=
    match f_bands f with
    | Some (band :: _) =>
        let valid_bands :=
          List.filter
            (fun instrument =>
               match band_map !! instrument with
               | Some bs => bool_decide (band ∈ bs)
               | None => false
               end)
            instruments in
        match valid_bands with
        | _ :: _ => Some band
        | [] => None
        end
    | _ => None
    end in
  size ← f_size f;
  n_workers ← f_n_workers f;
  Ok {| s_config := {| cfg_file_types := file_types;
                       cfg_instruments := instruments;
                       cfg_band := bands;
                       cfg_size := size |};
        s_n_workers := Z.min n_workers 16 |}.

Definition sample_form : form :=
  {| f_file_types := ["BGSUB"; "SCI"];
     f_instruments := ["NIR"; "NISP"; "VIS"];
     f_bands := Some ["NIR-Y"; "NIR-J"];
     f_size := Ok 128%Z; f_n_workers := Ok 64%Z |}.

End Submit.

(** ** Loading a catalog ([catalog_processor.py], lines 19-83) *)

Module CatalogLoad.
Import Executor.

(** [l.index(x)]: the first position of [x] *)
Fixpoint list_index (x : string) (l : list string) : option nat :=
  match l with
  | [] => None
  | y :: l' => if String.eqb y x then Some 0%nat else S <$> list_index x l'
  end.

(** The detection loop: the first candidate that is the upper-cased name
    of a column selects the first column with that name. *)
Definition detect (colnames candidates : list string) : option string :=
  let columns := map str_upper colnames in
  match List.find (fun candidate => bool_decide (candidate ∈ columns))
          candidates with
  | Some candidate =>
      match list_index candidate columns with
      | Some i => colnames !! i
      | None => None
      end
  | None => None
  end.

Definition ra_candidates : list string :=
  ["RA"; "RA_DEG"; "ALPHA_J2000"; "ALPHAWIN_J2000"].

Definition dec_candidates : list string :=
  ["DEC"; "DEC_DEG"; "DELTA_J2000"; "DELTAWIN_J2000"].

Definition id_candidates : list string :=
  ["TARGETID"; "TARGET_ID"; "ID"; "SOURCE_ID"; "NUMBER"].

(** [load_catalog].  [read] stands for the existence test, the choice of
    the reader by file suffix and the read itself, each of which may
    raise. *)
Definition load_catalog {X} (read : result (table X))
    (ra_col dec_col id_col : option string)
  : result (table X * string * string * option string) :=
  catalog ← read;
  ra_col ← match ra_col with
           | Some c => Ok c
           | None =>
               match detect (colnames catalog) ra_candidates with
               | Some c => Ok c
               | None => Raise (ValueError "无法自动检测RA列，请手动指定")
               end
           end;
  dec_col ← match dec_col with
            | Some c => Ok c
            | None =>
                match detect (colnames catalog) dec_candidates with
                | Some c => Ok c
                | None => Raise (ValueError "无法自动检测DEC列，请手动指定")
                end
            end;
  let id_col := match id_col with
                | Some c => Some c
                | None => detect (colnames catalog) id_candidates
                end in
  Ok (catalog, ra_col, dec_col, id_col).

(** The column [c] was detected: it exists, its upper-cased name is a
    candidate, no candidate of higher priority names a column, and no
    earlier column has the same upper-cased name. *)
Definition detected (colnames candidates : list string) (c : string) : Prop :=
  exists i k,
    colnames !! i = Some c /\ candidates !! k = Some (str_upper c) /\
    (forall j col, (j < i)%nat -> colnames !! j = Some col ->
                   str_upper col <> str_upper c) /\
    (forall j candidate col, (j < k)%nat ->
       candidates !! j = Some candidate -> col ∈ colnames ->
       str_upper col <> candidate).

End CatalogLoad.

(** ** The configuration store ([config.py], lines 149-187) *)

Module Settings.

(** A configuration value: a nested dictionary (kept as its list of
    items) or any other value, which the store does not look into *)
Inductive cfg_value : Type :=
| Leaf (v : string)
| Dict (items : list (string * cfg_value)).

(** [k in d] and [d[k]] *)
Fixpoint dict_get (k : string) (items : list (string * cfg_value))
  : option cfg_value :=
  match items with
  | [] => None
  | (k', v) :: rest => if String.eqb k' k then Some v else dict_get k rest
  end.

(** [d[k] = v] *)
Fixpoint dict_put (k : string) (v : cfg_value)
    (items : list (string * cfg_value)) : list (string * cfg_value) :=
  match items with
  | [] => [(k, v)]
  | (k', v') :: rest =>
      if String.eqb k' k then (k', v) :: rest
      else (k', v') :: dict_put k v rest
  end.

(** The loop of [get] over the parts of the key *)
Fixpoint get_path (keys : list string) (value : cfg_value)
  : option cfg_value :=
  match keys with
  | [] => Some value
  | k :: keys' =>
      match value with
      | Dict items =>
          match dict_get k items with
          | Some v => get_path keys' v
          | None => None
          end
      | Leaf _ => None
      end
  end.

(** [Config.get]: the value at the dotted key, or the default *)
Definition get (config : cfg_value) (key : string)
    (default : option cfg_value) : option cfg_value :=
  match get_path (str_split "." key) config with
  | Some v => Some v
  | None => default
  end.

(** The loop of [set] and its final assignment.  A missing part of the
    path is created as an empty dictionary; stepping into, or assigning
    into, a value that is not a dictionary raises a [TypeError], which
    is [None] here (nothing has been written by then). *)
Fixpoint set_path (keys : list string) (value : cfg_value)
    (config : cfg_value) : option cfg_value :=
  match config with
  | Leaf _ => None
  | Dict items =>
      match keys with
      | [] => None
      | [k] => Some (Dict (dict_put k value items))
      | k :: keys' =>
          match set_path keys' value
                  (default (Dict []) (dict_get k items)) with
          | Some sub => Some (Dict (dict_put k sub items))
          | None => None
          end
      end
  end.

(** [Config.set] *)
Definition set (config : cfg_value) (key : string) (value : cfg_value)
  : option cfg_value :=
  set_path (str_split "." key) value config.

(** Two paths part ways: they agree up to a position at which both go
    on, with different parts. *)
Definition part_ways (keys keys' : list string) : Prop :=
  exists common k k' rest rest',
    keys = (common ++ k :: rest)%list /\
    keys' = (common ++ k' :: rest')%list /\ k <> k'.

Definition sample_settings : cfg_value :=
  Dict [("data", Dict [("root", Leaf "/data/euclid")]);
        ("limits", Dict [("max_catalog_rows", Leaf "10000")])].

End Settings.

(** ** Auxiliary predicates of the properties of Part II *)

Module Shapes.
Import FileNames Cache.

(** What an entry of the mapping under construction looks like *)
Definition entry_of (fs : node) (mer_dir : path) (file_type : string)
    (instruments bands : option (list string)) (key : string) (p : path)
  : Prop :=
  exists d names f i b,
    p = (mer_dir ++ [d; f])%list /\
    selected_dir fs mer_dir instruments d = true /\
    os_listdir fs (mer_dir ++ [d])%list = Ok names /\ f ∈ names /\
    is_candidate file_type f = true /\
    _parse_filename f file_type = Some (i, b) /\
    passes bands (full_band i b) = true /\
    key = d ++ "_" ++ full_band i b.




(** The angular separation between a position and a row of the stamp
    position table *)
Definition psf_separation `{SkyGeometry} (ra dec : Q)
    (row : Extract.psf_row) : Q :=
  separation {| sc_ra := ra; sc_dec := dec |}
             {| sc_ra := Extract.RA row; sc_dec := Extract.Dec row |}.

(** Where the placement of a stamp starts on one axis, before the end
    of the array is looked at (lines 362-364): the lower bound derived
    from the recorded centre, floored at 0. *)
Definition stamp_first (center : Q) (stmpsize : Z) : Z :=
  Z.max 0 (int_of_float (center - inject_Z (stmpsize `div` 2)) - 1).

(** Clamping the bounds [stamp_first, stamp_first + stmpsize) to an axis
    of length [axis_len], as the specification words the check: the
    width that is left of the slice inside the array, and whether that
    is less than the declared width. *)
Definition clamped_width (center : Q) (stmpsize : Z) (axis_len : nat) : Z :=
  (Z.min (stamp_first center stmpsize + stmpsize) (Z.of_nat axis_len)
   - stamp_first center stmpsize)%Z.

Definition clamping_shrinks (center : Q) (stmpsize : Z) (axis_len : nat)
  : bool :=
  (clamped_width center stmpsize axis_len <? stmpsize)%Z.

(** Every entry of the statistics satisfies [P] *)
Definition entries_satisfy (P : Batch.file_stats -> Prop)
    (stats : gmap string Batch.file_stats) : Prop :=
  forall ft st, stats !! ft = Some st -> P st.

(** The counters of [st'] are not below those of [st], and the failure
    samples of [st] are the first samples of [st']. *)
Definition grows (st st' : Batch.file_stats) : Prop :=
  (Batch.n_success st <= Batch.n_success st')%nat /\
  (Batch.n_failed st <= Batch.n_failed st')%nat /\
  Batch.errors st `prefix_of` Batch.errors st'.

Definition stats_grow (stats stats' : gmap string Batch.file_stats) : Prop :=
  forall ft st, stats !! ft = Some st ->
                exists st', stats' !! ft = Some st' /\ grows st st'.

(** How one recorded status moves the two counters of an entry *)
Definition counted (status : string) (st st' : Batch.file_stats) : Prop :=
  if String.eqb status "success"
  then Batch.n_success st' = S (Batch.n_success st)
       /\ Batch.n_failed st' = Batch.n_failed st
  else Batch.n_success st' = Batch.n_success st
       /\ Batch.n_failed st' = S (Batch.n_failed st).

(** The band part of a unified file name: [band.upper() if band else
    'VIS'] *)
Definition clean_band (band : option string) : string :=
  match band with
  | Some b => if String.eqb b EmptyString then "VIS" else str_upper b
  | None => "VIS"
  end.


(** The bands a request can carry: none, or a band of an instrument *)
Definition requestable_band (band : option string) : Prop :=
  match band with
  | None => True
  | Some b => exists instrument, b ∈ default [] (band_map !! instrument)
  end.

(** A source lacks a per-run cache file for some requested instrument
    and product type *)
Definition uncached `{PyFormat} (fs : gmap fpath fits_file)
    (cfg : task_config) (s : source) : bool :=
  existsb
    (fun instrument =>
       existsb
         (fun file_type =>
            negb (bool_decide
                    (is_Some
                       (fs !! CacheFile instrument file_type
                                (generate_source_cache_key
                                   (s_ra s) (s_dec s)
                                   (cfg_size cfg) instrument file_type
                                   (cfg_band cfg) ++ ".fits")))))
         (cfg_file_types cfg))
    (cfg_instruments cfg).

(** A row the run has to extract: its target id is not masked, and it
    lacks a per-run cache file *)
Definition to_extract `{PyFormat} (fs : gmap fpath fits_file)
    (cfg : task_config) (s : source) : bool :=
  negb (s_masked s) && uncached fs cfg s.

End Shapes.

(* ====================================================================== *)
(** * Part II.  Properties                                                *)
(* ====================================================================== *)

(** ** Strings *)

Section StringFacts.

Lemma append_nil (t : string) : EmptyString ++ t = t.
Proof. reflexivity. Qed.

Lemma append_cons (c : ascii) (s t : string) :
  String c s ++ t = String c (s ++ t).
Proof. reflexivity. Qed.

Lemma append_empty_r (s : string) : s ++ EmptyString = s.
Proof.
  induction s as [|c s IH]; [reflexivity|].
  now rewrite append_cons, IH.
Qed.

Lemma append_assoc (a b c : string) : (a ++ b) ++ c = a ++ (b ++ c).
Proof.
  induction a as [|x a IH]; [reflexivity|].
  now rewrite !append_cons, IH.
Qed.

Lemma append_snoc (cur : string) (c : ascii) (s : string) :
  (cur ++ String c EmptyString) ++ s = cur ++ String c s.
Proof. now rewrite append_assoc, append_cons, append_nil. Qed.

Lemma append_cancel_l (p a b : string) : p ++ a = p ++ b -> a = b.
Proof.
  induction p as [|c p IH]; intros E; [exact E|].
  rewrite !append_cons in E. injection E as E. now apply IH.
Qed.

Lemma length_append (a b : string) :
  String.length (a ++ b) = (String.length a + String.length b)%nat.
Proof.
  induction a as [|c a IH]; [reflexivity|].
  rewrite append_cons. cbn. now rewrite IH.
Qed.

Lemma append_cancel_r (a b s : string) : a ++ s = b ++ s -> a = b.
Proof.
  revert b. induction a as [|c a IH]; intros [|d b] E.
  - reflexivity.
  - apply (f_equal String.length) in E.
    rewrite append_nil, length_append in E. cbn in E. lia.
  - apply (f_equal String.length) in E.
    rewrite append_nil, length_append in E. cbn in E. lia.
  - rewrite !append_cons in E. injection E as -> E. f_equal. now apply IH.
Qed.








(** The string operations agree with Python on sample inputs. *)
Example str_split_samples :
  str_split "ab" "xxabababyab" = ["xx"; EmptyString; EmptyString; "y"; EmptyString]
  /\ str_split "aa" "aaa" = [EmptyString; "a"]
  /\ str_split "-" "NIR-Y" = ["NIR"; "Y"]
  /\ str_split "_TILE" "EUC_MER_BGMOD-VIS_TILE102019587-A1_X.fits"
     = ["EUC_MER_BGMOD-VIS"; "102019587-A1_X.fits"]
  /\ str_split1 "_" "NISP_NIR-Y_x" EmptyString = ["NISP"; "NIR-Y_x"]
  /\ str_join "-" ["DES"; "G"; "X"] = "DES-G-X"
  /\ str_replace "-" "_" "CATALOG-PSF" = "CATALOG_PSF"
  /\ str_upper "nir-y" = "NIR-Y"
  /\ str_endswith ".fits" "a.fits.gz" = false
  /\ str_contains "FINAL-CAT" "EUC_MER_FINAL-CAT_TILE1.fits" = true.
Proof. vm_compute. repeat split. Qed.

Example slice_index_samples :
  (slice_index 0 10, slice_index (-2) 10, slice_index 12 10,
   slice_index (-12) 10, slice_index 7 10) = (0, 8, 10, 0, 7)%nat
  /\ (int_of_float (7 # 2), int_of_float (-7 # 2), ((-3) `div` 2)%Z)
     = (3, -3, -2)%Z.
Proof. vm_compute. split; reflexivity. Qed.

End StringFacts.

(** ** Splitting strings *)

Section StringSplitOnce.

Lemma prefix_char (x c : ascii) (s : string) :
  String.prefix (String x EmptyString) (String c s) = true <-> c = x.
Proof.
  cbn [String.prefix].
  destruct (ascii_dec x c) as [<-|N]; split; intros; try easy.
  - now destruct s.
  - now subst.
Qed.

Lemma contains_char_snoc (x : ascii) (cur : string) (c : ascii) :
  str_contains (String x EmptyString) cur = false -> c <> x ->
  str_contains (String x EmptyString) (cur ++ String c EmptyString) = false.
Proof.
  intros Hcur Hc. induction cur as [|y cur IH].
  - rewrite append_nil. cbn [str_contains].
    apply orb_false_iff. split; [|reflexivity].
    destruct (String.prefix _ (String c EmptyString)) eqn:E; [|reflexivity].
    apply prefix_char in E. contradiction.
  - rewrite append_cons. cbn [str_contains] in *.
    apply orb_false_iff in Hcur as [Hx Hcur].
    apply orb_false_iff. split; [|now apply IH].
    destruct (String.prefix _ (String y (cur ++ String c EmptyString))) eqn:E;
      [|reflexivity].
    apply prefix_char in E. subst y.
    now rewrite (proj2 (prefix_char x x cur) eq_refl) in Hx.
Qed.

(** [s.split(c, 1)] on a string that holds the separator: two parts, the
    first without the separator, which put back together give [s]. *)
Lemma split1_some (x : ascii) (s cur : string) :
  str_contains (String x EmptyString) s = true ->
  str_contains (String x EmptyString) cur = false ->
  exists a b, str_split1 x s cur = [a; b] /\
              cur ++ s = a ++ String x b /\
              str_contains (String x EmptyString) a = false.
Proof.
  revert cur. induction s as [|c s IH]; intros cur H Hcur.
  - discriminate H.
  - cbn [str_split1]. destruct (Ascii.eqb_spec c x) as [->|N].
    + exists cur, s. now repeat split.
    + cbn [str_contains] in H.
      destruct (String.prefix _ (String c s)) eqn:E.
      * apply prefix_char in E. contradiction.
      * cbn in H. destruct (IH (cur ++ String c EmptyString) H)
          as (a & b & Hs & Hj & Ha).
        { now apply contains_char_snoc. }
        exists a, b. rewrite append_snoc in Hj. now repeat split.
Qed.

(** Without the separator there is one part. *)
Lemma split1_none (x : ascii) (s cur : string) :
  str_contains (String x EmptyString) s = false ->
  str_split1 x s cur = [cur ++ s].
Proof.
  revert cur. induction s as [|c s IH]; intros cur H; cbn [str_split1].
  - now rewrite append_empty_r.
  - cbn [str_contains] in H. apply orb_false_iff in H as [Hp Hs].
    destruct (Ascii.eqb_spec c x) as [->|N].
    + now rewrite (proj2 (prefix_char x x s) eq_refl) in Hp.
    + rewrite IH by exact Hs. now rewrite append_snoc.
Qed.

Lemma contains_app_r (sub a b : string) :
  str_contains sub b = true -> str_contains sub (a ++ b) = true.
Proof.
  intros H. induction a as [|c a IH]; [exact H|].
  rewrite append_cons. cbn [str_contains]. rewrite IH. apply orb_true_r.
Qed.

Lemma prefix_app (sub b : string) : String.prefix sub (sub ++ b) = true.
Proof.
  induction sub as [|c sub IH].
  - rewrite append_nil. now destruct b.
  - rewrite append_cons. cbn [String.prefix].
    destruct (ascii_dec c c); [exact IH|contradiction].
Qed.

Lemma contains_self_app (sub b : string) :
  str_contains sub (sub ++ b) = true.
Proof.
  destruct (sub ++ b) eqn:E; cbn [str_contains]; rewrite <- E, prefix_app;
    reflexivity.
Qed.

Lemma contains_infix (sub a b : string) :
  str_contains sub (a ++ sub ++ b) = true.
Proof. apply contains_app_r, contains_self_app. Qed.

End StringSplitOnce.

Section SplitFacts.
Import Shapes.



Lemma prefix_cons_nil (a : ascii) (p : string) :
  String.prefix (String a p) EmptyString = false.
Proof. reflexivity. Qed.








(** *** Reading on, cutting and skipping *)








End SplitFacts.

Section StripFacts.
Import FileNames Shapes.






End StripFacts.

(** ** File names *)

Section FileNameProperties.
Import FileNames Shapes.




(** The parser is total: it returns a pair for every file name. *)
Lemma parse_filename_total (filename file_type : string) :
  exists instrument band,
    _parse_filename filename file_type = Some (instrument, band).
Proof.
  unfold _parse_filename.
  destruct (length _ =? 1)%nat; eauto.
Qed.


End FileNameProperties.

Section FindFilesProperties.
Import FileNames.

Lemma add_file_skip (file_type : string) (bands : option (list string))
    (d : string) (inst_path : path) (acc : gmap string path) (f : string) :
  is_candidate file_type f = true ->
  selected_file file_type bands f = false ->
  add_file file_type bands d inst_path acc f = acc.
Proof.
  unfold selected_file, add_file. intros -> Hsel. simpl in Hsel.
  destruct (_parse_filename f file_type) as [[i b]|]; [|reflexivity].
  now rewrite Hsel.
Qed.

Lemma add_files_skip (file_type : string) (bands : option (list string))
    (d : string) (inst_path : path) (names : list string)
    (acc : gmap string path) :
  (forall f, f ∈ names -> selected_file file_type bands f = false) ->
  fold_left (add_file file_type bands d inst_path)
    (List.filter (is_candidate file_type) names) acc = acc.
Proof.
  intros Hnone. induction names as [|f names IH]; [reflexivity|].
  cbn [List.filter].
  destruct (is_candidate file_type f) eqn:Hc.
  - cbn [fold_left]. rewrite add_file_skip; [|exact Hc|].
    + apply IH. intros g Hg. apply Hnone. now right.
    + apply Hnone. now left.
  - apply IH. intros g Hg. apply Hnone. now right.
Qed.

(** What the three calls answer on a path that leads to a directory *)
Lemma listdir_resolve (fs : node) (p : path) (names : list string) :
  os_listdir fs p = Ok names <->
  exists cs, resolve fs p = Some (Dir cs) /\ names = map fst cs.
Proof.
  unfold os_listdir, os_stat. split.
  - destruct (resolve fs p) as [[|cs|e cs|e]|]; try discriminate.
    intros [= <-]. eauto.
  - intros (cs & -> & ->). reflexivity.
Qed.

Lemma isdir_resolve (fs : node) (p : path) :
  os_path_isdir fs p = true <->
  exists cs, resolve fs p = Some (Dir cs)
             \/ exists e, resolve fs p = Some (Sealed e cs).
Proof.
  unfold os_path_isdir, os_stat. split.
  - destruct (resolve fs p) as [[|cs|e cs|e]|]; try discriminate; eauto.
  - intros (cs & [-> | (e & ->)]); reflexivity.
Qed.

Lemma exists_stat (fs : node) (p : path) :
  os_path_exists fs p = true <-> exists n, os_stat fs p = Ok n.
Proof.
  unfold os_path_exists. destruct (os_stat fs p) as [n|e]; split;
    try discriminate; eauto.
  now intros (n & [=]).
Qed.

Lemma listdir_raise_stat (fs : node) (p : path) (e : exn) :
  os_stat fs p = Raise e -> os_listdir fs p = Raise e.
Proof. unfold os_listdir. now intros ->. Qed.

Lemma scan_dir_skip (fs : node) (mer_dir : path) (file_type : string)
    (instruments bands : option (list string)) (d : string)
    (acc : gmap string path) :
  (selected_dir fs mer_dir instruments d = true ->
   exists names, os_listdir fs (mer_dir ++ [d])%list = Ok names) ->
  (forall names f,
      selected_dir fs mer_dir instruments d = true ->
      os_listdir fs (mer_dir ++ [d])%list = Ok names ->
      f ∈ names -> selected_file file_type bands f = false) ->
  scan_instrument_dir fs mer_dir file_type instruments bands acc d = Ok acc.
Proof.
  intros Hlist Hnone. unfold scan_instrument_dir.
  destruct (os_path_isdir fs (mer_dir ++ [d])%list) eqn:Hd; [|reflexivity].
  destruct (passes instruments d) eqn:Hp; [|reflexivity].
  cbn [negb].
  assert (Hsel : selected_dir fs mer_dir instruments d = true)
    by (unfold selected_dir; now rewrite Hd, Hp).
  destruct (Hlist Hsel) as (names & Hl). rewrite Hl.
  cbn. f_equal. apply add_files_skip. intros f Hf.
  now apply (Hnone names f).
Qed.

Lemma scan_dirs_skip (fs : node) (mer_dir : path) (file_type : string)
    (instruments bands : option (list string)) (dirs : list string)
    (acc : gmap string path) :
  (forall d, d ∈ dirs -> selected_dir fs mer_dir instruments d = true ->
             exists names, os_listdir fs (mer_dir ++ [d])%list = Ok names) ->
  (forall d names f,
      selected_dir fs mer_dir instruments d = true ->
      os_listdir fs (mer_dir ++ [d])%list = Ok names ->
      f ∈ names -> selected_file file_type bands f = false) ->
  for_each (scan_instrument_dir fs mer_dir file_type instruments bands)
    dirs acc = Ok acc.
Proof.
  intros Hlist Hnone. induction dirs as [|d dirs IH]; [reflexivity|].
  cbn [for_each]. rewrite scan_dir_skip.
  - cbn. apply IH. intros d' Hd'. apply Hlist. now right.
  - apply Hlist. now left.
  - intros names f. apply Hnone.
Qed.

(** An exception of the loop over the tile directory is the error of
    listing one of its searched entries. *)
Lemma scan_dirs_raise (fs : node) (mer_dir : path) (file_type : string)
    (instruments bands : option (list string)) (dirs : list string)
    (acc : gmap string path) (e : exn) :
  for_each (scan_instrument_dir fs mer_dir file_type instruments bands)
    dirs acc = Raise e ->
  exists d, d ∈ dirs /\ selected_dir fs mer_dir instruments d = true /\
            os_listdir fs (mer_dir ++ [d])%list = Raise e.
Proof.
  revert acc. induction dirs as [|d dirs IH]; intros acc; cbn [for_each];
    [discriminate|].
  destruct (scan_instrument_dir fs mer_dir file_type instruments bands acc d)
    as [acc'|e'] eqn:E; cbn [mbind result_bind].
  - intros H. destruct (IH acc' H) as (d' & Hin & Hsel & Hl).
    exists d'. split; [now right | now split].
  - intros [= ->]. exists d. split; [now left|].
    unfold scan_instrument_dir in E. unfold selected_dir.
    destruct (os_path_isdir fs (mer_dir ++ [d])%list); [|discriminate].
    destruct (passes instruments d); [|discriminate].
    cbn [negb] in E.
    destruct (os_listdir fs (mer_dir ++ [d])%list) as [names|e'];
      [discriminate|].
    cbn in E. injection E as ->. now split.
Qed.

(** C6, as the code has it.  [find_files] returns the empty mapping,
    without raising, when the tile directory does not exist, and when
    the tile directory and the entries searched in it can be listed and
    no file matches the requested filters.  It returns the same empty
    mapping when the tile directory cannot be examined, whatever the
    error ([os.path.exists] answers [False] on every error of
    [os.stat]), so that this outcome tells no data from such an error.
    What it raises is the error of listing a directory - the tile
    directory, when that can be examined, or a searched entry of it -
    and nothing else. *)
Theorem find_files_no_data (fs : node) (tile_id file_type : string)
    (mer_root : path) (instruments bands : option (list string)) :
  let mer_dir := (mer_root ++ [tile_id])%list in
  let found := find_files fs tile_id file_type mer_root instruments bands in
  (forall e, os_stat fs mer_dir = Raise e -> found = Ok ∅) /\
  (forall dirs,
     os_listdir fs mer_dir = Ok dirs ->
     (forall d, d ∈ dirs -> selected_dir fs mer_dir instruments d = true ->
        exists names, os_listdir fs (mer_dir ++ [d])%list = Ok names) ->
     no_file_matches fs tile_id file_type mer_root instruments bands ->
     found = Ok ∅) /\
  (forall n e, os_stat fs mer_dir = Ok n ->
               os_listdir fs mer_dir = Raise e -> found = Raise e) /\
  (forall e, found = Raise e ->
     os_path_exists fs mer_dir = true /\
     (os_listdir fs mer_dir = Raise e \/
      exists dirs d,
        os_listdir fs mer_dir = Ok dirs /\ d ∈ dirs /\
        selected_dir fs mer_dir instruments d = true /\
        os_listdir fs (mer_dir ++ [d])%list = Raise e)).
Proof.
  intros mer_dir found. subst found. unfold find_files. fold mer_dir.
  split; [|split; [|split]].
  - intros e He. unfold os_path_exists. now rewrite He.
  - intros dirs Hl Hlist Hnone.
    assert (Hex : os_path_exists fs mer_dir = true).
    { apply listdir_resolve in Hl as (cs & R & _).
      unfold os_path_exists, os_stat. now rewrite R. }
    rewrite Hex, Hl. cbn.
    apply scan_dirs_skip; [exact Hlist|].
    intros d names f Hd Hld Hf.
    apply (Hnone d names f Hd); [|exact Hf].
    subst mer_dir. now rewrite <- app_assoc in Hld.
  - intros n e Hn He. unfold os_path_exists. rewrite Hn, He. reflexivity.
  - intros e He.
    destruct (os_path_exists fs mer_dir) eqn:Hex; [|discriminate].
    split; [reflexivity|]. cbn [negb] in He.
    destruct (os_listdir fs mer_dir) as [dirs|e'] eqn:Hl;
      cbn [mbind result_bind] in He.
    + right. apply scan_dirs_raise in He as (d & Hin & Hsel & Hd).
      exists dirs, d. now repeat split.
    + left. now injection He as ->.
Qed.

Lemma child_elem (cs : list (string * node)) (d : string) (n : node) :
  snd <$> List.find (fun c => String.eqb (fst c) d) cs = Some n ->
  (d, n) ∈ cs.
Proof.
  intros H.
  destruct (List.find _ cs) as [[d' n']|] eqn:F; [|discriminate].
  injection H as <-. apply find_some in F as [Hin E].
  apply String.eqb_eq in E. cbn in E. subst d'.
  now apply list_elem_of_In.
Qed.

Lemma listdir_child (fs : node) (p : path) (d : string)
    (names : list string) (cs : list (string * node)) :
  resolve fs p = Some (Dir cs) ->
  os_listdir fs (p ++ [d])%list = Ok names ->
  exists cs', (d, Dir cs') ∈ cs /\ names = map fst cs'.
Proof.
  intros R Hl. apply listdir_resolve in Hl as (cs' & Hl & ->).
  exists cs'. split; [|reflexivity].
  revert fs R Hl. induction p as [|x p IH]; intros fs R Hl.
  - injection R as ->. cbn [app resolve] in Hl.
    destruct (child (Dir cs) d) as [n|] eqn:C; [|discriminate].
    injection Hl as ->. now apply child_elem.
  - cbn [app resolve] in *.
    destruct (child fs x) as [n|]; [|discriminate]. eauto.
Qed.

Lemma find_files_no_data_witness :
  find_files sample_archive "102021017" "BGSUB" ["MER"] None None = Ok ∅
  /\ find_files failing_archive "102019587" "BGSUB" ["MER"] None None = Ok ∅
  /\ find_files sample_archive "102019587" "RMS" ["MER"] None None = Ok ∅
  /\ find_files sample_archive "102019588" "BGSUB" ["MER"] None None
     = Raise NotADirectoryError
  /\ find_files failing_archive "102019588" "BGSUB" ["MER"] None None
     = Raise (OSError "Permission denied")
  /\ (os_listdir failing_archive ["MER"; "102019590"] = Ok ["VIS"] /\
      os_listdir failing_archive ["MER"; "102019590"; "VIS"]
      = Raise (OSError "Permission denied")).
Proof.
  pose proof (find_files_no_data sample_archive "102021017" "BGSUB" ["MER"]
                None None) as (H1 & _).
  pose proof (find_files_no_data failing_archive "102019587" "BGSUB" ["MER"]
                None None) as (H1' & _).
  pose proof (find_files_no_data sample_archive "102019587" "RMS" ["MER"]
                None None) as (_ & H2 & _).
  pose proof (find_files_no_data sample_archive "102019588" "BGSUB" ["MER"]
                None None) as (_ & _ & H3 & _).
  pose proof (find_files_no_data failing_archive "102019588" "BGSUB" ["MER"]
                None None) as (_ & _ & H3' & _).
  pose proof (find_files_no_data failing_archive "102019590" "BGSUB" ["MER"]
                None None) as (_ & _ & _ & H4).
  split; [apply (H1 FileNotFoundError); reflexivity|].
  split; [apply (H1' (OSError "Input/output error")); reflexivity|].
  split; [|split; [apply (H3 File); reflexivity|
           split; [apply (H3' (Sealed (OSError "Permission denied") []));
                   reflexivity|]]].
  - apply (H2 ["VIS"; "NISP"; "README"]); [reflexivity| |].
    + intros d Hd Hsel.
      repeat (apply elem_of_cons in Hd as [->|Hd];
              [first [solve [vm_compute; eauto] | discriminate Hsel]|]).
      now apply elem_of_nil in Hd.
    + intros d names f _ Hl Hf.
      destruct (listdir_child sample_archive ["MER"; "102019587"] d names _
                  eq_refl Hl) as (cs' & Hd & ->).
      repeat (apply elem_of_cons in Hd as [Hd | Hd]; [simplify_eq |]);
        try (now apply elem_of_nil in Hd);
        cbn [map fst] in Hf;
        repeat (apply elem_of_cons in Hf as [-> | Hf];
                [vm_compute; reflexivity|]);
        now apply elem_of_nil in Hf.
  - destruct (H4 (OSError "Permission denied")) as [_ [Hl | Hd]];
      [vm_compute; reflexivity | discriminate Hl|].
    destruct Hd as (dirs & d & Hl & Hin & _ & Hd).
    vm_compute in Hl. injection Hl as <-.
    apply list_elem_of_singleton in Hin. subst d.
    split; [reflexivity | exact Hd].
Defined.

(** C6 as stated fails twice.  Where the tile directory cannot be
    examined, the answer is the empty mapping, the very answer for a tile
    that does not exist, although examining the directory ended in an
    I/O error; an instrument directory that cannot be examined is passed
    over in the same way.  And where no file matches because the tile
    path is a plain file, or a directory that cannot be read, the call
    raises instead of returning the empty mapping. *)
Lemma find_files_hides_stat_error :
  (os_stat failing_archive ["MER"; "102019587"]
   = Raise (OSError "Input/output error") /\
   os_stat failing_archive ["MER"; "102021017"] = Raise FileNotFoundError /\
   find_files failing_archive "102019587" "BGSUB" ["MER"] None None = Ok ∅ /\
   find_files failing_archive "102021017" "BGSUB" ["MER"] None None = Ok ∅ /\
   os_stat failing_archive ["MER"; "102019589"; "VIS"]
   = Raise (OSError "Permission denied") /\
   find_files failing_archive "102019589" "BGSUB" ["MER"] None None = Ok ∅)
  /\
  (no_file_matches sample_archive "102019588" "BGSUB" ["MER"] None None /\
   find_files sample_archive "102019588" "BGSUB" ["MER"] None None
   = Raise NotADirectoryError /\
   no_file_matches failing_archive "102019588" "BGSUB" ["MER"] None None /\
   find_files failing_archive "102019588" "BGSUB" ["MER"] None None
   = Raise (OSError "Permission denied")).
Proof.
  split; [vm_compute; repeat split|].
  split; [|split; [vm_compute; reflexivity|split]].
  - intros d names f _ Hl _. vm_compute in Hl. discriminate Hl.
  - intros d names f _ Hl _. vm_compute in Hl. discriminate Hl.
  - vm_compute. reflexivity.
Qed.

(** With files that match, the mapping is keyed by directory and band. *)
Example find_files_sample :
  (fun r => match r with Ok m => Ok (map_to_list m) | Raise e => Raise e end)
    (find_files sample_archive "102019587" "BGSUB" ["MER"] None
       (Some ["NIR-Y"]))
  = Ok [("NISP_NIR-Y",
         ["MER"; "102019587"; "NISP";
          "EUC_MER_BGSUB-MOSAIC-NIR-Y_TILE102019587-DEDE9D_20241018T160516.574568Z_00.00.fits"])].
Proof. vm_compute. reflexivity. Qed.

End FindFilesProperties.

(** ** Nearest-neighbour selection *)

Section ArgminFacts.

Lemma lookup_map {A B} (f : A -> B) (l : list A) (i : nat) :
  map f l !! i = f <$> l !! i.
Proof.
  revert i. induction l as [|x l IH]; intros [|i]; cbn; auto.
Qed.

Lemma Qlt_bool_true (x y : Q) : Qlt_bool x y = true <-> (x < y)%Q.
Proof.
  unfold Qlt_bool. rewrite negb_true_iff. split.
  - intros E. apply Qnot_le_lt. intros L.
    apply Qle_bool_iff in L. congruence.
  - intros L. destruct (Qle_bool y x) eqn:E; [|reflexivity].
    apply Qle_bool_iff in E. now apply Qlt_not_le in L.
Qed.

Lemma Qlt_bool_false (x y : Q) : Qlt_bool x y = false <-> (y <= x)%Q.
Proof.
  unfold Qlt_bool. rewrite negb_false_iff. apply Qle_bool_iff.
Qed.

Lemma argmin_from_first_min (pre l : list Q) (best_i : nat) (best : Q) :
  first_min pre best_i best ->
  exists v,
    first_min (pre ++ l) (argmin_from best_i best (length pre) l) v.
Proof.
  revert pre best_i best.
  induction l as [|x l IH]; intros pre best_i best Hmin.
  - exists best. now rewrite app_nil_r.
  - cbn [argmin_from]. destruct Hmin as (Hat & Hle & Hlt).
    replace (pre ++ x :: l)%list with ((pre ++ [x]) ++ l)%list
      by now rewrite <- app_assoc.
    replace (S (length pre)) with (length (pre ++ [x])%list)
      by (rewrite length_app; cbn; lia).
    destruct (Qlt_bool x best) eqn:E.
    + apply Qlt_bool_true in E.
      apply IH. repeat split.
      * rewrite lookup_app_r by lia. now rewrite Nat.sub_diag.
      * intros j y Hj. apply lookup_app_Some in Hj as [Hj | [_ Hj]].
        -- apply Qlt_le_weak. eapply Qlt_le_trans; [exact E|]. eauto.
        -- apply list_lookup_singleton_Some in Hj as [_ <-].
           apply Qle_refl.
      * intros j y Hlen Hj. apply lookup_app_Some in Hj as [Hj | [Hge _]].
        -- eapply Qlt_le_trans; [exact E|]. eauto.
        -- lia.
    + apply Qlt_bool_false in E. apply IH. repeat split.
      * now apply lookup_app_l_Some.
      * intros j y Hj. apply lookup_app_Some in Hj as [Hj | [_ Hj]].
        -- eauto.
        -- now apply list_lookup_singleton_Some in Hj as [_ <-].
      * intros j y Hlen Hj. apply lookup_app_Some in Hj as [Hj | [Hge Hj]].
        -- eauto.
        -- apply lookup_lt_Some in Hat. lia.
Qed.

(** [np.argmin] of a non-empty sequence returns a first minimum. *)
Lemma np_argmin_first_min (l : list Q) :
  l <> [] -> exists r v, np_argmin l = Ok r /\ first_min l r v.
Proof.
  destruct l as [|x l]; [congruence|]. intros _.
  destruct (argmin_from_first_min [x] l 0 x) as (v & Hv).
  - repeat split.
    + intros j y Hj. apply list_lookup_singleton_Some in Hj as [_ <-].
      apply Qle_refl.
    + intros j y Hj. lia.
  - exists (argmin_from 0 x 1 l), v. split; [reflexivity | exact Hv].
Qed.

End ArgminFacts.

(** ** Tile lookup *)

Section TileIndexProperties.
Import TileIndex.
Context `{G : SkyGeometry}.

Lemma mkSkyCoord_valid (ra dec : Q) :
  valid_dec dec = true ->
  mkSkyCoord ra dec = Ok {| sc_ra := ra; sc_dec := dec |}.
Proof. unfold mkSkyCoord. now intros ->. Qed.

Lemma tile_centers_valid (tiles : list TileRecord) :
  (forall t, t ∈ tiles -> valid_dec (DEC_CENTER t) = true) ->
  map_result tile_center tiles
  = Ok (map (fun t => {| sc_ra := RA_CENTER t; sc_dec := DEC_CENTER t |})
          tiles).
Proof.
  induction tiles as [|t tiles IH]; intros Hv; [reflexivity|].
  cbn [map_result map].
  rewrite (mkSkyCoord_valid (RA_CENTER t) (DEC_CENTER t)
             (Hv t ltac:(now left)) : tile_center t = _).
  rewrite IH by (intros; apply Hv; now right). reflexivity.
Qed.

Lemma lookup_tile_nearest (rows : list TileRecord) (ra dec tolerance : Q) :
  let matched := List.filter (in_bbox ra dec tolerance) rows in
  (2 <= length matched)%nat ->
  valid_dec dec = true ->
  (forall t, t ∈ matched -> valid_dec (DEC_CENTER t) = true) ->
  exists i t,
    lookup_tile rows ra dec tolerance = Ok (Some (TILE_ID t)) /\
    nearest_first ra dec matched i t.
Proof.
  intros matched Hlen Hdec Hcenters. unfold lookup_tile. fold matched.
  destruct matched as [|t0 [|t1 rest]] eqn:Hm; cbn [length] in Hlen; try lia.
  rewrite <- Hm in *. clear Hlen.
  rewrite mkSkyCoord_valid by exact Hdec. cbn [mbind result_bind].
  rewrite tile_centers_valid by exact Hcenters. cbn [mbind result_bind].
  rewrite map_map.
  change (map _ matched) with (map (tile_separation ra dec) matched).
  destruct (np_argmin_first_min (map (tile_separation ra dec) matched))
    as (r & v & -> & Hat & Hle & Hlt).
  { rewrite Hm. discriminate. }
  cbn [mbind result_bind].
  rewrite lookup_map in Hat.
  destruct (matched !! r) as [t|] eqn:Ht; [|discriminate].
  injection Hat as <-.
  exists r, t. unfold getitem. rewrite Ht. split; [reflexivity|].
  repeat split.
  - exact Ht.
  - intros t' Hin. apply list_elem_of_lookup in Hin as [j Hj].
    apply (Hle j). rewrite lookup_map, Hj. reflexivity.
  - intros j t' Hj Ht'. apply (Hlt j); [exact Hj|].
    rewrite lookup_map, Ht'. reflexivity.
Qed.

Lemma query_tile_id_read (Table_read : table_reader) (ra dec : Q)
    (file : string) (tolerance : Q) (rows : list TileRecord) :
  Table_read file = Ok (Tiles rows) ->
  query_tile_id Table_read ra dec file tolerance
  = try_except (lookup_tile rows ra dec tolerance) (fun _ => None).
Proof. unfold query_tile_id. now intros ->. Qed.

(** C2, as the code has it.  When the bounding-box test matches at least
    two tiles (and the position and the matched centres are valid sky
    coordinates), [query_tile_id] returns the id of a matched tile whose
    centre has the smallest angular separation from the position: the
    first such tile in index order.  The id does not depend on the order
    of the index whenever every matched tile with another id is strictly
    farther away. *)
Theorem query_tile_id_nearest (Table_read : table_reader) (ra dec : Q)
    (file : string) (tolerance : Q) (rows : list TileRecord) :
  Table_read file = Ok (Tiles rows) ->
  let matched := List.filter (in_bbox ra dec tolerance) rows in
  (2 <= length matched)%nat ->
  valid_dec dec = true ->
  (forall t, t ∈ matched -> valid_dec (DEC_CENTER t) = true) ->
  exists i t,
    query_tile_id Table_read ra dec file tolerance = Some (TILE_ID t) /\
    nearest_first ra dec matched i t /\
    (forall (Table_read' : table_reader) (rows' : list TileRecord),
        Table_read' file = Ok (Tiles rows') ->
        rows ≡ₚ rows' ->
        (forall t', t' ∈ matched -> TILE_ID t' <> TILE_ID t ->
                    (tile_separation ra dec t < tile_separation ra dec t')%Q) ->
        query_tile_id Table_read' ra dec file tolerance = Some (TILE_ID t)).
Proof.
  intros Hread matched Hlen Hdec Hcenters.
  destruct (lookup_tile_nearest rows ra dec tolerance Hlen Hdec Hcenters)
    as (i & t & Hq & Hnear).
  exists i, t. split; [|split].
  - rewrite (query_tile_id_read _ _ _ _ _ _ Hread), Hq. reflexivity.
  - exact Hnear.
  - intros Table_read' rows' Hread' Hperm Huniq.
    assert (Hpm : matched ≡ₚ List.filter (in_bbox ra dec tolerance) rows').
    { unfold matched. clear -Hperm.
      induction Hperm; cbn [List.filter]; try reflexivity.
      - destruct (in_bbox ra dec tolerance x); [now constructor | easy].
      - destruct (in_bbox ra dec tolerance x), (in_bbox ra dec tolerance y);
          try reflexivity. apply perm_swap.
      - etransitivity; eassumption. }
    destruct (lookup_tile_nearest rows' ra dec tolerance)
      as (i' & t' & Hq' & Hat' & Hle' & _).
    + rewrite <- Hpm. exact Hlen.
    + exact Hdec.
    + intros u Hu. apply Hcenters. now rewrite Hpm.
    + rewrite (query_tile_id_read _ _ _ _ _ _ Hread'), Hq'. cbn.
      destruct (decide (TILE_ID t' = TILE_ID t)) as [-> | Hne];
        [reflexivity|].
      exfalso.
      assert (Hin' : t' ∈ matched).
      { rewrite Hpm. eapply list_elem_of_lookup_2. exact Hat'. }
      assert (Hin : t ∈ List.filter (in_bbox ra dec tolerance) rows').
      { rewrite <- Hpm. destruct Hnear as (Hat & _).
        eapply list_elem_of_lookup_2. exact Hat. }
      specialize (Huniq t' Hin' Hne). specialize (Hle' t Hin).
      now apply Qlt_not_le in Huniq.
Qed.

End TileIndexProperties.

Section TileIndexExamples.
Import TileIndex.

Lemma query_tile_id_nearest_witness :
  exists i t,
    @query_tile_id taxicab (index_of [tile_a; tile_b]) 11 (14 # 10)
      "tile_coordinates.fits" default_tolerance = Some (TILE_ID t) /\
    @nearest_first taxicab 11 (14 # 10) [tile_a; tile_b] i t /\
    (forall (Table_read' : table_reader) (rows' : list TileRecord),
        Table_read' "tile_coordinates.fits" = Ok (Tiles rows') ->
        [tile_a; tile_b] ≡ₚ rows' ->
        (forall t', t' ∈ [tile_a; tile_b] -> TILE_ID t' <> TILE_ID t ->
                    (@tile_separation taxicab 11 (14 # 10) t
                     < @tile_separation taxicab 11 (14 # 10) t')%Q) ->
        @query_tile_id taxicab Table_read' 11 (14 # 10)
          "tile_coordinates.fits" default_tolerance = Some (TILE_ID t)).
Proof.
  apply (@query_tile_id_nearest taxicab (index_of [tile_a; tile_b])
           11 (14 # 10) "tile_coordinates.fits" default_tolerance
           [tile_a; tile_b]).
  - reflexivity.
  - vm_compute. lia.
  - reflexivity.
  - intros t Ht. change (t ∈ [tile_a; tile_b]) in Ht.
    apply elem_of_cons in Ht as [-> | Ht]; [reflexivity|].
    apply elem_of_cons in Ht as [-> | Ht]; [reflexivity|].
    now apply elem_of_nil in Ht.
Defined.

Example query_tile_id_sample :
  @query_tile_id taxicab (index_of [tile_b; tile_a]) 11 (14 # 10)
    "tile_coordinates.fits" default_tolerance = Some "102019587".
Proof. vm_compute. reflexivity. Qed.

(** C2 as stated fails on ties: two matched index rows with the same
    centre are equally near for every separation function, and the id
    returned is that of whichever row the index lists first. *)
Lemma query_tile_id_order_dependent :
  [tile_a; tile_a'] ≡ₚ [tile_a'; tile_a] /\
  forall G : SkyGeometry,
    @query_tile_id G (index_of [tile_a; tile_a']) 11 1
      "tile_coordinates.fits" default_tolerance = Some "102019587" /\
    @query_tile_id G (index_of [tile_a'; tile_a]) 11 1
      "tile_coordinates.fits" default_tolerance = Some "102019589".
Proof.
  split; [apply perm_swap|]. intros G.
  assert (Hfirst : forall t0 t1 : TileRecord,
             List.filter (in_bbox 11 1 default_tolerance) [t0; t1] = [t0; t1] ->
             valid_dec (DEC_CENTER t0) = true ->
             valid_dec (DEC_CENTER t1) = true ->
             (tile_separation 11 1 t0 <= tile_separation 11 1 t1)%Q ->
             query_tile_id (index_of [t0; t1]) 11 1 "tile_coordinates.fits"
               default_tolerance = Some (TILE_ID t0)).
  { intros t0 t1 Hm H0 H1 Hle.
    destruct (lookup_tile_nearest [t0; t1] 11 1 default_tolerance)
      as (i & t & Hq & Hat & _ & Hlt).
    - rewrite Hm. cbn. lia.
    - reflexivity.
    - rewrite Hm. intros t Ht.
      apply elem_of_cons in Ht as [-> | Ht]; [exact H0|].
      apply elem_of_cons in Ht as [-> | Ht]; [exact H1|].
      now apply elem_of_nil in Ht.
    - rewrite (query_tile_id_read _ _ _ _ _ [t0; t1] eq_refl), Hq. cbn.
      rewrite Hm in Hat, Hlt.
      destruct i as [|[|i]]; cbn in Hat; try discriminate.
      + now injection Hat as <-.
      + injection Hat as <-.
        specialize (Hlt 0%nat t0 ltac:(lia) eq_refl).
        now apply Qlt_not_le in Hlt. }
  split; apply Hfirst; try reflexivity; apply Qle_refl.
Qed.

End TileIndexExamples.

Section TileIndexTotality.
Import TileIndex.
Context `{G : SkyGeometry}.

(** C10.  [query_tile_id] is total: whatever the position, the index file
    and the tolerance, it returns a tile id or [None].  Every internal
    failure - the index cannot be read, the table lacks a column, a
    coordinate is rejected - is caught and gives [None], which is also
    the answer for a position that no tile contains; the wrapper of
    [coordinate_matcher] returns the same value. *)
Theorem query_tile_id_total (Table_read : table_reader) (ra dec : Q)
    (file : string) (tolerance : Q) :
  (exists r : option string,
      query_tile_id Table_read ra dec file tolerance = r) /\
  (forall e, Table_read file = Raise e ->
             query_tile_id Table_read ra dec file tolerance = None) /\
  (forall name, Table_read file = Ok (MissingColumn name) ->
                query_tile_id Table_read ra dec file tolerance = None) /\
  (forall rows e, Table_read file = Ok (Tiles rows) ->
                  lookup_tile rows ra dec tolerance = Raise e ->
                  query_tile_id Table_read ra dec file tolerance = None) /\
  (forall rows, Table_read file = Ok (Tiles rows) ->
                List.filter (in_bbox ra dec tolerance) rows = [] ->
                query_tile_id Table_read ra dec file tolerance = None) /\
  matcher_query_tile_id Table_read ra dec (Some file)
  = query_tile_id Table_read ra dec file default_tolerance.
Proof.
  repeat split.
  - eauto.
  - intros e E. unfold query_tile_id. now rewrite E.
  - intros name E. unfold query_tile_id. now rewrite E.
  - intros rows e E L. rewrite (query_tile_id_read _ _ _ _ _ _ E), L.
    reflexivity.
  - intros rows E L. rewrite (query_tile_id_read _ _ _ _ _ _ E).
    unfold lookup_tile. now rewrite L.
Qed.

End TileIndexTotality.

Section TileIndexTotalityExamples.
Import TileIndex.

(** An unreadable index, a malformed one, a rejected coordinate and a
    position outside every tile all give [None]. *)
Lemma query_tile_id_total_witness :
  @query_tile_id taxicab (fun _ => Raise FileNotFoundError) 11 1
    "missing.fits" default_tolerance = None
  /\ @query_tile_id taxicab (fun _ => Ok (MissingColumn "RA_MIN")) 11 1
       "tile_coordinates.fits" default_tolerance = None
  /\ @query_tile_id taxicab
       (index_of [tile_a; {| TILE_ID := "102019590";
                             RA_MIN := 10; RA_MAX := 12;
                             DEC_MIN := 0; DEC_MAX := 2;
                             RA_CENTER := 11; DEC_CENTER := 91;
                             N_OBJECTS := 3 |}])
       11 1 "tile_coordinates.fits" default_tolerance = None
  /\ @query_tile_id taxicab (index_of [tile_a; tile_b]) 200 1
       "tile_coordinates.fits" default_tolerance = None.
Proof.
  split; [|split; [|split]].
  - destruct (@query_tile_id_total taxicab (fun _ => Raise FileNotFoundError)
                11 1 "missing.fits" default_tolerance) as (_ & H & _).
    now apply (H FileNotFoundError).
  - destruct (@query_tile_id_total taxicab
                (fun _ => Ok (MissingColumn "RA_MIN")) 11 1
                "tile_coordinates.fits" default_tolerance) as (_ & _ & H & _).
    now apply (H "RA_MIN").
  - match goal with
    | |- @query_tile_id _ ?r ?ra ?dec ?f ?tol = None =>
        destruct (@query_tile_id_total taxicab r ra dec f tol)
          as (_ & _ & _ & H & _)
    end.
    eapply H; [reflexivity | vm_compute; reflexivity].
  - destruct (@query_tile_id_total taxicab (index_of [tile_a; tile_b]) 200 1
                "tile_coordinates.fits" default_tolerance)
      as (_ & _ & _ & _ & H & _).
    eapply H; [reflexivity | vm_compute; reflexivity].
Defined.

End TileIndexTotalityExamples.

(** ** Stamp extraction *)

Section StampProperties.
Import FileNames Extract Shapes.
Context `{G : SkyGeometry} `{A : Archive}.

(** A stamp never runs past the end of its axis. *)
Lemma stamp_min_fits (center : Q) (stmpsize : Z) (axis_len : nat) :
  (stamp_min center stmpsize axis_len + stmpsize <= Z.of_nat axis_len)%Z.
Proof.
  unfold stamp_min.
  destruct (Z.gtb_spec
              (Z.max 0 (int_of_float (center - inject_Z (stmpsize `div` 2)) - 1)
               + stmpsize) (Z.of_nat axis_len)); lia.
Qed.

Lemma slice_extent (lo w : Z) (n : nat) :
  (0 <= lo)%Z -> (0 < w)%Z -> (lo + w <= Z.of_nat n)%Z ->
  Z.of_nat (slice_index (lo + w) n - slice_index lo n) = w.
Proof.
  intros Hlo Hw Hn. unfold slice_index.
  destruct (Z.ltb_spec (lo + w) 0); [lia|].
  destruct (Z.ltb_spec lo 0); lia.
Qed.

Lemma with_error_failure (msg : string) : psf_failure (with_error msg).
Proof. repeat split; cbn; eauto. Qed.

Lemma cutout_psf_cases (psf_fits_path : path) (ra dec : Q) :
  psf_failure (cutout_psf psf_fits_path ra dec) \/
  exists hdul, fits_open_psf psf_fits_path = Ok hdul /\
               psf_success hdul (cutout_psf psf_fits_path ra dec).
Proof.
  unfold cutout_psf.
  destruct (fits_open_psf psf_fits_path) as [hdul|e] eqn:Hopen;
    [|left; apply with_error_failure].
  cbn [mbind result_bind]. unfold cutout_psf_body.
  destruct (default 0%Z (STMPSIZE hdul) =? 0)%Z eqn:Hz;
    [left; apply with_error_failure|].
  destruct (mkSkyCoord ra dec) as [target|e];
    [|left; apply with_error_failure].
  cbn [mbind result_bind].
  destruct (map_result _ (psf_table hdul)) as [coords|e];
    [|left; apply with_error_failure].
  cbn [mbind result_bind].
  destruct (np_argmin _) as [idx|e]; [|left; apply with_error_failure].
  cbn [mbind result_bind]. unfold getitem.
  destruct (psf_table hdul !! idx) as [row|] eqn:Hrow;
    [|left; apply with_error_failure].
  cbn [mbind result_bind].
  destruct (_ || _) eqn:Hneg; [left; apply with_error_failure|].
  destruct (ndarray_size _ =? 0)%nat; [left; apply with_error_failure|].
  right. exists hdul. split; [reflexivity|].
  apply orb_false_iff in Hneg as [Hx Hy].
  apply Z.ltb_ge in Hx, Hy.
  exists row. split; [eapply list_elem_of_lookup_2; exact Hrow|].
  cbn. repeat split; assumption.
Qed.

(** The code does not clamp: where the first placement runs past the
    end of the axis, the stamp is moved back to end there. *)
Lemma stamp_min_shifted (center : Q) (stmpsize : Z) (axis_len : nat) :
  stamp_min center stmpsize axis_len
  = if (stamp_first center stmpsize + stmpsize >? Z.of_nat axis_len)%Z
    then (Z.of_nat axis_len - stmpsize)%Z
    else stamp_first center stmpsize.
Proof. reflexivity. Qed.

Lemma clamping_shrinks_overhang (center : Q) (stmpsize : Z) (axis_len : nat) :
  clamping_shrinks center stmpsize axis_len = true <->
  (Z.of_nat axis_len < stamp_first center stmpsize + stmpsize)%Z.
Proof.
  unfold clamping_shrinks, clamped_width. rewrite Z.ltb_lt. lia.
Qed.

(** The shifted stamp starts inside the array exactly when the array is
    at least as long as the stamp is wide. *)
Lemma stamp_min_nonneg (center : Q) (stmpsize : Z) (axis_len : nat) :
  (0 < stmpsize)%Z ->
  (0 <= stamp_min center stmpsize axis_len)%Z <->
  (stmpsize <= Z.of_nat axis_len)%Z.
Proof.
  intros Hpos. rewrite stamp_min_shifted. unfold stamp_first.
  destruct (Z.gtb_spec
              (Z.max 0 (int_of_float (center - inject_Z (stmpsize `div` 2)) - 1)
               + stmpsize) (Z.of_nat axis_len)); lia.
Qed.

Lemma map_result_all_ok {X Y} (f : X -> result Y) (l : list X) :
  (forall x, x ∈ l -> exists y, f x = Ok y) ->
  exists ys, map_result f l = Ok ys /\ length ys = length l.
Proof.
  induction l as [|x l IH]; intros Hall; cbn [map_result].
  - exists []. now split.
  - destruct (Hall x) as (y & ->); [apply list_elem_of_here|].
    destruct IH as (ys & -> & Hlen).
    { intros x' Hx'. apply Hall. now apply list_elem_of_further. }
    cbn [mbind result_bind]. exists (y :: ys). cbn. now rewrite Hlen.
Qed.

(** Nothing but the size of the array can make the placement fail: on a
    readable file with a positive declared width, a position table that
    is not empty and valid positions throughout, an array at least as
    wide and as high as the declared width gives a stamp. *)
Lemma cutout_psf_fits (psf_fits_path : path) (ra dec : Q)
    (hdul : psf_file) :
  fits_open_psf psf_fits_path = Ok hdul ->
  let stmpsize := default 0%Z (STMPSIZE hdul) in
  (0 < stmpsize)%Z ->
  (stmpsize <= Z.of_nat (shape1 (img_data hdul)))%Z ->
  (stmpsize <= Z.of_nat (shape0 (img_data hdul)))%Z ->
  valid_dec dec = true ->
  psf_table hdul <> [] ->
  (forall row, row ∈ psf_table hdul -> valid_dec (Dec row) = true) ->
  success (cutout_psf psf_fits_path ra dec) = true.
Proof.
  intros Hopen stmpsize Hpos Hw Hh Hdec Hne Hrows.
  unfold cutout_psf. rewrite Hopen.
  cbn [mbind result_bind]. unfold cutout_psf_body. fold stmpsize.
  destruct (Z.eqb_spec stmpsize 0) as [E0|_]; [lia|].
  assert (Ht : mkSkyCoord ra dec = Ok {| sc_ra := ra; sc_dec := dec |})
    by (unfold mkSkyCoord; now rewrite Hdec).
  rewrite Ht. cbn [mbind result_bind].
  destruct (map_result_all_ok
              (fun r => mkSkyCoord (RA r) (Dec r)) (psf_table hdul))
    as (coords & -> & Hlen).
  { intros row Hrow. unfold mkSkyCoord. rewrite (Hrows row Hrow). eauto. }
  cbn [mbind result_bind].
  match goal with
  | |- context [np_argmin ?l] =>
      destruct (np_argmin_first_min l) as (idx & v & -> & (Hat & _))
  end.
  { intros Hnil. apply (f_equal (@length Q)) in Hnil.
    rewrite length_map, Hlen in Hnil.
    destruct (psf_table hdul); [congruence | discriminate]. }
  cbn [mbind result_bind]. unfold getitem.
  apply lookup_lt_Some in Hat. rewrite length_map, Hlen in Hat.
  destruct (lookup_lt_is_Some_2 (psf_table hdul) idx Hat) as [row ->].
  cbn [mbind result_bind].
  pose proof (proj2 (stamp_min_nonneg (x_center row) stmpsize
                       (shape1 (img_data hdul)) Hpos) Hw) as Hx.
  pose proof (proj2 (stamp_min_nonneg (y_center row) stmpsize
                       (shape0 (img_data hdul)) Hpos) Hh) as Hy.
  pose proof (stamp_min_fits (x_center row) stmpsize
                (shape1 (img_data hdul))) as Fx.
  pose proof (stamp_min_fits (y_center row) stmpsize
                (shape0 (img_data hdul))) as Fy.
  rewrite (proj2 (Z.ltb_ge _ _) Hx), (proj2 (Z.ltb_ge _ _) Hy).
  cbn [orb].
  pose proof (slice_extent _ _ _ Hx Hpos Fx) as Ex.
  pose proof (slice_extent _ _ _ Hy Hpos Fy) as Ey.
  unfold ndarray_size. cbn [shape0 shape1 ndarray_slice].
  destruct (Nat.eqb_spec
              ((slice_index (stamp_min (y_center row) stmpsize
                               (shape0 (img_data hdul)) + stmpsize)
                  (shape0 (img_data hdul))
                - slice_index (stamp_min (y_center row) stmpsize
                                 (shape0 (img_data hdul)))
                    (shape0 (img_data hdul)))
               * (slice_index (stamp_min (x_center row) stmpsize
                                 (shape1 (img_data hdul)) + stmpsize)
                    (shape1 (img_data hdul))
                  - slice_index (stamp_min (x_center row) stmpsize
                                   (shape1 (img_data hdul)))
                      (shape1 (img_data hdul)))) 0) as [Z0|_];
    [nia | reflexivity].
Qed.

(** C3, as the code has it.  For a positive declared stamp width, a
    successful [cutout_psf] returns data of exactly that width in both
    dimensions.  The bounds are not clamped: a stamp whose first placement
    runs past the end of an axis - so that clamping would shrink the
    slice - is moved back to end at the end of the axis and keeps its
    width.  The call fails with an error message instead of returning a
    truncated stamp whenever the backing array is narrower or shorter
    than the declared width, and for this reason only: on an array at
    least as wide and as high as the declared width, a position table
    that is not empty and valid positions, it succeeds. *)
Theorem cutout_psf_stamp_width (psf_fits_path : path) (ra dec : Q)
    (hdul : psf_file) :
  fits_open_psf psf_fits_path = Ok hdul ->
  let stmpsize := default 0%Z (STMPSIZE hdul) in
  let r := cutout_psf psf_fits_path ra dec in
  ((0 < stmpsize)%Z -> success r = true ->
   exists d, data r = Some d /\
             Z.of_nat (shape0 d) = stmpsize /\
             Z.of_nat (shape1 d) = stmpsize) /\
  (forall (center : Q) (axis_len : nat),
     clamping_shrinks center stmpsize axis_len = true ->
     (stamp_min center stmpsize axis_len + stmpsize)%Z = Z.of_nat axis_len) /\
  ((Z.of_nat (shape1 (img_data hdul)) < stmpsize)%Z \/
   (Z.of_nat (shape0 (img_data hdul)) < stmpsize)%Z ->
   success r = false /\ is_Some (error r)) /\
  ((0 < stmpsize)%Z ->
   (stmpsize <= Z.of_nat (shape1 (img_data hdul)))%Z ->
   (stmpsize <= Z.of_nat (shape0 (img_data hdul)))%Z ->
   valid_dec dec = true ->
   psf_table hdul <> [] ->
   (forall row, row ∈ psf_table hdul -> valid_dec (Dec row) = true) ->
   success r = true).
Proof.
  intros Hopen stmpsize r. subst r.
  split; [|split; [|split]].
  - intros Hpos Hs.
    destruct (cutout_psf_cases psf_fits_path ra dec)
      as [(Hf & _) | (hdul' & Hopen' & row & _ & Hx & Hy & _ & _ & Hd)];
      [congruence|].
    assert (hdul' = hdul) as -> by congruence.
    fold stmpsize in Hx, Hy, Hd.
    pose proof (stamp_min_fits (x_center row) stmpsize
                  (shape1 (img_data hdul))) as Fx.
    pose proof (stamp_min_fits (y_center row) stmpsize
                  (shape0 (img_data hdul))) as Fy.
    eexists. split; [exact Hd|].
    cbn [shape0 shape1 ndarray_slice].
    split; apply slice_extent; assumption.
  - intros center axis_len Hc.
    apply clamping_shrinks_overhang in Hc.
    rewrite stamp_min_shifted.
    destruct (Z.gtb_spec (stamp_first center stmpsize + stmpsize)
                (Z.of_nat axis_len)); lia.
  - intros Hsmall.
    destruct (cutout_psf_cases psf_fits_path ra dec)
      as [(Hf & He & _) | (hdul' & Hopen' & row & _ & Hx & Hy & _)];
      [auto|].
    assert (hdul' = hdul) as -> by congruence.
    fold stmpsize in Hx, Hy.
    pose proof (stamp_min_fits (x_center row) stmpsize
                  (shape1 (img_data hdul))) as Fx.
    pose proof (stamp_min_fits (y_center row) stmpsize
                  (shape0 (img_data hdul))) as Fy.
    destruct Hsmall; lia.
  - intros Hpos Hw Hh Hdec Hne Hrows.
    now apply (cutout_psf_fits psf_fits_path ra dec hdul Hopen).
Qed.

End StampProperties.

Section StampExamples.
Import FileNames Extract TileIndex Shapes.

Lemma cutout_psf_stamp_width_witness :
  let r := @cutout_psf taxicab (archive_with (stamp_file 4 (21 # 2) (1 # 2)))
             ["psf.fits"] 11 1 in
  clamping_shrinks (21 # 2) 4 10 = true /\
  success r = true /\
  (exists d, data r = Some d /\
             Z.of_nat (shape0 d) = 4%Z /\ Z.of_nat (shape1 d) = 4%Z) /\
  let r' := @cutout_psf taxicab (archive_with (stamp_file 12 5 5))
              ["psf.fits"] 11 1 in
  success r' = false /\ is_Some (error r').
Proof.
  intros r.
  pose proof (@cutout_psf_stamp_width taxicab
                (archive_with (stamp_file 4 (21 # 2) (1 # 2)))
                ["psf.fits"] 11 1 _ eq_refl) as (Hwidth & _ & _ & Hfit).
  assert (Hs : success r = true).
  { apply Hfit; try (vm_compute; congruence).
    intros row Hrow. apply list_elem_of_singleton in Hrow. now subst row. }
  split; [reflexivity|]. split; [exact Hs|]. split.
  - apply Hwidth; [reflexivity | exact Hs].
  - apply (@cutout_psf_stamp_width taxicab
             (archive_with (stamp_file 12 5 5))
             ["psf.fits"] 11 1 _ eq_refl).
    left. vm_compute. reflexivity.
Defined.

(** C3 as stated fails twice.  For a negative declared width the upper
    slice bounds count from the end of the array, and the call succeeds
    with an 8 x 8 stamp although [STMPSIZE] is -2.  And where clamping
    would shrink the slice the call does not fail: for a width of 4 and
    a centre at 10.5 on a 10-wide array the first placement is columns 7
    to 11, clamping would leave 3 of them, and the call succeeds with the
    4 columns from 6 to 10. *)
Lemma cutout_psf_unclamped :
  (let r := @cutout_psf taxicab (archive_with (stamp_file (-2) 0 0))
              ["psf.fits"] 11 1 in
   success r = true /\
   (H_STMPSIZE <$> header r) = Some (-2)%Z /\
   (shape0 <$> data r) = Some 8%nat /\
   (shape1 <$> data r) = Some 8%nat) /\
  (let f := stamp_file 4 (21 # 2) (1 # 2) in
   let r := @cutout_psf taxicab (archive_with f) ["psf.fits"] 11 1 in
   stamp_first (21 # 2) 4 = 7%Z /\
   clamped_width (21 # 2) 4 (shape1 (img_data f)) = 3%Z /\
   clamping_shrinks (21 # 2) 4 (shape1 (img_data f)) = true /\
   stamp_min (21 # 2) 4 (shape1 (img_data f)) = 6%Z /\
   success r = true /\ error r = None /\
   (shape0 <$> data r) = Some 4%nat /\
   (shape1 <$> data r) = Some 4%nat).
Proof. vm_compute. repeat split. Qed.

End StampExamples.

(** ** The invalid-value flag *)

Section InvalidValueFlag.
Import FileNames Extract.
Context `{G : SkyGeometry} `{A : Archive}.

(** The flag is set exactly when some pixel of the data is NaN. *)
Lemma any_nan_spec (a : ndarray) :
  any_nan a = true <->
  exists i j, (i < shape0 a)%nat /\ (j < shape1 a)%nat /\ at_ a i j = NaN.
Proof.
  unfold any_nan. rewrite existsb_exists. split.
  - intros (i & Hi & Hrow). apply existsb_exists in Hrow as (j & Hj & Hp).
    apply in_seq in Hi, Hj. exists i, j.
    repeat split; try lia. now destruct (at_ a i j).
  - intros (i & j & Hi & Hj & Hp). exists i. split; [apply in_seq; lia|].
    apply existsb_exists. exists j. split; [apply in_seq; lia|].
    now rewrite Hp.
Qed.

(** Both extraction paths compute the flag over the data they return. *)
Lemma contains_nan_eager (file_type : string) (filepath : path) (ra dec : Q)
    (sz : size) (d : ndarray) :
  let r := cutout_of file_type filepath ra dec sz in
  success r = true -> data r = Some d -> contains_nan r = any_nan d.
Proof.
  intros r Hs Hd. subst r. unfold cutout_of in *.
  destruct (String.eqb file_type "CATALOG-PSF").
  - destruct (cutout_psf_cases filepath ra dec)
      as [(Hf & _) | (hdul & Hopen & _)]; [congruence|].
    revert Hs Hd. unfold cutout_psf. rewrite Hopen.
    cbn [mbind result_bind try_except]. unfold cutout_psf_body.
    repeat (match goal with
            | |- context [if ?b then _ else _] => destruct b
            | |- context [match ?x with Ok _ => _ | Raise _ => _ end] =>
                destruct x
            | |- context [mbind _ ?x] => destruct x; cbn [mbind result_bind]
            end; cbn [success data contains_nan with_error try_except];
            try discriminate).
    now intros _ [= <-].
  - revert Hs Hd. unfold cutout_image.
    destruct (image_window filepath ra dec sz); cbn; [|discriminate].
    now intros _ [= <-].
Qed.

End InvalidValueFlag.

(** ** Tile extraction and the invalid-value policy *)

Section TilePolicy.
Import FileNames Extract.
Context `{G : SkyGeometry} `{A : Archive}.

Lemma add_cutout_lookup (file_type : string) (ra dec : Q) (sz : size)
    (skip_nan : bool) (cutouts : gmap string cutout_result)
    (key : string) (filepath : path) (k : string) (r : cutout_result) :
  add_cutout file_type ra dec sz skip_nan cutouts (key, filepath) !! k
    = Some r ->
  cutouts !! k = Some r \/
  (k = key /\ kept file_type ra dec sz skip_nan filepath /\
   success r = true /\
   contains_nan r = contains_nan (cutout_of file_type filepath ra dec sz)).
Proof.
  unfold add_cutout.
  destruct (key_labels file_type key) as [[inst bnd]|]; [|now left].
  cbv zeta.
  destruct (success (cutout_of file_type filepath ra dec sz)) eqn:Hs;
    [|now left].
  destruct (contains_nan (cutout_of file_type filepath ra dec sz)
            && skip_nan) eqn:Hn; [now left|].
  destruct (decide (k = key)) as [-> | Hne].
  - rewrite lookup_insert_eq. intros [= <-]. right.
    unfold kept. rewrite Hs, Hn. cbn. auto.
  - rewrite lookup_insert_ne by congruence. now left.
Qed.

Lemma add_cutouts_lookup (file_type : string) (ra dec : Q) (sz : size)
    (skip_nan : bool) (items : list (string * path))
    (cutouts : gmap string cutout_result) (k : string) (r : cutout_result) :
  fold_left (add_cutout file_type ra dec sz skip_nan) items cutouts !! k
    = Some r ->
  cutouts !! k = Some r \/
  exists filepath,
    (k, filepath) ∈ items /\
    kept file_type ra dec sz skip_nan filepath /\
    success r = true /\
    contains_nan r = contains_nan (cutout_of file_type filepath ra dec sz).
Proof.
  revert cutouts. induction items as [|[key filepath] items IH];
    intros cutouts H; [now left|].
  cbn [fold_left] in H. apply IH in H as [H | (fp & Hin & Hk)].
  - apply add_cutout_lookup in H as [H | (-> & Hk)]; [now left|].
    right. exists filepath. split; [now left | exact Hk].
  - right. exists fp. split; [now right | exact Hk].
Qed.

Lemma cutout_tile_found (fs : node) (tile_id : string) (ra dec : Q)
    (sz : size) (file_type : string) (mer_root : path)
    (instruments bands : option (list string)) (skip_nan : bool)
    (files : gmap string path) :
  find_files fs tile_id file_type mer_root instruments bands = Ok files ->
  let cutouts :=
    fold_left (add_cutout file_type ra dec sz skip_nan)
      (map_to_list files) ∅ in
  let res := cutout_tile fs tile_id ra dec sz file_type mer_root
               instruments bands skip_nan in
  (t_cutouts res = cutouts) /\
  (t_success res = bool_decide (cutouts <> ∅)) /\
  (t_success res = false -> is_Some (t_error res)).
Proof.
  intros Hfind cutouts res. subst res. unfold cutout_tile.
  rewrite Hfind. cbn [mbind result_bind try_except].
  destruct (decide (files = ∅)) as [-> | Hne].
  - rewrite bool_decide_eq_true_2 by reflexivity. cbn.
    subst cutouts. rewrite map_to_list_empty. cbn.
    repeat split; eauto.
  - rewrite bool_decide_eq_false_2 by exact Hne. fold cutouts.
    destruct (decide (cutouts = ∅)) as [E | E].
    + rewrite bool_decide_eq_true_2 by exact E. cbn.
      rewrite bool_decide_eq_false_2 by tauto. repeat split; eauto.
    + rewrite bool_decide_eq_false_2 by exact E. cbn.
      rewrite bool_decide_eq_true_2 by exact E. repeat split; congruence.
Qed.

(** C5.  With [skip_nan] enabled, a file whose extraction succeeds but
    whose data holds an invalid value is left out of the returned
    mapping, and whatever the mapping holds is a successful, NaN-free
    extraction.  If every candidate file is left out or fails - or no
    candidate is found at all - [cutout_tile] reports failure with an
    error message. *)
Theorem cutout_tile_skips_invalid (fs : node) (tile_id : string)
    (ra dec : Q) (sz : size) (file_type : string) (mer_root : path)
    (instruments bands : option (list string)) :
  let res := cutout_tile fs tile_id ra dec sz file_type mer_root
               instruments bands true in
  (forall files key filepath,
      find_files fs tile_id file_type mer_root instruments bands = Ok files ->
      files !! key = Some filepath ->
      success (cutout_of file_type filepath ra dec sz) = true ->
      contains_nan (cutout_of file_type filepath ra dec sz) = true ->
      t_cutouts res !! key = None) /\
  (forall key r, t_cutouts res !! key = Some r ->
                 success r = true /\ contains_nan r = false) /\
  (forall files,
      find_files fs tile_id file_type mer_root instruments bands = Ok files ->
      (forall key filepath,
          files !! key = Some filepath ->
          success (cutout_of file_type filepath ra dec sz) = false \/
          contains_nan (cutout_of file_type filepath ra dec sz) = true) ->
      t_success res = false /\ is_Some (t_error res)) /\
  (forall e,
      find_files fs tile_id file_type mer_root instruments bands = Raise e ->
      t_success res = false /\ is_Some (t_error res)).
Proof.
  intros res.
  assert (Hkept : forall files k r,
             find_files fs tile_id file_type mer_root instruments bands
               = Ok files ->
             t_cutouts res !! k = Some r ->
             exists filepath,
               files !! k = Some filepath /\
               kept file_type ra dec sz true filepath /\
               success r = true /\
               contains_nan r
               = contains_nan (cutout_of file_type filepath ra dec sz)).
  { intros files k r Hfind Hr.
    destruct (cutout_tile_found fs tile_id ra dec sz file_type mer_root
                instruments bands true files Hfind) as (Hc & _).
    fold res in Hc. rewrite Hc in Hr.
    apply add_cutouts_lookup in Hr as [Hr | (fp & Hin & Hk)].
    - now rewrite lookup_empty in Hr.
    - exists fp. split; [|exact Hk]. now apply elem_of_map_to_list. }
  repeat split.
  - intros files key filepath Hfind Hkey Hs Hn.
    destruct (t_cutouts res !! key) as [r|] eqn:Hr; [|reflexivity].
    destruct (Hkept files key r Hfind Hr) as (fp & Hfp & (_ & Hk) & _).
    assert (fp = filepath) as -> by congruence.
    rewrite Hn in Hk. discriminate Hk.
  - destruct (find_files fs tile_id file_type mer_root instruments bands)
      as [files|e] eqn:Hfind.
    + destruct (Hkept files key r eq_refl H) as (fp & _ & _ & Hs & _).
      exact Hs.
    + subst res. unfold cutout_tile in H. rewrite Hfind in H. cbn in H.
      now rewrite lookup_empty in H.
  - destruct (find_files fs tile_id file_type mer_root instruments bands)
      as [files|e] eqn:Hfind.
    + destruct (Hkept files key r eq_refl H)
        as (fp & _ & (_ & Hk) & _ & Hn).
      rewrite Hn. now rewrite andb_true_r in Hk.
    + subst res. unfold cutout_tile in H. rewrite Hfind in H. cbn in H.
      now rewrite lookup_empty in H.
  - destruct (cutout_tile_found fs tile_id ra dec sz file_type mer_root
                instruments bands true files H) as (Hc & Hsucc & _).
    fold res in Hc, Hsucc. rewrite Hsucc.
    apply bool_decide_eq_false_2. intros Hne. apply Hne.
    apply map_eq. intros k. rewrite lookup_empty.
    destruct (t_cutouts res !! k) as [r|] eqn:Hr;
      [|now rewrite <- Hc, Hr].
    destruct (Hkept files k r H Hr) as (fp & Hfp & (Hs & Hk) & _).
    rewrite andb_true_r in Hk.
    destruct (H0 k fp Hfp); congruence.
  - destruct (cutout_tile_found fs tile_id ra dec sz file_type mer_root
                instruments bands true files H) as (Hc & Hsucc & Herr).
    apply Herr. fold res in Hc, Hsucc |- *. rewrite Hsucc.
    apply bool_decide_eq_false_2. intros Hne. apply Hne.
    apply map_eq. intros k. rewrite lookup_empty.
    destruct (t_cutouts res !! k) as [r|] eqn:Hr;
      [|now rewrite <- Hc, Hr].
    destruct (Hkept files k r H Hr) as (fp & Hfp & (Hs & Hk) & _).
    rewrite andb_true_r in Hk.
    destruct (H0 k fp Hfp); congruence.
  - subst res. unfold cutout_tile. rewrite H. reflexivity.
  - subst res. unfold cutout_tile. rewrite H. cbn. eauto.
Qed.

End TilePolicy.

Section TilePolicyExamples.
Import FileNames Extract TileIndex.

Lemma sample_files :
  find_files sample_archive "102019587" "BGSUB" ["MER"] None None
  = Ok (<["VIS_VIS" := vis_mosaic]> (<["NISP_NIR-Y" := nisp_mosaic]> ∅)).
Proof. vm_compute. reflexivity. Qed.

(** The VIS window holds a NaN and the NISP mosaic cannot be cut: with
    [skip_nan] the tile yields nothing and reports failure. *)
Lemma cutout_tile_skips_invalid_witness :
  let res := @cutout_tile taxicab (archive_with (stamp_file 4 5 5))
               sample_archive "102019587" 11 1 (Square 4) "BGSUB" ["MER"]
               None None true in
  t_cutouts res !! "VIS_VIS" = None /\
  t_success res = false /\ is_Some (t_error res).
Proof.
  intros res.
  destruct (@cutout_tile_skips_invalid taxicab
              (archive_with (stamp_file 4 5 5)) sample_archive "102019587"
              11 1 (Square 4) "BGSUB" ["MER"] None None)
    as (Hskip & _ & Hall & _).
  split.
  - apply (Hskip _ "VIS_VIS" vis_mosaic sample_files);
      vm_compute; reflexivity.
  - apply (Hall _ sample_files). intros key filepath Hk.
    destruct (decide (key = "VIS_VIS")) as [-> | N1].
    + rewrite lookup_insert_eq in Hk. injection Hk as <-.
      right. vm_compute. reflexivity.
    + rewrite lookup_insert_ne in Hk by congruence.
      destruct (decide (key = "NISP_NIR-Y")) as [-> | N2].
      * rewrite lookup_insert_eq in Hk. injection Hk as <-.
        left. vm_compute. reflexivity.
      * rewrite lookup_insert_ne in Hk by congruence.
        now rewrite lookup_empty in Hk.
Defined.

(** Without the policy the same window is returned. *)
Example cutout_tile_keeps_when_allowed :
  t_success (@cutout_tile taxicab (archive_with (stamp_file 4 5 5))
               sample_archive "102019587" 11 1 (Square 4) "BGSUB" ["MER"]
               None None false) = true.
Proof. vm_compute. reflexivity. Qed.

End TilePolicyExamples.

(** ** Bounded failure samples *)

Section BatchProperties.
Import Batch.

Lemma capped_insert (stats : gmap string file_stats) (ft : string)
    (st : file_stats) :
  capped stats -> (length (errors st) <= 10)%nat ->
  capped (<[ft := st]> stats).
Proof.
  intros Hc Hst k s. destruct (decide (k = ft)) as [-> | Hne].
  - rewrite lookup_insert_eq. now intros [= <-].
  - rewrite lookup_insert_ne by congruence. apply Hc.
Qed.

Lemma sample_error_capped (verbose : bool) (msg : string) (s : file_stats) :
  (length (errors s) <= 10)%nat ->
  (length (errors (sample_error verbose msg s)) <= 10)%nat.
Proof.
  intros H. unfold sample_error.
  destruct (verbose && (length (errors s) <? 10)%nat) eqn:E; [|exact H].
  apply andb_true_iff in E as [_ E]. apply Nat.ltb_lt in E.
  cbn. rewrite length_app. cbn. lia.
Qed.

Lemma initial_stats_capped (file_types : list string) :
  capped (initial_stats file_types).
Proof.
  unfold initial_stats.
  induction file_types as [|ft fts IH]; intros k s; cbn.
  - now rewrite lookup_empty.
  - destruct (decide (k = ft)) as [-> | Hne].
    + rewrite lookup_insert_eq. intros [= <-]. cbn. lia.
    + rewrite lookup_insert_ne by congruence. apply IH.
Qed.

Lemma record_status_capped (verbose : bool) (obj_id : string)
    (stats stats' : gmap string file_stats) (item : string * string) :
  capped stats ->
  record_status verbose obj_id stats item = Ok stats' -> capped stats'.
Proof.
  intros Hc. unfold record_status. destruct item as [file_type status].
  destruct (stats !! file_type) as [s|] eqn:Hs; [|discriminate].
  destruct (String.eqb status "success"); intros [= <-];
    apply capped_insert; try exact Hc.
  - exact (Hc _ _ Hs).
  - apply sample_error_capped. exact (Hc _ _ Hs).
Qed.

Lemma record_results_capped (verbose : bool) (obj_id : string)
    (results : list (string * string)) (stats : gmap string file_stats) :
  capped stats ->
  capped (fst (record_results verbose obj_id results stats)).
Proof.
  revert stats. induction results as [|item rest IH]; intros stats Hc;
    cbn [record_results]; [exact Hc|].
  destruct (record_status verbose obj_id stats item) as [stats'|e] eqn:E.
  - apply IH. eapply record_status_capped; eassumption.
  - exact Hc.
Qed.

Lemma fail_all_capped (file_types : list string)
    (stats : gmap string file_stats) :
  capped stats -> capped (fail_all file_types stats).
Proof.
  unfold fail_all. revert stats.
  induction file_types as [|ft fts IH]; intros stats Hc; [exact Hc|].
  cbn [fold_left]. apply IH. intros k s.
  destruct (decide (k = ft)) as [-> | Hne].
  - rewrite lookup_alter_eq.
    destruct (stats !! ft) as [s0|] eqn:E; [|discriminate].
    intros [= <-]. exact (Hc _ _ E).
  - rewrite lookup_alter_ne by congruence. apply Hc.
Qed.

Lemma absorb_capped (verbose : bool) (file_types : list string)
    (stats : gmap string file_stats) (o : outcome) :
  capped stats -> capped (absorb verbose file_types stats o).
Proof.
  intros Hc. destruct o as [obj_id results | e]; cbn [absorb].
  - pose proof (record_results_capped verbose obj_id results stats Hc) as H.
    destruct (record_results verbose obj_id results stats) as [stats' [e|]];
      cbn in H; [now apply fail_all_capped | exact H].
  - now apply fail_all_capped.
Qed.

(** C9.  At every point of a run of [process_catalog] - after any number
    of per-source outcomes, in any completion order - the [errors] list
    of every file type holds at most 10 entries. *)
Theorem process_catalog_errors_bounded (verbose : bool)
    (file_types : list string) (outcomes : list outcome) (n : nat)
    (ft : string) (st : file_stats) :
  process_catalog verbose file_types (take n outcomes) !! ft = Some st ->
  (length (errors st) <= 10)%nat.
Proof.
  unfold process_catalog.
  assert (H : forall os stats, capped stats ->
                capped (fold_left (absorb verbose file_types) os stats)).
  { induction os as [|o os IH]; intros stats Hc; [exact Hc|].
    cbn [fold_left]. apply IH. now apply absorb_capped. }
  apply (H (take n outcomes) _ (initial_stats_capped file_types)).
Qed.

(** The statistics keep one entry per requested file type, so the
    [except] branch always finds the entries it updates. *)
Lemma process_catalog_keys (verbose : bool) (file_types : list string)
    (outcomes : list outcome) (ft : string) :
  is_Some (process_catalog verbose file_types outcomes !! ft)
  <-> ft ∈ file_types.
Proof.
  unfold process_catalog.
  assert (Hinit : is_Some (initial_stats file_types !! ft) <-> ft ∈ file_types).
  { unfold initial_stats. induction file_types as [|x fts IH]; cbn.
    - rewrite lookup_empty. split; [intros [? [=]] | intros H; inversion H].
    - destruct (decide (ft = x)) as [-> | Hne].
      + rewrite lookup_insert_eq. split; eauto. intros _. now left.
      + rewrite lookup_insert_ne by congruence. rewrite IH.
        rewrite elem_of_cons. tauto. }
  rewrite <- Hinit. generalize (initial_stats file_types) as stats.
  assert (Hfail : forall fts stats,
             is_Some (fail_all fts stats !! ft) <-> is_Some (stats !! ft)).
  { unfold fail_all. induction fts as [|x fts IH]; intros stats; [reflexivity|].
    cbn [fold_left]. rewrite IH.
    destruct (decide (ft = x)) as [-> | Hne].
    - rewrite lookup_alter_eq. now rewrite fmap_is_Some.
    - now rewrite lookup_alter_ne by congruence. }
  assert (Hrec : forall obj results stats,
             is_Some (fst (record_results verbose obj results stats) !! ft)
             <-> is_Some (stats !! ft)).
  { induction results as [|[k status] rest IH]; intros stats; [reflexivity|].
    cbn [record_results record_status].
    destruct (stats !! k) as [s|] eqn:Hs; [|reflexivity].
    destruct (String.eqb status "success"); rewrite IH;
      (destruct (decide (ft = k)) as [-> | Hne];
       [rewrite lookup_insert_eq, Hs; split; eauto
       |now rewrite lookup_insert_ne by congruence]). }
  induction outcomes as [|o os IH]; intros stats; [reflexivity|].
  cbn [fold_left]. rewrite IH.
  destruct o as [obj results | e]; cbn [absorb]; [|apply Hfail].
  specialize (Hrec obj results stats).
  destruct (record_results verbose obj results stats) as [stats' [e|]];
    cbn in Hrec; [now rewrite Hfail | exact Hrec].
Qed.

Lemma process_catalog_errors_bounded_witness :
  exists st,
    process_catalog true ["BGSUB"] twelve_failures !! "BGSUB" = Some st
    /\ n_failed st = 12%nat
    /\ (length (errors st) <= 10)%nat.
Proof.
  assert (E : exists st,
             process_catalog true ["BGSUB"] (take 12 twelve_failures)
               !! "BGSUB" = Some st /\ n_failed st = 12%nat).
  { vm_compute. eexists. split; reflexivity. }
  destruct E as (st & Hst & Hn). exists st.
  split; [exact Hst|]. split; [exact Hn|].
  exact (process_catalog_errors_bounded true ["BGSUB"] twelve_failures 12
           "BGSUB" st Hst).
Defined.

End BatchProperties.

(** ** Cache keys *)

Section CacheKeyProperties.
Import Cache Shapes.
Context `{F : PyFormat}.

Lemma round_half_even_proper (x y : Q) :
  (x == y)%Q -> round_half_even x = round_half_even y.
Proof.
  intros E. unfold round_half_even.
  rewrite (Qfloor_comp _ _ E).
  assert (Ec : Qcompare (x - inject_Z (Qfloor y)) (1 # 2)
               = Qcompare (y - inject_Z (Qfloor y)) (1 # 2)).
  { apply Qcompare_comp; [now rewrite E | reflexivity]. }
  now rewrite Ec.
Qed.

(** Equal numbers round to the same value, whatever fraction writes them. *)
Lemma round6_proper (x y : Q) : (x == y)%Q -> round6 x = round6 y.
Proof.
  intros E. unfold round6.
  assert (R : round_half_even (x * 1000000) = round_half_even (y * 1000000))
    by (apply round_half_even_proper; now rewrite E).
  assert (S : Qle_bool 0 x = Qle_bool 0 y).
  { destruct (Qle_bool 0 x) eqn:Hx, (Qle_bool 0 y) eqn:Hy; try reflexivity.
    - apply Qle_bool_iff in Hx. rewrite E in Hx.
      apply Qle_bool_iff in Hx. congruence.
    - apply Qle_bool_iff in Hy. rewrite <- E in Hy.
      apply Qle_bool_iff in Hy. congruence. }
  rewrite R, S. destruct (_ && _); reflexivity.
Qed.

Lemma cache_key_unfold (ra dec : Q) (size : Z)
    (instrument file_type : string) (band : option string) :
  generate_source_cache_key ra dec size instrument file_type band
  = ("ra_" ++ float_repr (round6 ra)) ++ "_"
    ++ ("dec_" ++ float_repr (round6 dec)) ++ "_"
    ++ ("size_" ++ pretty size) ++ "_"
    ++ ("inst_" ++ instrument) ++ "_"
    ++ ("type_" ++ file_type) ++ "_"
    ++ ("band_" ++ band_str band).
Proof. reflexivity. Qed.

(** The negative zero never prints as zero does. *)
Lemma float_repr_negative_zero (s t : string) :
  float_repr NegZero ++ s <> float_repr (Fin 0) ++ t \/
  String.length s <> String.length t.
Proof.
  destruct (Nat.eq_dec (String.length s) (String.length t)) as [E|N];
    [left | now right].
  intros K. apply (f_equal String.length) in K.
  cbn [float_repr] in K. rewrite append_assoc, !length_append in K.
  cbn in K. lia.
Qed.

(** The bands of the instruments are not empty and not 'unknown'. *)
Lemma band_map_names (instrument band : string) :
  band ∈ default [] (band_map !! instrument) ->
  band <> EmptyString /\ band <> "unknown".
Proof.
  intros Hb.
  assert (Hall : forall i bs, band_map !! i = Some bs ->
                   forall b, b ∈ bs -> b <> EmptyString /\ b <> "unknown").
  { intros i bs Hi. unfold band_map in Hi.
    apply elem_of_list_to_map_2 in Hi.
    repeat (apply elem_of_cons in Hi as [Hi|Hi];
            [injection Hi as -> ->; intros b Hin;
             repeat (apply elem_of_cons in Hin as [->|Hin];
                     [split; discriminate|]);
             now apply elem_of_nil in Hin|]).
    now apply elem_of_nil in Hi. }
  destruct (band_map !! instrument) as [bs|] eqn:E.
  - exact (Hall instrument bs E band Hb).
  - now apply elem_of_nil in Hb.
Qed.

(** Among the bands a request can carry, the band as keyed tells the
    bands apart. *)
Lemma band_str_requestable (band1 band2 : option string) :
  requestable_band band1 -> requestable_band band2 ->
  band_str band1 = band_str band2 -> band1 = band2.
Proof.
  unfold band_str.
  destruct band1 as [b1|], band2 as [b2|]; cbn [requestable_band or_default].
  - intros (i1 & H1) (i2 & H2).
    destruct (band_map_names i1 b1 H1) as [N1 _].
    destruct (band_map_names i2 b2 H2) as [N2 _].
    rewrite (proj2 (String.eqb_neq _ _) N1), (proj2 (String.eqb_neq _ _) N2).
    now intros ->.
  - intros (i1 & H1) _.
    destruct (band_map_names i1 b1 H1) as [N1 U1].
    rewrite (proj2 (String.eqb_neq _ _) N1). contradiction.
  - intros _ (i2 & H2).
    destruct (band_map_names i2 b2 H2) as [N2 U2].
    rewrite (proj2 (String.eqb_neq _ _) N2). intros K. now symmetry in K.
  - reflexivity.
Qed.

(** What the key does determine.  It is a function of the right
    ascension and the declination rounded to six places - each as the
    float Python prints, where the negative zero that a small negative
    coordinate rounds to is another value than zero -, the size, the
    instrument, the product type and the band as it is keyed (an absent
    or empty band reads 'unknown'): two requests that agree on these
    receive the same key.  Two requests for the same target whose bands,
    so read, differ receive different keys; in particular two requests
    for the same target that differ in band do, each band being absent
    or a band of an instrument. *)
Lemma cache_key_fingerprint (ra1 dec1 ra2 dec2 : Q) (size : Z)
    (instrument file_type : string) (band1 band2 : option string) :
  (round6 ra1 = round6 ra2 -> round6 dec1 = round6 dec2 ->
   band_str band1 = band_str band2 ->
   generate_source_cache_key ra1 dec1 size instrument file_type band1
   = generate_source_cache_key ra2 dec2 size instrument file_type band2) /\
  (band_str band1 <> band_str band2 ->
   generate_source_cache_key ra1 dec1 size instrument file_type band1
   <> generate_source_cache_key ra1 dec1 size instrument file_type band2) /\
  (requestable_band band1 -> requestable_band band2 -> band1 <> band2 ->
   generate_source_cache_key ra1 dec1 size instrument file_type band1
   <> generate_source_cache_key ra1 dec1 size instrument file_type band2).
Proof.
  assert (Hapart : band_str band1 <> band_str band2 ->
            generate_source_cache_key ra1 dec1 size instrument file_type band1
            <> generate_source_cache_key ra1 dec1 size instrument file_type
                 band2).
  { intros Hband E. rewrite !cache_key_unfold in E.
    apply Hband.
    repeat (apply append_cancel_l in E).
    exact E. }
  split; [|split].
  - intros Hra Hdec Hband. rewrite !cache_key_unfold.
    now rewrite Hra, Hdec, Hband.
  - exact Hapart.
  - intros H1 H2 Hne. apply Hapart. intros Hs. apply Hne.
    now apply band_str_requestable.
Qed.

End CacheKeyProperties.

Section CacheKeyExamples.
Import Cache Shapes.

Lemma cache_key_fingerprint_samples :
  @generate_source_cache_key plain_format (1501234564 # 10000000)
    (22 # 10) 128 "VIS" "BGSUB" (Some "VIS")
  = @generate_source_cache_key plain_format (15012345641 # 100000000)
      (219999996 # 100000000) 128 "VIS" "BGSUB" (Some "VIS")
  /\ @generate_source_cache_key plain_format (1501234564 # 10000000)
       (22 # 10) 128 "NISP" "BGSUB" (Some "NIR-Y")
     <> @generate_source_cache_key plain_format (1501234564 # 10000000)
          (22 # 10) 128 "NISP" "BGSUB" (Some "NIR-J")
  /\ @generate_source_cache_key plain_format (1501234564 # 10000000)
       (22 # 10) 128 "NISP" "BGSUB" (Some "NIR-Y")
     <> @generate_source_cache_key plain_format (1501234564 # 10000000)
          (22 # 10) 128 "NISP" "BGSUB" None.
Proof.
  split; [|split].
  - apply (@cache_key_fingerprint plain_format); vm_compute; reflexivity.
  - destruct (@cache_key_fingerprint plain_format (1501234564 # 10000000)
                (22 # 10) 0 0 128 "NISP" "BGSUB" (Some "NIR-Y")
                (Some "NIR-J")) as (_ & Hstr & _).
    apply Hstr. vm_compute. discriminate.
  - destruct (@cache_key_fingerprint plain_format (1501234564 # 10000000)
                (22 # 10) 0 0 128 "NISP" "BGSUB" (Some "NIR-Y") None)
      as (_ & _ & Hband).
    apply Hband; [|exact I|discriminate].
    exists "NISP". vm_compute.
    apply list_elem_of_In. cbn. tauto.
Defined.

Example cache_key_sample :
  @generate_source_cache_key plain_format (1501234564 # 10000000)
    (22 # 10) 128 "VIS" "BGSUB" (Some "VIS")
  = "ra_150.123456_dec_2.2_size_128_inst_VIS_type_BGSUB_band_VIS".
Proof. vm_compute. reflexivity. Qed.

(** C7 at a coordinate that rounds to zero from below.  A declination
    of -0.0000001 degrees and one of 0.0000001 degrees both round to
    zero at six places, and Python compares the two rounded values
    equal; but the first is the negative zero, printed [-0.0], so the
    two requests, which agree on every component after rounding, receive
    different keys - whatever the other components are and however
    floats are printed otherwise. *)
Theorem cache_key_signed_zero :
  (float_value (round6 (-1 # 10000000))
   == float_value (round6 (1 # 10000000)))%Q /\
  @generate_source_cache_key plain_format 0 (-1 # 10000000) 128 "VIS"
    "BGSUB" (Some "VIS")
  = "ra_0.0_dec_-0.0_size_128_inst_VIS_type_BGSUB_band_VIS" /\
  @generate_source_cache_key plain_format 0 (1 # 10000000) 128 "VIS"
    "BGSUB" (Some "VIS")
  = "ra_0.0_dec_0.0_size_128_inst_VIS_type_BGSUB_band_VIS" /\
  forall (F : PyFormat) (ra : Q) (size : Z)
         (instrument file_type : string) (band : option string),
    generate_source_cache_key ra (-1 # 10000000) size instrument file_type
      band
    <> generate_source_cache_key ra (1 # 10000000) size instrument file_type
         band.
Proof.
  split; [vm_compute; reflexivity|].
  split; [vm_compute; reflexivity|].
  split; [vm_compute; reflexivity|].
  intros F ra size instrument file_type band E.
  rewrite !cache_key_unfold in E.
  replace (round6 (-1 # 10000000)) with NegZero in E
    by (vm_compute; reflexivity).
  replace (round6 (1 # 10000000)) with (Fin 0) in E
    by (vm_compute; reflexivity).
  do 2 apply append_cancel_l in E.
  rewrite !append_assoc in E. apply append_cancel_l in E.
  destruct (float_repr_negative_zero
              ("_" ++ "size_" ++ pretty size ++ "_" ++ "inst_" ++ instrument
               ++ "_" ++ "type_" ++ file_type ++ "_" ++ "band_"
               ++ band_str band)
              ("_" ++ "size_" ++ pretty size ++ "_" ++ "inst_" ++ instrument
               ++ "_" ++ "type_" ++ file_type ++ "_" ++ "band_"
               ++ band_str band)) as [N|N];
    [now apply N | now apply N].
Qed.

End CacheKeyExamples.

(** ** The cached task pipeline *)

Section PipelineProperties.
Import Cache.
Context `{F : PyFormat} `{O : SetOrder} `{E : CutoutEngine}.

Lemma same_cache_tier_refl (fs : gmap fpath fits_file) :
  same_cache_tier fs fs.
Proof. now intros i t n. Qed.

Lemma same_cache_tier_trans (a b c : gmap fpath fits_file) :
  same_cache_tier a b -> same_cache_tier b c -> same_cache_tier a c.
Proof. intros H1 H2 i t n. now rewrite H2, H1. Qed.

Lemma store_artifact_cache_tier (task_id file_band output_filename : string)
    (content : fits_file) (fs : gmap fpath fits_file) :
  same_cache_tier fs
    (store_artifact task_id file_band output_filename content fs).
Proof.
  intros i t n. unfold store_artifact.
  destruct (bool_decide _);
    now rewrite ?lookup_insert_ne by discriminate.
Qed.

Lemma fold_cache_tier {X} (f : gmap fpath fits_file -> X -> gmap fpath fits_file)
    (l : list X) (fs : gmap fpath fits_file) :
  (forall fs x, same_cache_tier fs (f fs x)) ->
  same_cache_tier fs (fold_left f l fs).
Proof.
  intros Hf. revert fs. induction l as [|x l IH]; intros fs;
    [apply same_cache_tier_refl|].
  cbn [fold_left]. eapply same_cache_tier_trans; [apply Hf | apply IH].
Qed.

Lemma persist_new_cache_tier (task_id : string) (cfg : task_config)
    (catalog : list source) (temp : list temp_file)
    (fs : gmap fpath fits_file) :
  same_cache_tier fs (persist_new task_id cfg catalog temp fs).
Proof.
  unfold persist_new.
  apply fold_cache_tier. intros fs1 s.
  apply fold_cache_tier. intros fs2 ft.
  apply fold_cache_tier. intros fs3 f.
  destruct (cfg_instruments cfg);
    [apply same_cache_tier_refl | apply store_artifact_cache_tier].
Qed.

Lemma copy_cached_cache_tier (task_id : string)
    (l : list cache_hit) (fs : gmap fpath fits_file) (bound : bool) :
  same_cache_tier fs (fst (fold_left (copy_cached task_id) l (fs, bound))).
Proof.
  revert fs bound. induction l as [|c l IH]; intros fs bound;
    [apply same_cache_tier_refl|].
  cbn [fold_left]. unfold copy_cached at 2.
  destruct (bound || _); [destruct (fs !! c_file c)|];
    try apply IH.
  eapply same_cache_tier_trans;
    [apply store_artifact_cache_tier | apply IH].
Qed.

Lemma copy_permanent_cache_tier (task_id : string)
    (fs : gmap fpath fits_file) (h : band_hit) :
  same_cache_tier fs (copy_permanent task_id fs h).
Proof.
  unfold copy_permanent.
  destruct (fs !! b_file h);
    [apply store_artifact_cache_tier | apply same_cache_tier_refl].
Qed.

Lemma rmtree_output_lookup (task_id : string) (fs : gmap fpath fits_file)
    (p : fpath) :
  rmtree_output task_id fs !! p
  = if outside_output task_id p then fs !! p else None.
Proof.
  unfold rmtree_output. rewrite map_lookup_filter.
  destruct (fs !! p) as [x|]; cbn [mbind option_bind fst];
    [|now destruct (outside_output task_id p)].
  destruct (outside_output task_id p).
  - now rewrite option_guard_True.
  - now rewrite option_guard_False.
Qed.

(** No step of [process_task] writes into the per-run cache tier. *)
Lemma process_task_cache_tier (fs : gmap fpath fits_file)
    (task_id : string) (table : result (list source)) (cfg : task_config) :
  same_cache_tier fs (fs_after (process_task fs task_id table cfg)).
Proof.
  unfold process_task.
  destruct (bool_decide (is_Some (fs !! PermanentZip task_id)));
    [apply same_cache_tier_refl|].
  destruct table as [catalog|e]; [|apply same_cache_tier_refl].
  cbv zeta.
  assert (Hrest : forall fs1, same_cache_tier fs fs1 ->
            same_cache_tier fs
              (rmtree_output task_id
                 (<[OutputZip task_id := zip_archive]>
                    (<[PermanentZip task_id := zip_archive]>
                       (fold_left (copy_permanent task_id)
                          (permanent_cached_files
                             (scan_band_cache fs (target_ids_of catalog)
                                (cfg_instruments cfg) (cfg_file_types cfg)
                                [or_default (cfg_band cfg) "VIS"])
                             cfg catalog)
                          (fst (fold_left (copy_cached task_id)
                                  (cached_sources_info (plan fs cfg catalog))
                                  (fs1, false)))))))).
  { intros fs1 H1 i t n. rewrite rmtree_output_lookup. cbn [outside_output].
    rewrite !lookup_insert_ne by discriminate.
    rewrite (fold_cache_tier _ _ _ (copy_permanent_cache_tier task_id)).
    rewrite copy_cached_cache_tier. apply H1. }
  destruct (sources_to_process (plan fs cfg catalog)) as [|j jobs].
  - cbn [fs_after]. apply Hrest, same_cache_tier_refl.
  - destruct (process_catalog_files _ cfg) as [temp|e];
      cbn [mbind result_bind fs_after]; [|apply same_cache_tier_refl].
    apply Hrest, persist_new_cache_tier.
Qed.

(** Planning reads nothing but the per-run cache tier. *)
Lemma plan_cache_tier (fs fs' : gmap fpath fits_file) (cfg : task_config)
    (catalog : list source) :
  same_cache_tier fs fs' -> plan fs' cfg catalog = plan fs cfg catalog.
Proof.
  intros Hsame. unfold plan.
  apply flat_map_ext. intros [i s].
  destruct (s_masked s); [reflexivity|]. unfold plan_source.
  apply flat_map_ext. intros instrument.
  apply map_ext. intros file_type. cbv zeta.
  now rewrite Hsame.
Qed.

(** A second request for the same catalog, served by the stores the
    first request left behind, plans the same extraction jobs and calls
    the extraction engine on the same rows. *)
Lemma process_task_repeats_extraction (fs : gmap fpath fits_file)
    (task_id1 task_id2 : string) (catalog : list source)
    (cfg : task_config) :
  let r1 := process_task fs task_id1 (Ok catalog) cfg in
  let r2 := process_task (fs_after r1) task_id2 (Ok catalog) cfg in
  fs !! PermanentZip task_id1 = None ->
  fs_after r1 !! PermanentZip task_id2 = None ->
  sources_to_process (plan (fs_after r1) cfg catalog)
  = sources_to_process (plan fs cfg catalog)
  /\ extraction_calls r2 = extraction_calls r1.
Proof.
  intros r1 r2 Hz1 Hz2.
  assert (Hplan : plan (fs_after r1) cfg catalog = plan fs cfg catalog)
    by apply plan_cache_tier, process_task_cache_tier.
  split; [now rewrite Hplan|].
  subst r2. unfold process_task at 1.
  rewrite bool_decide_eq_false_2 by (rewrite Hz2; now intros [? [=]]).
  cbv zeta. rewrite Hplan.
  subst r1. unfold process_task.
  rewrite bool_decide_eq_false_2 by (rewrite Hz1; now intros [? [=]]).
  cbv zeta.
  destruct (sources_to_process (plan fs cfg catalog)) as [|j jobs].
  - reflexivity.
  - destruct (process_catalog_files _ cfg); reflexivity.
Qed.

End PipelineProperties.

Section PipelineExamples.
Import Cache.

(** C1 at a concrete request.  The first request misses the cache and
    extracts; its artifact reaches the permanent tier but not the
    per-run tier; the second request for the same fingerprint finds the
    per-run tier still empty and calls the extraction engine again,
    although the permanent tier holds the artifact. *)
Theorem process_task_second_request_reextracts :
  extraction_calls first_run = [[sample_source]] /\
  is_Some (fs_after first_run
             !! BandCacheFile "VIS" "2687494719_VIS_BGSUB.fits") /\
  fs_after first_run !! sample_cache_file = None /\
  scan_band_cache (fs_after first_run) ["2687494719"] ["VIS"] ["BGSUB"]
    ["VIS"] <> [] /\
  extraction_calls second_run = [[sample_source]].
Proof.
  split; [vm_compute; reflexivity|].
  split; [vm_compute; eauto|].
  split; [vm_compute; reflexivity|].
  split; [vm_compute; discriminate|].
  vm_compute; reflexivity.
Qed.

End PipelineExamples.

(** ** The task registry *)

Section TaskProperties.
Import Tasks.

Lemma create_task_status (task_id : string) (tasks : gmap string task) :
  status_of task_id (create_task task_id tasks) = Some "pending".
Proof. unfold status_of, create_task. now rewrite lookup_insert_eq. Qed.

Lemma pending_not_a_status (m : TaskStatus) : value m <> "pending".
Proof. destruct m; discriminate. Qed.

(** C8 on the code.  [create_task] registers every task with status
    'pending', which is not a value of the status enumeration (reading
    it back as a [TaskStatus] raises); and the executor overwrites the
    status of a cancelled task, so that 'cancelled' is followed by
    'processing' and 'completed'. *)
Theorem create_task_enters_pending :
  (forall task_id tasks,
      status_of task_id (create_task task_id tasks) = Some "pending") /\
  (forall m : TaskStatus, value m <> "pending") /\
  TaskStatus_of "pending"
  = Raise (ValueError "'pending' is not a valid TaskStatus") /\
  TaskStatus_of "queued" = Ok QUEUED /\
  map (fun n => status_of "t1" (run (take n cancelled_then_run) ∅))
      [1; 2; 3; 4]%nat
  = [Some "pending"; Some "cancelled"; Some "processing"; Some "completed"].
Proof.
  split; [exact create_task_status|].
  split; [exact pending_not_a_status|].
  repeat split; vm_compute; reflexivity.
Qed.

(** Apart from the initial 'pending', every status the registry is
    given is a value of the enumeration. *)
Lemma exec_status_in_enum (now : nat) (task_id : string) (s : exec_step)
    (tasks : gmap string task) (t : task) :
  tasks !! task_id = Some t ->
  exists m : TaskStatus,
    status_of task_id (exec now task_id s tasks) = Some (value m).
Proof.
  intros Ht. unfold status_of.
  destruct s; cbn [exec]; unfold _update_status, use_cached_result;
    rewrite lookup_alter_eq, Ht; cbn.
  - exists PROCESSING. now destruct (bool_decide (start_time t = None)).
  - now exists COMPLETED.
  - exists PROCESSING.
    now destruct (String.eqb msg EmptyString), (bool_decide (start_time _ = None)).
  - now exists COMPLETED.
  - now exists FAILED.
Qed.

Lemma cancel_status_in_enum (task_id : string) (tasks : gmap string task) :
  snd (cancel_task task_id tasks) = true ->
  status_of task_id (fst (cancel_task task_id tasks))
  = Some (value CANCELLED).
Proof.
  unfold cancel_task, status_of.
  destruct (tasks !! task_id) as [t|]; [|discriminate].
  destruct (bool_decide _); [discriminate|].
  cbn. now rewrite lookup_insert_eq.
Qed.

End TaskProperties.

(** ** More on file-name resolution *)

Section FindFilesEntries.
Import FileNames Shapes.

(** An invariant of a [for] loop whose body may raise *)
Lemma for_each_invariant {A S} (P : S -> Prop) (f : S -> A -> result S)
    (l : list A) (s s' : S) :
  (forall s x s1, x ∈ l -> P s -> f s x = Ok s1 -> P s1) ->
  P s -> for_each f l s = Ok s' -> P s'.
Proof.
  revert s. induction l as [|x l IH]; intros s Hstep Hs E; cbn [for_each] in E.
  - now injection E as <-.
  - destruct (f s x) as [s1|e] eqn:Ef; [|discriminate].
    cbn in E. apply (IH s1); [| |exact E].
    + intros s2 y s3 Hy. apply Hstep. now right.
    + apply (Hstep s x s1); [now left|exact Hs|exact Ef].
Qed.

Lemma add_files_entries (fs : node) (mer_dir : path) (file_type : string)
    (instruments bands : option (list string)) (d : string)
    (names cand : list string) (acc : gmap string path) :
  selected_dir fs mer_dir instruments d = true ->
  os_listdir fs (mer_dir ++ [d])%list = Ok names ->
  (forall f, f ∈ cand -> f ∈ names /\ is_candidate file_type f = true) ->
  (forall key p, acc !! key = Some p ->
                 entry_of fs mer_dir file_type instruments bands key p) ->
  forall key p,
    fold_left (add_file file_type bands d (mer_dir ++ [d])%list) cand acc
      !! key = Some p ->
    entry_of fs mer_dir file_type instruments bands key p.
Proof.
  intros Hd Hl. revert acc.
  induction cand as [|f cand IH]; intros acc Hc Hacc key p; cbn [fold_left].
  - apply Hacc.
  - apply IH; [intros g Hg; apply Hc; now right|].
    intros k q. unfold add_file.
    destruct (_parse_filename f file_type) as [[i b]|] eqn:Hp; [|apply Hacc].
    destruct (passes bands (full_band i b)) eqn:Hb; [|apply Hacc].
    destruct (decide (k = d ++ "_" ++ full_band i b)) as [->|Hk].
    + rewrite lookup_insert_eq. intros [= <-].
      destruct (Hc f) as [Hin Hcand]; [now left|].
      exists d, names, f, i, b. rewrite <- app_assoc. now repeat split.
    + rewrite lookup_insert_ne by congruence. apply Hacc.
Qed.

Lemma scan_instrument_dir_entries (fs : node) (mer_dir : path)
    (file_type : string) (instruments bands : option (list string))
    (acc acc' : gmap string path) (d : string) :
  (forall key p, acc !! key = Some p ->
                 entry_of fs mer_dir file_type instruments bands key p) ->
  scan_instrument_dir fs mer_dir file_type instruments bands acc d = Ok acc' ->
  forall key p, acc' !! key = Some p ->
                entry_of fs mer_dir file_type instruments bands key p.
Proof.
  intros Hacc. unfold scan_instrument_dir.
  destruct (os_path_isdir fs (mer_dir ++ [d])%list) eqn:Hd;
    [|intros [= <-]; exact Hacc].
  destruct (passes instruments d) eqn:Hp; [|intros [= <-]; exact Hacc].
  cbn [negb].
  destruct (os_listdir fs (mer_dir ++ [d])%list) as [names|e] eqn:Hl;
    [|discriminate].
  cbn. intros [= <-].
  apply (add_files_entries fs mer_dir file_type instruments bands d names);
    try assumption.
  - unfold selected_dir. now rewrite Hd, Hp.
  - intros f Hf. apply list_elem_of_In, filter_In in Hf as [Hf Hc].
    split; [now apply list_elem_of_In|exact Hc].
Qed.

Lemma find_files_entries (fs : node) (tile_id file_type : string)
    (mer_root : path) (instruments bands : option (list string))
    (files : gmap string path) (key : string) (p : path) :
  find_files fs tile_id file_type mer_root instruments bands = Ok files ->
  files !! key = Some p ->
  entry_of fs (mer_root ++ [tile_id])%list file_type instruments bands key p.
Proof.
  unfold find_files.
  destruct (os_path_exists fs (mer_root ++ [tile_id])%list);
    cbn [negb]; [|intros [= <-]; now rewrite lookup_empty].
  destruct (os_listdir fs (mer_root ++ [tile_id])%list) as [dirs|e];
    [|discriminate].
  cbn. intros E. revert key p.
  refine (for_each_invariant
            (fun m => forall key p, m !! key = Some p ->
               entry_of fs (mer_root ++ [tile_id])%list file_type instruments
                 bands key p) _ dirs ∅ files _ _ E).
  - intros s d s1 _ Hs Hstep. eapply scan_instrument_dir_entries; eauto.
  - intros key p. now rewrite lookup_empty.
Qed.

(** X1.  Every entry of the mapping [find_files] returns names a file
    [mer_root/tile_id/<dir>/<file>] that is listed in a directory of the
    tile which passes the instrument filter; the file name contains the
    product-type pattern, ends in [.fits] and is never a [FINAL-CAT]
    catalog; the band parsed from the name passes the band filter, and
    the key is the directory name, an underscore and that band. *)
Theorem find_files_sound (fs : node) (tile_id file_type : string)
    (mer_root : path) (instruments bands : option (list string))
    (files : gmap string path) (key : string) (p : path) :
  find_files fs tile_id file_type mer_root instruments bands = Ok files ->
  files !! key = Some p ->
  exists d names f i b,
    p = (mer_root ++ [tile_id; d; f])%list /\
    os_path_isdir fs (mer_root ++ [tile_id; d])%list = true /\
    passes instruments d = true /\
    os_listdir fs (mer_root ++ [tile_id; d])%list = Ok names /\ f ∈ names /\
    str_contains ("EUC_MER_" ++ _get_file_pattern file_type) f = true /\
    str_endswith ".fits" f = true /\
    str_contains "FINAL-CAT" f = false /\
    _parse_filename f file_type = Some (i, b) /\
    passes bands (full_band i b) = true /\
    key = d ++ "_" ++ full_band i b.
Proof.
  intros E Hk.
  destruct (find_files_entries _ _ _ _ _ _ _ _ _ E Hk)
    as (d & names & f & i & b & -> & Hd & Hl & Hf & Hc & Hp & Hb & ->).
  unfold selected_dir in Hd. apply andb_true_iff in Hd as [Hd Hi].
  unfold is_candidate in Hc.
  apply andb_true_iff in Hc as [Hc Hn]. apply andb_true_iff in Hc as [Hc He].
  apply negb_true_iff in Hn.
  rewrite <- !app_assoc in *. cbn [app] in *.
  exists d, names, f, i, b. now repeat split.
Qed.

Lemma find_files_sound_witness :
  exists d names f i b,
    nisp_mosaic = (["MER"] ++ ["102019587"; d; f])%list /\
    os_path_isdir sample_archive (["MER"] ++ ["102019587"; d])%list = true /\
    passes None d = true /\
    os_listdir sample_archive (["MER"] ++ ["102019587"; d])%list = Ok names /\
    f ∈ names /\
    str_contains ("EUC_MER_" ++ _get_file_pattern "BGSUB") f = true /\
    str_endswith ".fits" f = true /\
    str_contains "FINAL-CAT" f = false /\
    _parse_filename f "BGSUB" = Some (i, b) /\
    passes (Some ["NIR-Y"]) (full_band i b) = true /\
    "NISP_NIR-Y" = d ++ "_" ++ full_band i b.
Proof.
  apply (find_files_sound sample_archive "102019587" "BGSUB" ["MER"] None
           (Some ["NIR-Y"])
           {["NISP_NIR-Y" := nisp_mosaic]} "NISP_NIR-Y" nisp_mosaic).
  - vm_compute. reflexivity.
  - vm_compute. reflexivity.
Defined.

End FindFilesEntries.

Section FindFilesComplete.
Import FileNames Shapes.

Lemma add_files_keeps (file_type : string) (bands : option (list string))
    (d : string) (inst_path : path) (cand : list string)
    (acc : gmap string path) (key : string) :
  is_Some (acc !! key) ->
  is_Some (fold_left (add_file file_type bands d inst_path) cand acc !! key).
Proof.
  revert acc. induction cand as [|f cand IH]; intros acc Hk; [exact Hk|].
  cbn [fold_left]. apply IH. unfold add_file.
  destruct (_parse_filename f file_type) as [[i b]|]; [|exact Hk].
  destruct (passes bands (full_band i b)); [|exact Hk].
  destruct (decide (key = d ++ "_" ++ full_band i b)) as [->|Hne].
  - rewrite lookup_insert_eq. eauto.
  - now rewrite lookup_insert_ne by congruence.
Qed.

Lemma add_files_adds (file_type : string) (bands : option (list string))
    (d : string) (inst_path : path) (cand : list string)
    (acc : gmap string path) (f i b : string) :
  f ∈ cand ->
  _parse_filename f file_type = Some (i, b) ->
  passes bands (full_band i b) = true ->
  is_Some (fold_left (add_file file_type bands d inst_path) cand acc
             !! (d ++ "_" ++ full_band i b)).
Proof.
  intros Hf Hp Hb. revert acc.
  induction cand as [|g cand IH]; intros acc; [now apply elem_of_nil in Hf|].
  cbn [fold_left]. apply elem_of_cons in Hf as [<- | Hf]; [|now apply IH].
  apply add_files_keeps. unfold add_file. rewrite Hp, Hb.
  rewrite lookup_insert_eq. eauto.
Qed.

Lemma scan_instrument_dir_keeps (fs : node) (mer_dir : path)
    (file_type : string) (instruments bands : option (list string))
    (acc acc' : gmap string path) (d key : string) :
  scan_instrument_dir fs mer_dir file_type instruments bands acc d = Ok acc' ->
  is_Some (acc !! key) -> is_Some (acc' !! key).
Proof.
  unfold scan_instrument_dir.
  destruct (negb (os_path_isdir fs (mer_dir ++ [d])%list));
    [now intros [= <-]|].
  destruct (negb (passes instruments d)); [now intros [= <-]|].
  destruct (os_listdir fs (mer_dir ++ [d])%list) as [names|e]; [|discriminate].
  cbn. intros [= <-]. apply add_files_keeps.
Qed.

Lemma scan_dirs_keeps (fs : node) (mer_dir : path)
    (file_type : string) (instruments bands : option (list string))
    (dirs : list string) (acc acc' : gmap string path) (key : string) :
  for_each (scan_instrument_dir fs mer_dir file_type instruments bands)
    dirs acc = Ok acc' ->
  is_Some (acc !! key) -> is_Some (acc' !! key).
Proof.
  intros E Hk.
  refine (for_each_invariant (fun m => is_Some (m !! key)) _ dirs acc acc'
            _ Hk E).
  intros s x s1 _ Hs Hstep. eapply scan_instrument_dir_keeps; eauto.
Qed.

Lemma scan_dirs_adds (fs : node) (mer_dir : path)
    (file_type : string) (instruments bands : option (list string))
    (dirs : list string) (acc acc' : gmap string path)
    (d : string) (names : list string) (f i b : string) :
  for_each (scan_instrument_dir fs mer_dir file_type instruments bands)
    dirs acc = Ok acc' ->
  d ∈ dirs ->
  selected_dir fs mer_dir instruments d = true ->
  os_listdir fs (mer_dir ++ [d])%list = Ok names -> f ∈ names ->
  is_candidate file_type f = true ->
  _parse_filename f file_type = Some (i, b) ->
  passes bands (full_band i b) = true ->
  is_Some (acc' !! (d ++ "_" ++ full_band i b)).
Proof.
  intros E Hd Hsel Hl Hf Hc Hp Hb. revert acc E.
  induction dirs as [|x dirs IH]; intros acc E;
    [now apply elem_of_nil in Hd|].
  cbn [for_each] in E.
  destruct (scan_instrument_dir fs mer_dir file_type instruments bands acc x)
    as [s1|e] eqn:Ex; [|discriminate].
  cbn in E. apply elem_of_cons in Hd as [<- | Hd]; [|now apply (IH Hd s1)].
  eapply scan_dirs_keeps; [exact E|].
  unfold scan_instrument_dir in Ex. unfold selected_dir in Hsel.
  apply andb_true_iff in Hsel as [H1 H2]. rewrite H1, H2 in Ex.
  cbn [negb] in Ex. rewrite Hl in Ex. cbn in Ex. injection Ex as <-.
  apply (add_files_adds _ _ _ _ _ _ f); try assumption.
  apply list_elem_of_In, filter_In. split; [now apply list_elem_of_In|exact Hc].
Qed.

Lemma resolve_snoc (fs : node) (p : path) (d : string) (n : node) :
  resolve fs (p ++ [d])%list = Some n ->
  exists cs, (resolve fs p = Some (Dir cs)
              \/ exists e, resolve fs p = Some (Sealed e cs))
             /\ (d, n) ∈ cs.
Proof.
  revert fs. induction p as [|x p IH]; intros fs; cbn [app resolve].
  - destruct (child fs d) as [n'|] eqn:C; [|discriminate].
    intros [= <-]. destruct fs as [|cs|e cs|e]; try discriminate.
    + exists cs. split; [now left | now apply child_elem].
    + exists cs. split; [right; now exists e | now apply child_elem].
  - destruct (child fs x) as [n'|]; [|discriminate]. apply IH.
Qed.

(** X2.  No matching file is missed: for every file listed in a directory
    of the tile that passes the instrument filter, whose name is that of a
    candidate image and whose parsed band passes the band filter, the
    mapping [find_files] returns has the key made of the directory name
    and the band. *)
Theorem find_files_complete (fs : node) (tile_id file_type : string)
    (mer_root : path) (instruments bands : option (list string))
    (files : gmap string path) (d : string) (names : list string)
    (f i b : string) :
  find_files fs tile_id file_type mer_root instruments bands = Ok files ->
  os_path_isdir fs (mer_root ++ [tile_id; d])%list = true ->
  passes instruments d = true ->
  os_listdir fs (mer_root ++ [tile_id; d])%list = Ok names -> f ∈ names ->
  is_candidate file_type f = true ->
  _parse_filename f file_type = Some (i, b) ->
  passes bands (full_band i b) = true ->
  is_Some (files !! (d ++ "_" ++ full_band i b)).
Proof.
  intros E Hd Hi Hl Hf Hc Hp Hb.
  change (mer_root ++ [tile_id; d])%list
    with (mer_root ++ [tile_id] ++ [d])%list in Hd, Hl.
  rewrite app_assoc in Hd, Hl.
  assert (exists cs, (resolve fs (mer_root ++ [tile_id])%list = Some (Dir cs)
                      \/ exists e, resolve fs (mer_root ++ [tile_id])%list
                                   = Some (Sealed e cs))
                     /\ d ∈ map fst cs) as (cs & R & Hin).
  { destruct (proj1 (listdir_resolve _ _ _) Hl) as (cs' & R & _).
    apply resolve_snoc in R as (cs & R & Hn). exists cs. split; [exact R|].
    apply list_elem_of_In, in_map_iff. exists (d, Dir cs').
    split; [reflexivity|now apply list_elem_of_In]. }
  unfold find_files, os_path_exists, os_listdir, os_stat in E.
  destruct R as [R | (e & R)]; rewrite R in E; [|discriminate E].
  cbn in E.
  eapply scan_dirs_adds; eauto.
  unfold selected_dir. now rewrite Hd, Hi.
Qed.

Lemma find_files_complete_witness :
  is_Some ((<["VIS_VIS" := vis_mosaic]> (<["NISP_NIR-Y" := nisp_mosaic]> ∅)
            : gmap string path)
           !! ("NISP" ++ "_" ++ full_band "NIR" "Y")).
Proof.
  apply (find_files_complete sample_archive "102019587" "BGSUB" ["MER"]
           None None _ "NISP"
           ["EUC_MER_BGSUB-MOSAIC-NIR-Y_TILE102019587-DEDE9D_20241018T160516.574568Z_00.00.fits"]
           "EUC_MER_BGSUB-MOSAIC-NIR-Y_TILE102019587-DEDE9D_20241018T160516.574568Z_00.00.fits"
           "NIR" "Y" sample_files);
    try (vm_compute; reflexivity).
  apply list_elem_of_singleton. reflexivity.
Defined.

End FindFilesComplete.

(** ** More on tile extraction *)

Section TileEntries.
Import FileNames Extract Shapes.
Context `{G : SkyGeometry} `{A : Archive}.

Lemma add_cutouts_absent (file_type : string) (ra dec : Q) (sz : size)
    (skip_nan : bool) (items : list (string * path))
    (cutouts : gmap string cutout_result) (k : string) :
  k ∉ map fst items ->
  fold_left (add_cutout file_type ra dec sz skip_nan) items cutouts !! k
  = cutouts !! k.
Proof.
  revert cutouts. induction items as [|[key fp] items IH]; intros cutouts Hk;
    [reflexivity|].
  cbn [fold_left]. cbn [map fst] in Hk. apply not_elem_of_cons in Hk as [Hne Hk].
  rewrite IH by exact Hk. unfold add_cutout.
  destruct (key_labels file_type key) as [[inst bnd]|]; [|reflexivity].
  cbv zeta. destruct (success _); [|reflexivity].
  destruct (_ && skip_nan); [reflexivity|].
  now rewrite lookup_insert_ne by congruence.
Qed.

Lemma add_cutouts_present (file_type : string) (ra dec : Q) (sz : size)
    (skip_nan : bool) (items : list (string * path))
    (cutouts : gmap string cutout_result) (k : string) (fp : path) :
  NoDup (map fst items) -> (k, fp) ∈ items ->
  fold_left (add_cutout file_type ra dec sz skip_nan) items cutouts !! k
  = add_cutout file_type ra dec sz skip_nan cutouts (k, fp) !! k.
Proof.
  revert cutouts. induction items as [|[key q] items IH];
    intros cutouts Hnd Hin; [now apply elem_of_nil in Hin|].
  cbn [map fst] in Hnd. apply NoDup_cons in Hnd as [Hfresh Hnd].
  cbn [fold_left]. apply elem_of_cons in Hin as [E | Hin].
  - injection E as <- <-. now apply add_cutouts_absent.
  - assert (Hne : k <> key).
    { intros ->. apply Hfresh, list_elem_of_In, in_map_iff.
      exists (key, fp). split; [reflexivity|now apply list_elem_of_In]. }
    rewrite IH by assumption. unfold add_cutout.
    destruct (key_labels file_type k) as [[inst bnd]|];
      destruct (key_labels file_type key) as [[inst' bnd']|];
      cbv zeta; try reflexivity;
      repeat (match goal with
              | |- context [if ?b then _ else _] => destruct b
              end; try reflexivity);
      rewrite ?lookup_insert_eq; try reflexivity;
      rewrite ?(lookup_insert_ne _ key k) by congruence; try reflexivity.
Qed.

(** The loop over the files, seen from one key: only the file stored
    under that key matters. *)
Lemma cutouts_of_files (file_type : string) (ra dec : Q) (sz : size)
    (skip_nan : bool) (files : gmap string path) (key : string) :
  fold_left (add_cutout file_type ra dec sz skip_nan) (map_to_list files) ∅
    !! key
  = match files !! key with
    | Some filepath =>
        add_cutout file_type ra dec sz skip_nan ∅ (key, filepath) !! key
    | None => None
    end.
Proof.
  destruct (files !! key) as [fp|] eqn:Hk.
  - apply add_cutouts_present.
    + apply NoDup_fst_map_to_list.
    + now apply elem_of_map_to_list.
  - rewrite add_cutouts_absent; [apply lookup_empty|].
    intros Hin. apply list_elem_of_In, in_map_iff in Hin as ([k fp] & E & Hin).
    cbn in E. subst k. apply list_elem_of_In, elem_of_map_to_list in Hin.
    congruence.
Qed.

(** X3.  The mapping [cutout_tile] returns is computed key by key from
    the mapping [find_files] returns: a key is present exactly when
    [find_files] has it, its labels can be read, and the extraction from
    that key's own file succeeds and is not dropped by the invalid-value
    policy; its value is then that extraction, labelled. *)
Theorem cutout_tile_entries (fs : node) (tile_id : string) (ra dec : Q)
    (sz : size) (file_type : string) (mer_root : path)
    (instruments bands : option (list string)) (skip_nan : bool)
    (files : gmap string path) (key : string) :
  find_files fs tile_id file_type mer_root instruments bands = Ok files ->
  t_cutouts (cutout_tile fs tile_id ra dec sz file_type mer_root
               instruments bands skip_nan) !! key
  = match files !! key, key_labels file_type key with
    | Some filepath, Some (inst, bnd) =>
        let c := cutout_of file_type filepath ra dec sz in
        if success c && negb (contains_nan c && skip_nan)
        then Some (tagged c inst bnd) else None
    | _, _ => None
    end.
Proof.
  intros Hfind.
  destruct (cutout_tile_found fs tile_id ra dec sz file_type mer_root
              instruments bands skip_nan files Hfind) as (-> & _).
  rewrite cutouts_of_files.
  destruct (files !! key) as [fp|]; [|reflexivity].
  unfold add_cutout.
  destruct (key_labels file_type key) as [[inst bnd]|]; [|apply lookup_empty].
  cbv zeta. destruct (success _); cbn; [|apply lookup_empty].
  destruct (_ && skip_nan); cbn; [apply lookup_empty|].
  apply lookup_insert_eq.
Qed.

(** X4.  Every cutout [cutout_tile] returns carries both labels, and they
    are the two sides of the first underscore of its key: the instrument
    label is the name of the directory part up to that underscore and has
    no underscore itself.  The fixed fallback labels of the stamp product
    are never used for a key [find_files] made. *)
Theorem cutout_tile_labels (fs : node) (tile_id : string) (ra dec : Q)
    (sz : size) (file_type : string) (mer_root : path)
    (instruments bands : option (list string)) (skip_nan : bool)
    (key : string) (r : cutout_result) :
  t_cutouts (cutout_tile fs tile_id ra dec sz file_type mer_root
               instruments bands skip_nan) !! key = Some r ->
  exists inst bnd,
    instrument r = Some inst /\ band r = Some bnd /\
    key = inst ++ "_" ++ bnd /\ str_contains "_" inst = false.
Proof.
  destruct (find_files fs tile_id file_type mer_root instruments bands)
    as [files|e] eqn:Hfind.
  - destruct (cutout_tile_found fs tile_id ra dec sz file_type mer_root
                instruments bands skip_nan files Hfind) as (-> & _).
    rewrite cutouts_of_files.
    destruct (files !! key) as [fp|] eqn:Hk; [|discriminate].
    destruct (find_files_entries _ _ _ _ _ _ _ _ _ Hfind Hk)
      as (d & names & f & i & b & _ & _ & _ & _ & _ & _ & _ & Hkey).
    destruct (split1_some "_" key EmptyString) as (a & c & Hs & Hj & Ha);
      [subst key; apply contains_infix|reflexivity|].
    unfold add_cutout, key_labels. rewrite Hs. cbv zeta.
    destruct (success _); [|now rewrite lookup_empty].
    destruct (_ && skip_nan); [now rewrite lookup_empty|].
    rewrite lookup_insert_eq. intros [= <-].
    exists a, c. rewrite append_nil in Hj. now repeat split.
  - unfold cutout_tile. rewrite Hfind. cbn. now rewrite lookup_empty.
Qed.

End TileEntries.

Section TileEntriesExamples.
Import FileNames Extract TileIndex.

Lemma cutout_tile_entries_witness :
  t_cutouts (@cutout_tile taxicab (archive_with (stamp_file 4 5 5))
               sample_archive "102019587" 11 1 (Square 4) "BGSUB" ["MER"]
               None None false) !! "VIS_VIS"
  = Some (tagged (@cutout_image (archive_with (stamp_file 4 5 5))
                    vis_mosaic 11 1 (Square 4)) "VIS" "VIS")
  /\ t_cutouts (@cutout_tile taxicab (archive_with (stamp_file 4 5 5))
                  sample_archive "102019587" 11 1 (Square 4) "BGSUB" ["MER"]
                  None None true) !! "VIS_VIS" = None.
Proof.
  split.
  - rewrite (@cutout_tile_entries taxicab (archive_with (stamp_file 4 5 5))
               sample_archive "102019587" 11 1 (Square 4) "BGSUB" ["MER"]
               None None false _ "VIS_VIS" sample_files).
    vm_compute. reflexivity.
  - rewrite (@cutout_tile_entries taxicab (archive_with (stamp_file 4 5 5))
               sample_archive "102019587" 11 1 (Square 4) "BGSUB" ["MER"]
               None None true _ "VIS_VIS" sample_files).
    vm_compute. reflexivity.
Defined.

Lemma cutout_tile_labels_witness :
  exists r inst bnd,
    t_cutouts (@cutout_tile taxicab (archive_with (stamp_file 4 5 5))
                 sample_archive "102019587" 11 1 (Square 4) "BGSUB" ["MER"]
                 None None false) !! "VIS_VIS" = Some r /\
    instrument r = Some inst /\ band r = Some bnd /\
    "VIS_VIS" = inst ++ "_" ++ bnd /\ str_contains "_" inst = false.
Proof.
  eexists.
  assert (H : t_cutouts (@cutout_tile taxicab (archive_with (stamp_file 4 5 5))
                 sample_archive "102019587" 11 1 (Square 4) "BGSUB" ["MER"]
                 None None false) !! "VIS_VIS"
              = Some (tagged (@cutout_image (archive_with (stamp_file 4 5 5))
                                vis_mosaic 11 1 (Square 4)) "VIS" "VIS")).
  { vm_compute. reflexivity. }
  destruct (@cutout_tile_labels taxicab (archive_with (stamp_file 4 5 5))
              sample_archive "102019587" 11 1 (Square 4) "BGSUB" ["MER"]
              None None false "VIS_VIS" _ H) as (inst & bnd & Hr).
  exists inst, bnd. split; [exact H|exact Hr].
Defined.

End TileEntriesExamples.

(** ** More on stamp extraction *)

Section StampProvenance.
Import FileNames Extract Shapes.
Context `{G : SkyGeometry} `{A : Archive}.

Lemma map_result_ok {X Y} (f : X -> result Y) (g : X -> Y) (l : list X)
    (ys : list Y) :
  (forall x y, f x = Ok y -> y = g x) ->
  map_result f l = Ok ys -> ys = map g l.
Proof.
  intros Hf. revert ys. induction l as [|x l IH]; intros ys; cbn [map_result].
  - now intros [= <-].
  - destruct (f x) as [y|e] eqn:E; [|discriminate]. cbn.
    destruct (map_result f l) as [ys'|e]; [|discriminate]. cbn.
    intros [= <-]. cbn. f_equal; [now apply Hf | now apply IH].
Qed.

Lemma mkSkyCoord_ok (ra dec : Q) (c : SkyCoord) :
  mkSkyCoord ra dec = Ok c -> c = {| sc_ra := ra; sc_dec := dec |}.
Proof. unfold mkSkyCoord. destruct (valid_dec dec); now intros [= <-]. Qed.

Lemma np_argmin_ok (l : list Q) (r : nat) :
  np_argmin l = Ok r -> exists v, first_min l r v.
Proof.
  intros E. destruct (np_argmin_first_min l) as (r' & v & E' & Hv).
  - intros ->. discriminate E.
  - exists v. congruence.
Qed.

(** A successful stamp extraction, taken apart *)
Lemma cutout_psf_success (psf_fits_path : path) (ra dec : Q)
    (hdul : psf_file) :
  fits_open_psf psf_fits_path = Ok hdul ->
  success (cutout_psf psf_fits_path ra dec) = true ->
  let stmpsize := default 0%Z (STMPSIZE hdul) in
  exists idx row v,
    psf_table hdul !! idx = Some row /\
    first_min (map (psf_separation ra dec) (psf_table hdul)) idx v /\
    let x_min := stamp_min (x_center row) stmpsize (shape1 (img_data hdul)) in
    let y_min := stamp_min (y_center row) stmpsize (shape0 (img_data hdul)) in
    (0 <= x_min)%Z /\ (0 <= y_min)%Z /\ stmpsize <> 0%Z /\
    cutout_psf psf_fits_path ra dec
    = {| success := true;
         data := Some (ndarray_slice (img_data hdul)
                         y_min (y_min + stmpsize) x_min (x_min + stmpsize));
         has_wcs := false;
         header := Some {| H_STMPSIZE := stmpsize;
                           PSF_RA := RA row; PSF_DEC := Dec row;
                           PSF_FWHM := FWHM row; PSF_IDX := idx;
                           PSF_XCTR := x_center row;
                           PSF_YCTR := y_center row |};
         error := None;
         contains_nan :=
           any_nan (ndarray_slice (img_data hdul)
                      y_min (y_min + stmpsize) x_min (x_min + stmpsize));
         instrument := None; band := None |}.
Proof.
  intros Hopen. unfold cutout_psf. rewrite Hopen.
  cbn [mbind result_bind]. unfold cutout_psf_body.
  destruct (default 0%Z (STMPSIZE hdul) =? 0)%Z eqn:Hz; [discriminate|].
  destruct (mkSkyCoord ra dec) as [target|e] eqn:Ht; [|discriminate].
  apply mkSkyCoord_ok in Ht. subst target.
  cbn [mbind result_bind].
  destruct (map_result _ (psf_table hdul)) as [coords|e] eqn:Hc;
    [|discriminate].
  apply (map_result_ok _ (fun r => {| sc_ra := RA r; sc_dec := Dec r |}))
    in Hc; [|intros x y; apply mkSkyCoord_ok].
  subst coords. cbn [mbind result_bind]. rewrite map_map.
  change (map _ (psf_table hdul))
    with (map (psf_separation ra dec) (psf_table hdul)).
  destruct (np_argmin _) as [idx|e] eqn:Hi; [|discriminate].
  apply np_argmin_ok in Hi as (v & Hv).
  cbn [mbind result_bind]. unfold getitem.
  destruct (psf_table hdul !! idx) as [row|] eqn:Hrow; [|discriminate].
  cbn [mbind result_bind].
  destruct (_ || _) eqn:Hneg; [discriminate|].
  destruct (ndarray_size _ =? 0)%nat; [discriminate|].
  intros _. apply orb_false_iff in Hneg as [Hx Hy].
  apply Z.ltb_ge in Hx, Hy. apply Z.eqb_neq in Hz.
  exists idx, row, v. split; [exact Hrow|]. split; [exact Hv|].
  cbv zeta. split; [exact Hx|]. split; [exact Hy|]. split; [exact Hz|].
  reflexivity.
Qed.

(** X5.  The provenance header of a successful stamp names the table row
    it was cut for: [PSF_IDX] is the index of a row of the stamp table
    whose recorded position is nearest to the target - the first such row
    in table order - and the recorded position, centre, width and size are
    that row's and the file's. *)
Theorem cutout_psf_nearest (psf_fits_path : path) (ra dec : Q)
    (hdul : psf_file) :
  fits_open_psf psf_fits_path = Ok hdul ->
  success (cutout_psf psf_fits_path ra dec) = true ->
  exists h row,
    header (cutout_psf psf_fits_path ra dec) = Some h /\
    psf_table hdul !! PSF_IDX h = Some row /\
    PSF_RA h = RA row /\ PSF_DEC h = Dec row /\
    PSF_XCTR h = x_center row /\ PSF_YCTR h = y_center row /\
    PSF_FWHM h = FWHM row /\
    Some (H_STMPSIZE h) = STMPSIZE hdul /\
    (forall row', row' ∈ psf_table hdul ->
       (psf_separation ra dec row <= psf_separation ra dec row')%Q) /\
    (forall j row', (j < PSF_IDX h)%nat -> psf_table hdul !! j = Some row' ->
       (psf_separation ra dec row < psf_separation ra dec row')%Q).
Proof.
  intros Hopen Hs.
  destruct (cutout_psf_success _ _ _ _ Hopen Hs)
    as (idx & row & v & Hrow & (Hat & Hle & Hlt) & _ & _ & Hz & ->).
  rewrite lookup_map, Hrow in Hat. injection Hat as <-.
  eexists _, row. cbn [header PSF_IDX PSF_RA PSF_DEC PSF_XCTR PSF_YCTR
                       PSF_FWHM H_STMPSIZE].
  repeat split; try reflexivity; try exact Hrow.
  - destruct (STMPSIZE hdul); [reflexivity|]. now cbn in Hz.
  - intros row' Hin. apply list_elem_of_lookup in Hin as [j Hj].
    apply (Hle j). now rewrite lookup_map, Hj.
  - intros j row' Hj Hr. apply (Hlt j); [exact Hj|].
    now rewrite lookup_map, Hr.
Qed.

(** X6.  The data of a successful stamp of positive declared width are the
    pixels of one block of the stored image, unchanged: the block lies
    inside the image, has the declared width in both dimensions and
    starts where [stamp_min] puts it for the centre recorded in the
    header; the invalid-value flag is computed over exactly these
    pixels. *)
Theorem cutout_psf_block (psf_fits_path : path) (ra dec : Q)
    (hdul : psf_file) :
  fits_open_psf psf_fits_path = Ok hdul ->
  (0 < default 0%Z (STMPSIZE hdul))%Z ->
  success (cutout_psf psf_fits_path ra dec) = true ->
  let img := img_data hdul in
  let w := Z.to_nat (default 0%Z (STMPSIZE hdul)) in
  exists d h (x0 y0 : nat),
    data (cutout_psf psf_fits_path ra dec) = Some d /\
    header (cutout_psf psf_fits_path ra dec) = Some h /\
    Z.of_nat x0 = stamp_min (PSF_XCTR h) (H_STMPSIZE h) (shape1 img) /\
    Z.of_nat y0 = stamp_min (PSF_YCTR h) (H_STMPSIZE h) (shape0 img) /\
    (x0 + w <= shape1 img)%nat /\ (y0 + w <= shape0 img)%nat /\
    shape0 d = w /\ shape1 d = w /\
    (forall i j, at_ d i j = at_ img (y0 + i) (x0 + j)) /\
    contains_nan (cutout_psf psf_fits_path ra dec) = any_nan d.
Proof.
  intros Hopen Hpos Hs img w.
  destruct (cutout_psf_success _ _ _ _ Hopen Hs)
    as (idx & row & v & _ & _ & Hx & Hy & _ & ->).
  set (s := default 0%Z (STMPSIZE hdul)) in *.
  pose proof (stamp_min_fits (x_center row) s (shape1 img)) as Fx.
  pose proof (stamp_min_fits (y_center row) s (shape0 img)) as Fy.
  set (xm := stamp_min (x_center row) s (shape1 (img_data hdul))) in *.
  set (ym := stamp_min (y_center row) s (shape0 (img_data hdul))) in *.
  fold img in xm, ym, Fx, Fy.
  assert (Sx : slice_index xm (shape1 img) = Z.to_nat xm).
  { unfold slice_index. destruct (Z.ltb_spec xm 0); lia. }
  assert (Sy : slice_index ym (shape0 img) = Z.to_nat ym).
  { unfold slice_index. destruct (Z.ltb_spec ym 0); lia. }
  assert (Ex : slice_index (xm + s) (shape1 img) = (Z.to_nat xm + w)%nat).
  { unfold slice_index. destruct (Z.ltb_spec (xm + s) 0); lia. }
  assert (Ey : slice_index (ym + s) (shape0 img) = (Z.to_nat ym + w)%nat).
  { unfold slice_index. destruct (Z.ltb_spec (ym + s) 0); lia. }
  eexists _, _, (Z.to_nat xm), (Z.to_nat ym).
  cbn [data header contains_nan PSF_XCTR PSF_YCTR H_STMPSIZE].
  split; [reflexivity|]. split; [reflexivity|].
  fold img. fold xm ym.
  cbn [shape0 shape1 at_ ndarray_slice]. rewrite Sx, Sy, Ex, Ey.
  repeat split; try lia.
  - cbn [PSF_XCTR H_STMPSIZE]. fold xm. lia.
  - cbn [PSF_YCTR H_STMPSIZE]. fold ym. lia.
Qed.

(** X7.  The inputs [cutout_psf] rejects before it cuts anything: a file
    that cannot be read, a header without a stamp width (or with width
    0), a target declination outside [-90, 90] and an empty stamp table
    each give a failure that carries the message and no data. *)
Theorem cutout_psf_rejects (psf_fits_path : path) (ra dec : Q) :
  let r := cutout_psf psf_fits_path ra dec in
  (forall e, fits_open_psf psf_fits_path = Raise e ->
             r = with_error (exn_str e)) /\
  (forall hdul, fits_open_psf psf_fits_path = Ok hdul ->
     (STMPSIZE hdul = None \/ STMPSIZE hdul = Some 0%Z ->
      r = with_error "PSF文件中没有STMPSIZE信息") /\
     (default 0%Z (STMPSIZE hdul) <> 0%Z -> valid_dec dec = false ->
      success r = false /\ data r = None /\ is_Some (error r)) /\
     (default 0%Z (STMPSIZE hdul) <> 0%Z -> valid_dec dec = true ->
      psf_table hdul = [] ->
      r = with_error "attempt to get argmin of an empty sequence")).
Proof.
  intros r. subst r. unfold cutout_psf. split.
  - now intros e ->.
  - intros hdul ->. cbn [mbind result_bind]. unfold cutout_psf_body.
    split; [now intros [-> | ->]|].
    split.
    + intros Hz Hd. apply Z.eqb_neq in Hz. rewrite Hz.
      unfold mkSkyCoord. rewrite Hd. cbn. eauto.
    + intros Hz Hd Ht. apply Z.eqb_neq in Hz. rewrite Hz.
      rewrite mkSkyCoord_valid by exact Hd. rewrite Ht. reflexivity.
Qed.

End StampProvenance.

Section StampProvenanceExamples.
Import FileNames Extract TileIndex Shapes.

Lemma cutout_psf_nearest_witness :
  exists h row,
    header (@cutout_psf taxicab (archive_with (stamp_file 4 (21 # 2) (1 # 2)))
              ["psf.fits"] 11 1) = Some h /\
    psf_table (stamp_file 4 (21 # 2) (1 # 2)) !! PSF_IDX h = Some row /\
    PSF_XCTR h = x_center row /\ PSF_IDX h = 0%nat.
Proof.
  destruct (@cutout_psf_nearest taxicab
              (archive_with (stamp_file 4 (21 # 2) (1 # 2)))
              ["psf.fits"] 11 1 _ eq_refl)
    as (h & row & Hh & Hrow & _ & _ & Hx & _); [vm_compute; reflexivity|].
  exists h, row. repeat split; try assumption.
  apply lookup_lt_Some in Hrow. cbn in Hrow. lia.
Defined.

Lemma cutout_psf_block_witness :
  exists d (x0 y0 : nat),
    data (@cutout_psf taxicab (archive_with (stamp_file 4 (21 # 2) (1 # 2)))
            ["psf.fits"] 11 1) = Some d /\
    (x0 + 4 <= 10)%nat /\ (y0 + 4 <= 10)%nat /\
    shape0 d = 4%nat /\ shape1 d = 4%nat /\
    (forall i j, at_ d i j = at_ (zeros 10 10) (y0 + i) (x0 + j)).
Proof.
  destruct (@cutout_psf_block taxicab
              (archive_with (stamp_file 4 (21 # 2) (1 # 2)))
              ["psf.fits"] 11 1 _ eq_refl)
    as (d & h & x0 & y0 & Hd & _ & _ & _ & Hx & Hy & H0 & H1 & Hat & _);
    [reflexivity|vm_compute; reflexivity|].
  exists d, x0, y0. repeat split; assumption.
Defined.

Lemma cutout_psf_rejects_witness :
  @cutout_psf taxicab (archive_with (stamp_file 0 5 5)) ["psf.fits"] 11 1
  = with_error "PSF文件中没有STMPSIZE信息"
  /\ success (@cutout_psf taxicab (archive_with (stamp_file 4 5 5))
                ["psf.fits"] 11 91) = false.
Proof.
  split.
  - destruct (@cutout_psf_rejects taxicab (archive_with (stamp_file 0 5 5))
                ["psf.fits"] 11 1) as [_ H].
    destruct (H (stamp_file 0 5 5) eq_refl) as [H0 _].
    apply H0. now right.
  - destruct (@cutout_psf_rejects taxicab (archive_with (stamp_file 4 5 5))
                ["psf.fits"] 11 91) as [_ H].
    destruct (H (stamp_file 4 5 5) eq_refl) as (_ & H1 & _).
    apply H1; [discriminate|reflexivity].
Defined.

End StampProvenanceExamples.

(** ** Building the tile index *)

Section TileBuildProperties.
Import FileNames TileIndex TileBuild.
Context `{G : SkyGeometry} `{R : CatalogReader}.

Lemma qmin_le (x y : Q) : (qmin x y <= x)%Q /\ (qmin x y <= y)%Q.
Proof.
  unfold qmin. destruct (Qle_bool x y) eqn:E.
  - apply Qle_bool_iff in E. split; [apply Qle_refl|exact E].
  - split; [|apply Qle_refl].
    destruct (Qlt_le_dec y x) as [L|L]; [now apply Qlt_le_weak|].
    apply Qle_bool_iff in L. congruence.
Qed.

Lemma qmax_ge (x y : Q) : (x <= qmax x y)%Q /\ (y <= qmax x y)%Q.
Proof.
  unfold qmax. destruct (Qle_bool x y) eqn:E.
  - apply Qle_bool_iff in E. split; [exact E|apply Qle_refl].
  - split; [apply Qle_refl|].
    destruct (Qlt_le_dec y x) as [L|L]; [now apply Qlt_le_weak|].
    apply Qle_bool_iff in L. congruence.
Qed.

Lemma fold_qmin_spec (l : list Q) (x : Q) :
  (fold_left qmin l x = x \/ fold_left qmin l x ∈ l) /\
  (fold_left qmin l x <= x)%Q /\
  (forall y, y ∈ l -> (fold_left qmin l x <= y)%Q).
Proof.
  revert x. induction l as [|y l IH]; intros x; cbn [fold_left].
  - split; [now left|]. split; [apply Qle_refl|].
    intros y Hy. now apply elem_of_nil in Hy.
  - destruct (IH (qmin x y)) as (Hin & Hle & Hall).
    destruct (qmin_le x y) as [Lx Ly]. repeat split.
    + destruct Hin as [-> | Hin]; [|right; now right].
      unfold qmin. destruct (Qle_bool x y); [now left|right; now left].
    + eapply Qle_trans; eassumption.
    + intros z Hz. apply elem_of_cons in Hz as [-> | Hz]; [|now apply Hall].
      eapply Qle_trans; eassumption.
Qed.

Lemma fold_qmax_spec (l : list Q) (x : Q) :
  (fold_left qmax l x = x \/ fold_left qmax l x ∈ l) /\
  (x <= fold_left qmax l x)%Q /\
  (forall y, y ∈ l -> (y <= fold_left qmax l x)%Q).
Proof.
  revert x. induction l as [|y l IH]; intros x; cbn [fold_left].
  - split; [now left|]. split; [apply Qle_refl|].
    intros y Hy. now apply elem_of_nil in Hy.
  - destruct (IH (qmax x y)) as (Hin & Hle & Hall).
    destruct (qmax_ge x y) as [Lx Ly]. repeat split.
    + destruct Hin as [-> | Hin]; [|right; now right].
      unfold qmax. destruct (Qle_bool x y); [right; now left|now left].
    + eapply Qle_trans; eassumption.
    + intros z Hz. apply elem_of_cons in Hz as [-> | Hz]; [|now apply Hall].
      eapply Qle_trans; eassumption.
Qed.

(** [np.min] returns an element that no other element is below. *)
Lemma np_min_spec (l : list Q) (m : Q) :
  np_min l = Ok m -> m ∈ l /\ forall y, y ∈ l -> (m <= y)%Q.
Proof.
  destruct l as [|x l]; [discriminate|]. cbn [np_min]. intros [= <-].
  destruct (fold_qmin_spec l x) as (Hin & Hle & Hall). split.
  - destruct Hin as [-> | Hin]; [now left|now right].
  - intros y Hy. apply elem_of_cons in Hy as [-> | Hy]; auto.
Qed.

Lemma np_max_spec (l : list Q) (m : Q) :
  np_max l = Ok m -> m ∈ l /\ forall y, y ∈ l -> (y <= m)%Q.
Proof.
  destruct l as [|x l]; [discriminate|]. cbn [np_max]. intros [= <-].
  destruct (fold_qmax_spec l x) as (Hin & Hle & Hall). split.
  - destruct Hin as [-> | Hin]; [now left|now right].
  - intros y Hy. apply elem_of_cons in Hy as [-> | Hy]; auto.
Qed.

(** What a record says about the table it was made from *)
Lemma tile_record_spec (tile_id : string) (t : cat_table) (r : TileRecord) :
  tile_record tile_id t = Ok (Some r) ->
  exists ras decs,
    position_columns t = Some (ras, decs) /\
    TILE_ID r = tile_id /\
    RA_MIN r ∈ ras /\ RA_MAX r ∈ ras /\ DEC_MIN r ∈ decs /\ DEC_MAX r ∈ decs /\
    (forall ra, ra ∈ ras -> (RA_MIN r <= ra <= RA_MAX r)%Q) /\
    (forall dec, dec ∈ decs -> (DEC_MIN r <= dec <= DEC_MAX r)%Q).
Proof.
  unfold tile_record.
  destruct (position_columns t) as [[ras decs]|]; [|discriminate].
  destruct (np_min ras) as [ra_min|e] eqn:E1; [|discriminate].
  destruct (np_max ras) as [ra_max|e] eqn:E2; [|discriminate].
  destruct (np_min decs) as [dec_min|e] eqn:E3; [|discriminate].
  destruct (np_max decs) as [dec_max|e] eqn:E4; [|discriminate].
  cbn. intros [= <-]. cbn.
  apply np_min_spec in E1 as [? ?], E3 as [? ?].
  apply np_max_spec in E2 as [? ?], E4 as [? ?].
  exists ras, decs. repeat split; auto.
Qed.

(** A record of the index comes from a directory of the catalog root. *)
Lemma generate_tile_index_elem (fs : node) (tile_catalog_root : path)
    (catalog_pattern : string) (index : list TileRecord) (r : TileRecord) :
  generate_tile_index fs tile_catalog_root catalog_pattern = Ok index ->
  r ∈ index ->
  exists t,
    os_path_isdir fs (tile_catalog_root ++ [TILE_ID r])%list = true /\
    tile_catalog fs tile_catalog_root catalog_pattern (TILE_ID r)
    = Ok (Some t) /\
    tile_record (TILE_ID r) t = Ok (Some r).
Proof.
  unfold generate_tile_index.
  destruct (os_listdir fs tile_catalog_root) as [entries|e]; [|discriminate].
  cbn. intros [= <-] Hr.
  apply list_elem_of_omap in Hr as (d & Hd & Hs).
  apply list_elem_of_In, filter_In in Hd as [_ Hd].
  unfold scan_tile in Hs.
  destruct (tile_catalog fs tile_catalog_root catalog_pattern d)
    as [[t|]|e] eqn:Ht; cbn in Hs; try discriminate.
  destruct (tile_record d t) as [[r'|]|e] eqn:Hrec; cbn in Hs;
    try discriminate.
  injection Hs as ->.
  destruct (tile_record_spec d t r Hrec) as (_ & _ & _ & Hid & _).
  rewrite Hid. eauto.
Qed.

Lemma in_bbox_inside (ra dec tolerance : Q) (t : TileRecord) :
  (0 <= tolerance)%Q ->
  (RA_MIN t <= ra <= RA_MAX t)%Q -> (DEC_MIN t <= dec <= DEC_MAX t)%Q ->
  in_bbox ra dec tolerance t = true.
Proof.
  intros Ht [H1 H2] [H3 H4]. unfold in_bbox.
  repeat (apply andb_true_iff; split); apply Qle_bool_iff; lra.
Qed.

(** X8.  Every record of the index [generate_tile_index] builds belongs
    to a directory of the catalog root whose catalog could be read, and
    its bounding box is tight around that catalog: the four bounds are
    coordinates of listed sources, and every listed source passes the
    bounding-box test of the lookup for that record, under any
    non-negative tolerance. *)
Theorem generate_tile_index_covers (fs : node) (tile_catalog_root : path)
    (catalog_pattern : string) (index : list TileRecord) (r : TileRecord) :
  generate_tile_index fs tile_catalog_root catalog_pattern = Ok index ->
  r ∈ index ->
  os_path_isdir fs (tile_catalog_root ++ [TILE_ID r])%list = true /\
  (exists t ras decs,
     tile_catalog fs tile_catalog_root catalog_pattern (TILE_ID r)
     = Ok (Some t) /\
     position_columns t = Some (ras, decs) /\
     RA_MIN r ∈ ras /\ RA_MAX r ∈ ras /\
     DEC_MIN r ∈ decs /\ DEC_MAX r ∈ decs) /\
  (forall ra dec tolerance,
     catalogued fs tile_catalog_root catalog_pattern (TILE_ID r) ra dec ->
     (0 <= tolerance)%Q ->
     in_bbox ra dec tolerance r = true).
Proof.
  intros Hgen Hr.
  destruct (generate_tile_index_elem _ _ _ _ _ Hgen Hr) as (t & Hd & Ht & Hrec).
  destruct (tile_record_spec _ _ _ Hrec)
    as (ras & decs & Hp & _ & H1 & H2 & H3 & H4 & Hra & Hdec).
  split; [exact Hd|]. split.
  - exists t, ras, decs. now repeat split.
  - intros ra dec tolerance (t' & ras' & decs' & i & Ht' & Hp' & Hi & Hj) Htol.
    assert (t' = t) as -> by congruence.
    assert (ras' = ras /\ decs' = decs) as [-> ->] by (split; congruence).
    apply in_bbox_inside; [exact Htol| |].
    + apply Hra. eapply list_elem_of_lookup_2; exact Hi.
    + apply Hdec. eapply list_elem_of_lookup_2; exact Hj.
Qed.

(** X9.  An index built by [generate_tile_index] answers for the sources
    it was built from: for every source listed in the catalog of an
    indexed tile, [query_tile_id] on that index returns the id of an
    indexed tile whose expanded bounding box holds the source - never
    [None] - provided the declinations involved are valid sky
    latitudes. *)
Theorem query_tile_id_finds_indexed (fs : node) (tile_catalog_root : path)
    (catalog_pattern : string) (index : list TileRecord) (r : TileRecord)
    (ra dec tolerance : Q) (tile_index_file : string) :
  generate_tile_index fs tile_catalog_root catalog_pattern = Ok index ->
  r ∈ index ->
  catalogued fs tile_catalog_root catalog_pattern (TILE_ID r) ra dec ->
  (0 <= tolerance)%Q ->
  valid_dec dec = true ->
  (forall t, t ∈ index -> valid_dec (DEC_CENTER t) = true) ->
  exists t,
    t ∈ index /\ in_bbox ra dec tolerance t = true /\
    query_tile_id (index_of index) ra dec tile_index_file tolerance
    = Some (TILE_ID t).
Proof.
  intros Hgen Hr Hcat Htol Hdec Hcenters.
  assert (Hin : in_bbox ra dec tolerance r = true).
  { destruct (generate_tile_index_elem _ _ _ _ _ Hgen Hr)
      as (t & _ & Ht & Hrec).
    destruct (tile_record_spec _ _ _ Hrec)
      as (ras & decs & Hp & _ & _ & _ & _ & _ & Hra & Hde).
    destruct Hcat as (t' & ras' & decs' & i & Ht' & Hp' & Hi & Hj).
    assert (t' = t) as -> by congruence.
    assert (ras' = ras /\ decs' = decs) as [-> ->] by (split; congruence).
    apply in_bbox_inside; [exact Htol| |].
    - apply Hra. eapply list_elem_of_lookup_2; exact Hi.
    - apply Hde. eapply list_elem_of_lookup_2; exact Hj. }
  rewrite (query_tile_id_read (index_of index) ra dec tile_index_file
             tolerance index eq_refl).
  assert (Hm : r ∈ List.filter (in_bbox ra dec tolerance) index).
  { apply list_elem_of_In, filter_In. split; [now apply list_elem_of_In|exact Hin]. }
  assert (Hsub : forall t, t ∈ List.filter (in_bbox ra dec tolerance) index ->
                           t ∈ index /\ in_bbox ra dec tolerance t = true).
  { intros t Ht. apply list_elem_of_In, filter_In in Ht as [Ht Hb].
    split; [now apply list_elem_of_In|exact Hb]. }
  destruct (List.filter (in_bbox ra dec tolerance) index)
    as [|t0 [|t1 rest]] eqn:Hf.
  - now apply elem_of_nil in Hm.
  - exists t0. destruct (Hsub t0) as [H1 H2]; [now left|].
    split; [exact H1|]. split; [exact H2|].
    unfold lookup_tile. rewrite Hf. reflexivity.
  - destruct (lookup_tile_nearest index ra dec tolerance)
      as (i & t & Hl & Hn & _).
    + rewrite Hf. cbn. lia.
    + exact Hdec.
    + intros t Ht. apply Hcenters. apply list_elem_of_In, filter_In in Ht as [Ht _].
      now apply list_elem_of_In.
    + rewrite Hf in Hn. destruct (Hsub t) as [H1 H2].
      { eapply list_elem_of_lookup_2; exact Hn. }
      exists t. split; [exact H1|]. split; [exact H2|].
      rewrite Hl. reflexivity.
Qed.

End TileBuildProperties.

Section TileBuildExamples.
Import FileNames TileIndex TileBuild.

Lemma sample_index :
  @generate_tile_index sample_reader sample_catalog_root ["CAT"]
    default_catalog_pattern
  = Ok [{| TILE_ID := "102019587";
           RA_MIN := 10; RA_MAX := 12; DEC_MIN := 0; DEC_MAX := 2;
           RA_CENTER := 22 / 2; DEC_CENTER := 2 / 2; N_OBJECTS := 2 |}].
Proof. vm_compute. reflexivity. Qed.

Lemma sample_catalogued :
  @catalogued sample_reader sample_catalog_root ["CAT"]
    default_catalog_pattern "102019587" 12 2.
Proof.
  exists sample_catalog, [10; 12]%Q, [0; 2]%Q, 1%nat.
  repeat split; vm_compute; reflexivity.
Qed.

Lemma generate_tile_index_covers_witness :
  in_bbox 12 2 0
    {| TILE_ID := "102019587";
       RA_MIN := 10; RA_MAX := 12; DEC_MIN := 0; DEC_MAX := 2;
       RA_CENTER := 22 / 2; DEC_CENTER := 2 / 2; N_OBJECTS := 2 |} = true.
Proof.
  destruct (@generate_tile_index_covers sample_reader sample_catalog_root
              ["CAT"] default_catalog_pattern _ _ sample_index
              ltac:(apply list_elem_of_singleton; reflexivity))
    as (_ & _ & H).
  apply H; [exact sample_catalogued|discriminate].
Defined.

Lemma query_tile_id_finds_indexed_witness :
  exists t,
    @query_tile_id taxicab
      (index_of [{| TILE_ID := "102019587";
                    RA_MIN := 10; RA_MAX := 12; DEC_MIN := 0; DEC_MAX := 2;
                    RA_CENTER := 22 / 2; DEC_CENTER := 2 / 2;
                    N_OBJECTS := 2 |}])
      12 2 "tile_coordinates.fits" default_tolerance
    = Some (TILE_ID t).
Proof.
  destruct (@query_tile_id_finds_indexed taxicab sample_reader
              sample_catalog_root ["CAT"] default_catalog_pattern _ _
              12 2 default_tolerance "tile_coordinates.fits" sample_index
              ltac:(apply list_elem_of_singleton; reflexivity)
              sample_catalogued)
    as (t & _ & _ & H).
  - discriminate.
  - reflexivity.
  - intros t Ht. apply list_elem_of_singleton in Ht. subst t. reflexivity.
  - exists t. exact H.
Defined.

End TileBuildExamples.

(** ** More on the per-catalog statistics *)

Section BatchInvariants.
Import Batch Shapes.

Lemma entries_insert (P : file_stats -> Prop)
    (stats : gmap string file_stats) (ft : string) (st : file_stats) :
  entries_satisfy P stats -> P st -> entries_satisfy P (<[ft := st]> stats).
Proof.
  intros Hc Hst k s. destruct (decide (k = ft)) as [-> | Hne].
  - rewrite lookup_insert_eq. now intros [= <-].
  - rewrite lookup_insert_ne by congruence. apply Hc.
Qed.

(** A property of the entries that the three updates of the loop body
    preserve holds of the statistics [process_catalog] returns. *)
Lemma process_catalog_entries (P : file_stats -> Prop) (verbose : bool)
    (file_types : list string) (outcomes : list outcome) :
  P {| n_success := 0; n_failed := 0; errors := [] |} ->
  (forall s, P s -> P (bump_success s)) ->
  (forall s, P s -> P (bump_failed s)) ->
  (forall s msg, P s -> P (sample_error verbose msg (bump_failed s))) ->
  entries_satisfy P (process_catalog verbose file_types outcomes).
Proof.
  intros H0 Hs Hf He. unfold process_catalog.
  assert (Hinit : entries_satisfy P (initial_stats file_types)).
  { unfold initial_stats.
    induction file_types as [|ft fts IH]; intros k s; cbn.
    - now rewrite lookup_empty.
    - destruct (decide (k = ft)) as [-> | Hne].
      + rewrite lookup_insert_eq. now intros [= <-].
      + rewrite lookup_insert_ne by congruence. apply IH. }
  assert (Hfail : forall fts stats,
             entries_satisfy P stats -> entries_satisfy P (fail_all fts stats)).
  { unfold fail_all. induction fts as [|ft fts IH]; intros stats Hc;
      [exact Hc|].
    cbn [fold_left]. apply IH. intros k s.
    destruct (decide (k = ft)) as [-> | Hne].
    - rewrite lookup_alter_eq.
      destruct (stats !! ft) as [s0|] eqn:E; [|discriminate].
      intros [= <-]. apply Hf. exact (Hc _ _ E).
    - rewrite lookup_alter_ne by congruence. apply Hc. }
  assert (Hrec : forall obj results stats,
             entries_satisfy P stats ->
             entries_satisfy P (fst (record_results verbose obj results stats))).
  { induction results as [|[k status] rest IH]; intros stats Hc; [exact Hc|].
    cbn [record_results record_status].
    destruct (stats !! k) as [s|] eqn:Hk; [|exact Hc].
    destruct (String.eqb status "success"); apply IH, entries_insert;
      try exact Hc.
    - apply Hs. exact (Hc _ _ Hk).
    - apply He. exact (Hc _ _ Hk). }
  revert Hinit. generalize (initial_stats file_types) as stats.
  induction outcomes as [|o os IH]; intros stats Hc; [exact Hc|].
  cbn [fold_left]. apply IH.
  destruct o as [obj results | e]; cbn [absorb]; [|now apply Hfail].
  specialize (Hrec obj results stats Hc).
  destruct (record_results verbose obj results stats) as [stats' [e|]];
    cbn in Hrec; [now apply Hfail | exact Hrec].
Qed.

(** X10.  In the statistics [process_catalog] returns, the failure
    samples of a product type are never more than its failures, and with
    [verbose] off no sample is recorded at all. *)
Theorem process_catalog_samples_are_failures (verbose : bool)
    (file_types : list string) (outcomes : list outcome)
    (ft : string) (st : file_stats) :
  process_catalog verbose file_types outcomes !! ft = Some st ->
  (length (errors st) <= n_failed st)%nat /\
  (verbose = false -> errors st = []).
Proof.
  apply (process_catalog_entries
           (fun st => (length (errors st) <= n_failed st)%nat /\
                      (verbose = false -> errors st = []))).
  - split; [cbn; lia|reflexivity].
  - intros s [H1 H2]. split; [exact H1|exact H2].
  - intros s [H1 H2]. split; [cbn; lia|exact H2].
  - intros s msg [H1 H2]. unfold sample_error.
    destruct verbose; cbn [andb bump_failed errors n_failed].
    + destruct (length (errors s) <? 10)%nat; cbn.
      * rewrite length_app. cbn. split; [lia|discriminate].
      * split; [lia|discriminate].
    + split; [lia|exact H2].
Qed.

Lemma process_catalog_samples_are_failures_witness :
  exists st,
    process_catalog true ["BGSUB"] twelve_failures !! "BGSUB" = Some st /\
    (length (errors st) <= n_failed st)%nat.
Proof.
  assert (E : exists st,
             process_catalog true ["BGSUB"] twelve_failures !! "BGSUB"
             = Some st).
  { vm_compute. eexists. reflexivity. }
  destruct E as (st & Hst). exists st. split; [exact Hst|].
  exact (proj1 (process_catalog_samples_are_failures true ["BGSUB"]
                  twelve_failures "BGSUB" st Hst)).
Defined.

Lemma grows_refl (st : file_stats) : grows st st.
Proof. repeat split; auto. Qed.

Lemma grows_trans (a b c : file_stats) : grows a b -> grows b c -> grows a c.
Proof.
  intros (H1 & H2 & H3) (K1 & K2 & K3). repeat split; try lia.
  now transitivity (errors b).
Qed.

Lemma stats_grow_refl (stats : gmap string file_stats) : stats_grow stats stats.
Proof. intros ft st H. exists st. split; [exact H|apply grows_refl]. Qed.

Lemma stats_grow_trans (a b c : gmap string file_stats) :
  stats_grow a b -> stats_grow b c -> stats_grow a c.
Proof.
  intros Hab Hbc ft st H.
  destruct (Hab ft st H) as (st1 & H1 & G1).
  destruct (Hbc ft st1 H1) as (st2 & H2 & G2).
  exists st2. split; [exact H2|]. eapply grows_trans; eassumption.
Qed.

Lemma stats_grow_insert (stats : gmap string file_stats) (ft : string)
    (s s' : file_stats) :
  stats !! ft = Some s -> grows s s' -> stats_grow stats (<[ft := s']> stats).
Proof.
  intros Hs Hg k st Hk. destruct (decide (k = ft)) as [-> | Hne].
  - rewrite lookup_insert_eq. exists s'. split; [reflexivity|congruence].
  - rewrite lookup_insert_ne by congruence. exists st.
    split; [exact Hk|apply grows_refl].
Qed.

Lemma sample_error_grows (verbose : bool) (msg : string) (s : file_stats) :
  grows s (sample_error verbose msg s).
Proof.
  unfold sample_error. destruct (verbose && _); [|apply grows_refl].
  repeat split; cbn; auto. now apply prefix_app_r.
Qed.

Lemma fail_all_grows (file_types : list string)
    (stats : gmap string file_stats) :
  stats_grow stats (fail_all file_types stats).
Proof.
  unfold fail_all. revert stats.
  induction file_types as [|ft fts IH]; intros stats; [apply stats_grow_refl|].
  cbn [fold_left]. eapply stats_grow_trans; [|apply IH].
  intros k st Hk. destruct (decide (k = ft)) as [-> | Hne].
  - rewrite lookup_alter_eq, Hk. cbn. eexists. split; [reflexivity|].
    repeat split; cbn; auto.
  - rewrite lookup_alter_ne by congruence. exists st.
    split; [exact Hk|apply grows_refl].
Qed.

Lemma record_results_grows (verbose : bool) (obj_id : string)
    (results : list (string * string)) (stats : gmap string file_stats) :
  stats_grow stats (fst (record_results verbose obj_id results stats)).
Proof.
  revert stats. induction results as [|[k status] rest IH]; intros stats;
    [apply stats_grow_refl|].
  cbn [record_results record_status].
  destruct (stats !! k) as [s|] eqn:Hk; [|apply stats_grow_refl].
  destruct (String.eqb status "success");
    (eapply stats_grow_trans; [|apply IH]);
    apply (stats_grow_insert _ _ s); try exact Hk.
  - repeat split; cbn; auto.
  - eapply grows_trans; [|apply sample_error_grows].
    repeat split; cbn; auto.
Qed.

Lemma absorb_grows (verbose : bool) (file_types : list string)
    (stats : gmap string file_stats) (o : outcome) :
  stats_grow stats (absorb verbose file_types stats o).
Proof.
  destruct o as [obj results | e]; cbn [absorb]; [|apply fail_all_grows].
  pose proof (record_results_grows verbose obj results stats) as H.
  destruct (record_results verbose obj results stats) as [stats' [e|]];
    cbn in H; [|exact H].
  eapply stats_grow_trans; [exact H|apply fail_all_grows].
Qed.

(** X11.  The statistics only grow while [process_catalog] consumes the
    outcomes: from any point of the run to its end, no counter of any
    product type decreases and the failure samples recorded so far stay
    the first samples of the list - so once ten samples are recorded the
    list does not change any more. *)
Theorem process_catalog_grows (verbose : bool) (file_types : list string)
    (outcomes : list outcome) (n : nat) (ft : string) (st : file_stats) :
  process_catalog verbose file_types (take n outcomes) !! ft = Some st ->
  exists st',
    process_catalog verbose file_types outcomes !! ft = Some st' /\
    (n_success st <= n_success st')%nat /\
    (n_failed st <= n_failed st')%nat /\
    errors st `prefix_of` errors st' /\
    (length (errors st) = 10%nat -> errors st' = errors st).
Proof.
  intros Hst.
  assert (Hfold : forall os stats,
             stats_grow stats (fold_left (absorb verbose file_types) os stats)).
  { induction os as [|o os IH]; intros stats; [apply stats_grow_refl|].
    cbn [fold_left]. eapply stats_grow_trans; [apply absorb_grows|apply IH]. }
  unfold process_catalog in *.
  rewrite <- (take_drop n outcomes). rewrite fold_left_app.
  destruct (Hfold (drop n outcomes) _ ft st Hst) as (st' & Hst' & G1 & G2 & G3).
  exists st'. split; [exact Hst'|]. split; [exact G1|]. split; [exact G2|].
  split; [exact G3|].
  intros Hlen.
  assert (Hcap : (length (errors st') <= 10)%nat).
  { assert (C : capped (fold_left (absorb verbose file_types)
                          (drop n outcomes)
                          (fold_left (absorb verbose file_types)
                             (take n outcomes) (initial_stats file_types)))).
    { rewrite <- fold_left_app, take_drop.
      assert (H : forall os stats, capped stats ->
                    capped (fold_left (absorb verbose file_types) os stats)).
      { induction os as [|o os IH]; intros stats Hc; [exact Hc|].
        cbn [fold_left]. apply IH. now apply absorb_capped. }
      apply H, initial_stats_capped. }
    exact (C _ _ Hst'). }
  destruct G3 as [k Hk]. rewrite Hk in Hcap |- *.
  rewrite length_app in Hcap.
  destruct k; [now rewrite app_nil_r|cbn in Hcap; lia].
Qed.

Lemma process_catalog_grows_witness :
  exists st st',
    process_catalog true ["BGSUB"] (take 10 twelve_failures) !! "BGSUB"
    = Some st /\
    process_catalog true ["BGSUB"] twelve_failures !! "BGSUB" = Some st' /\
    n_failed st = 10%nat /\ n_failed st' = 12%nat /\
    errors st' = errors st.
Proof.
  assert (E : exists st,
             process_catalog true ["BGSUB"] (take 10 twelve_failures)
               !! "BGSUB" = Some st /\ n_failed st = 10%nat /\
             length (errors st) = 10%nat).
  { vm_compute. eexists. repeat split. }
  destruct E as (st & Hst & Hn & Hl).
  destruct (process_catalog_grows true ["BGSUB"] twelve_failures 10
              "BGSUB" st Hst) as (st' & Hst' & _ & _ & _ & Hsame).
  exists st, st'. repeat split; try assumption.
  - revert Hst'. vm_compute. now intros [= <-].
  - now apply Hsame.
Defined.

End BatchInvariants.

(** ** One source, and the counts of a whole catalog *)

Section WorkerProperties.
Import FileNames TileIndex Extract Batch Cache Worker Shapes.
Context `{G : SkyGeometry} `{A : Archive} `{D : Disk} `{F : PyFormat}.

Lemma dict_set_keys (k v : string) (d : list (string * string)) (x : string) :
  x ∈ map fst (dict_set k v d) <-> x = k \/ x ∈ map fst d.
Proof.
  induction d as [|[k' v'] d IH]; cbn [dict_set map fst].
  - rewrite list_elem_of_singleton. rewrite elem_of_nil. tauto.
  - destruct (String.eqb_spec k' k) as [->|Hne]; cbn [map fst];
      rewrite !elem_of_cons; [tauto|rewrite IH; tauto].
Qed.

Lemma dict_set_nodup (k v : string) (d : list (string * string)) :
  NoDup (map fst d) -> NoDup (map fst (dict_set k v d)).
Proof.
  induction d as [|[k' v'] d IH]; cbn [dict_set map fst]; intros Hnd.
  - apply NoDup_singleton.
  - apply NoDup_cons in Hnd as [Hfresh Hnd].
    destruct (String.eqb_spec k' k) as [->|Hne]; cbn [map fst].
    + now apply NoDup_cons.
    + apply NoDup_cons. split; [|now apply IH].
      rewrite dict_set_keys. intros [->|Hin]; [congruence|contradiction].
Qed.

Lemma dict_set_values (f : string -> string) (k : string)
    (d : list (string * string)) :
  (forall x v, (x, v) ∈ d -> v = f x) ->
  forall x v, (x, v) ∈ dict_set k (f k) d -> v = f x.
Proof.
  induction d as [|[k' v'] d IH]; cbn [dict_set]; intros Hd x v Hin.
  - apply list_elem_of_singleton in Hin. now injection Hin as -> ->.
  - destruct (String.eqb_spec k' k) as [->|Hne];
      apply elem_of_cons in Hin as [E|Hin].
    + now injection E as -> ->.
    + apply Hd. now right.
    + apply Hd. rewrite E. now left.
    + apply IH; [|exact Hin]. intros y w Hy. apply Hd. now right.
Qed.

(** The result dictionary has one item per requested product type. *)
Lemma results_dict (f : string -> string) (file_types : list string) :
  let results :=
    fold_left (fun results ft => dict_set ft (f ft) results) file_types [] in
  NoDup (map fst results) /\
  (forall x, x ∈ map fst results <-> x ∈ file_types) /\
  (forall x v, (x, v) ∈ results -> v = f x).
Proof.
  cbv zeta.
  assert (H : forall fts d,
             NoDup (map fst d) -> (forall x v, (x, v) ∈ d -> v = f x) ->
             let r := fold_left (fun results ft => dict_set ft (f ft) results)
                        fts d in
             NoDup (map fst r) /\
             (forall x, x ∈ map fst r <-> x ∈ fts \/ x ∈ map fst d) /\
             (forall x v, (x, v) ∈ r -> v = f x)).
  { induction fts as [|ft fts IH]; intros d Hnd Hv; cbn [fold_left].
    - split; [exact Hnd|]. split; [|exact Hv].
      intros x. rewrite elem_of_nil. tauto.
    - destruct (IH (dict_set ft (f ft) d)) as (H1 & H2 & H3).
      + now apply dict_set_nodup.
      + now apply dict_set_values.
      + split; [exact H1|]. split; [|exact H3].
        intros x. rewrite H2, dict_set_keys, elem_of_cons. tauto. }
  destruct (H file_types []) as (H1 & H2 & H3).
  - apply NoDup_nil_2.
  - intros x v Hx. now apply elem_of_nil in Hx.
  - split; [exact H1|]. split; [|exact H3].
    intros x. rewrite H2. cbn. rewrite elem_of_nil. tauto.
Qed.

Lemma record_results_counts (verbose : bool) (obj_id : string)
    (items : list (string * string)) (stats : gmap string file_stats) :
  NoDup (map fst items) ->
  (forall k, k ∈ map fst items -> is_Some (stats !! k)) ->
  exists stats',
    record_results verbose obj_id items stats = (stats', None) /\
    (forall k, k ∉ map fst items -> stats' !! k = stats !! k) /\
    (forall k v st, (k, v) ∈ items -> stats !! k = Some st ->
       exists st', stats' !! k = Some st' /\ counted v st st').
Proof.
  revert stats. induction items as [|[k0 v0] rest IH]; intros stats Hnd Hdom.
  - exists stats. split; [reflexivity|]. split; [reflexivity|].
    intros k v st Hin. now apply elem_of_nil in Hin.
  - cbn [map fst] in Hnd, Hdom. apply NoDup_cons in Hnd as [Hfresh Hnd].
    destruct (Hdom k0) as [s0 Hs0]; [now left|].
    cbn [record_results record_status]. rewrite Hs0.
    set (s1 := if String.eqb v0 "success" then bump_success s0
               else sample_error verbose (obj_id ++ ": " ++ v0)
                      (bump_failed s0)).
    assert (E : (if String.eqb v0 "success"
                 then Ok (<[k0 := bump_success s0]> stats)
                 else Ok (<[k0 := sample_error verbose (obj_id ++ ": " ++ v0)
                                    (bump_failed s0)]> stats))
                = Ok (<[k0 := s1]> stats)).
    { subst s1. now destruct (String.eqb v0 "success"). }
    rewrite E. clear E.
    destruct (IH (<[k0 := s1]> stats) Hnd) as (stats' & Hrun & Hout & Hin).
    { intros k Hk. destruct (decide (k = k0)) as [->|Hne].
      - rewrite lookup_insert_eq. eauto.
      - rewrite lookup_insert_ne by congruence. apply Hdom. now right. }
    exists stats'. split; [exact Hrun|]. split.
    + intros k Hk. cbn [map fst] in Hk. apply not_elem_of_cons in Hk as [Hne Hk].
      rewrite Hout by exact Hk. now rewrite lookup_insert_ne by congruence.
    + intros k v st Hkv Hst. apply elem_of_cons in Hkv as [E|Hkv].
      * injection E as -> ->. rewrite Hout by exact Hfresh.
        rewrite lookup_insert_eq. exists s1. split; [reflexivity|].
        assert (st = s0) as -> by congruence.
        subst s1. unfold counted. destruct (String.eqb v0 "success").
        -- now cbn.
        -- unfold sample_error. now destruct (verbose && _).
      * assert (Hne : k <> k0).
        { intros ->. apply Hfresh, list_elem_of_In, in_map_iff.
          exists (k0, v). split; [reflexivity|now apply list_elem_of_In]. }
        apply (Hin k v st Hkv). now rewrite lookup_insert_ne by congruence.
Qed.

Lemma initial_stats_lookup (file_types : list string) (ft : string) :
  ft ∈ file_types ->
  initial_stats file_types !! ft
  = Some {| n_success := 0; n_failed := 0; errors := [] |}.
Proof.
  unfold initial_stats. induction file_types as [|x fts IH]; intros Hft.
  - now apply elem_of_nil in Hft.
  - cbn. destruct (decide (ft = x)) as [->|Hne].
    + apply lookup_insert_eq.
    + rewrite lookup_insert_ne by congruence. apply IH.
      apply elem_of_cons in Hft as [->|Hft]; [contradiction|exact Hft].
Qed.

Lemma status_success (fs : node) (args : worker_args) (row : catalog_row)
    (ft : string) :
  row_tile_id row <> EmptyString ->
  String.eqb (source_status fs args row ft) "success"
  = delivered fs args ft row.
Proof.
  intros Ht. unfold source_status, delivered.
  destruct (String.eqb_spec (row_tile_id row) EmptyString) as [E|_];
    [contradiction|].
  cbn [negb andb].
  destruct (t_success _) eqn:Hs; cbn [andb].
  - unfold save_cutouts. rewrite Hs. cbn [negb].
    now destruct (hdul_writeto _ _).
  - rewrite append_cons. reflexivity.
Qed.

(** One row moves the counters of every requested product type by one:
    the success counter if the source is delivered, the failure counter
    otherwise. *)
Lemma absorb_row (fs : node) (args : worker_args) (row : catalog_row)
    (stats : gmap string file_stats) (ft : string) (st : file_stats) :
  (forall k, k ∈ a_file_types args -> is_Some (stats !! k)) ->
  ft ∈ a_file_types args -> stats !! ft = Some st ->
  exists st',
    absorb (a_verbose args) (a_file_types args) stats
      (let '(obj_id, results) := _process_single_source_parallel fs args row in
       Returned obj_id results) !! ft = Some st' /\
    (if delivered fs args ft row
     then n_success st' = S (n_success st) /\ n_failed st' = n_failed st
     else n_success st' = n_success st /\ n_failed st' = S (n_failed st)).
Proof.
  intros Hdom Hft Hst. unfold _process_single_source_parallel.
  destruct (String.eqb_spec (row_tile_id row) EmptyString) as [Ht|Ht].
  - destruct (results_dict (fun _ => "no_tile") (a_file_types args))
      as (Hnd & Hkeys & Hvals).
    cbn [absorb].
    destruct (record_results_counts (a_verbose args) (obj_id_of row) _ stats
                Hnd) as (stats' & -> & _ & Hin).
    { intros k Hk. apply Hdom, Hkeys, Hk. }
    assert (Hk : ft ∈ map fst
              (fold_left (fun results ft0 => dict_set ft0 "no_tile" results)
                 (a_file_types args) [])) by now apply Hkeys.
    apply list_elem_of_In, in_map_iff in Hk as ([k v] & Ek & Hk).
    cbn in Ek. subst k. apply list_elem_of_In in Hk.
    pose proof (Hvals _ _ Hk) as ->.
    destruct (Hin ft "no_tile" st Hk Hst) as (st' & Hst' & Hc).
    exists st'. split; [exact Hst'|].
    unfold delivered. rewrite Ht. exact Hc.
  - destruct (results_dict (source_status fs args row) (a_file_types args))
      as (Hnd & Hkeys & Hvals).
    cbn [absorb].
    destruct (record_results_counts (a_verbose args) (obj_id_of row) _ stats
                Hnd) as (stats' & -> & _ & Hin).
    { intros k Hk. apply Hdom, Hkeys, Hk. }
    assert (Hk : ft ∈ map fst
              (fold_left
                 (fun results ft0 =>
                    dict_set ft0 (source_status fs args row ft0) results)
                 (a_file_types args) [])) by now apply Hkeys.
    apply list_elem_of_In, in_map_iff in Hk as ([k v] & Ek & Hk).
    cbn in Ek. subst k. apply list_elem_of_In in Hk.
    pose proof (Hvals _ _ Hk) as ->.
    destruct (Hin ft _ st Hk Hst) as (st' & Hst' & Hc).
    exists st'. split; [exact Hst'|].
    unfold counted in Hc. now rewrite status_success in Hc.
Qed.

Lemma absorb_keys (verbose : bool) (file_types : list string)
    (stats : gmap string file_stats) (o : outcome) (k : string) :
  is_Some (stats !! k) -> is_Some (absorb verbose file_types stats o !! k).
Proof.
  intros [st Hst].
  destruct (absorb_grows verbose file_types stats o k st Hst) as (st' & -> & _).
  eauto.
Qed.

(** X12.  Every row of the catalog is counted exactly once for every
    requested product type: after the sequential run of
    [process_catalog], the success counter of a type is the number of
    rows delivered for it (the row has a tile, the tile extraction
    succeeds and the file is written) and the failure counter is the
    number of the other rows, so the two add up to the number of rows.
    A row without a tile counts as a failure of every type. *)
Theorem process_catalog_counts (Table_read : table_reader)
    (tile_index_file : string) (fs : node) (args : worker_args)
    (has_tile_id : bool) (rows : list catalog_row) (ft : string) :
  ft ∈ a_file_types args ->
  let rows' := fill_tile_ids Table_read tile_index_file has_tile_id rows in
  exists st,
    process_catalog_rows Table_read tile_index_file fs args has_tile_id rows
      !! ft = Some st /\
    n_success st = length (List.filter (delivered fs args ft) rows') /\
    n_failed st
    = length (List.filter (fun row => negb (delivered fs args ft row)) rows') /\
    (n_success st + n_failed st = length rows)%nat.
Proof.
  intros Hft rows'. unfold process_catalog_rows, process_catalog.
  fold rows'.
  assert (Hlen : length rows' = length rows).
  { subst rows'. unfold fill_tile_ids. destruct has_tile_id; [reflexivity|].
    apply length_map. }
  rewrite <- Hlen. clear Hlen.
  assert (Hgen : forall rs stats st0,
             (forall k, k ∈ a_file_types args -> is_Some (stats !! k)) ->
             stats !! ft = Some st0 ->
             exists st,
               fold_left (absorb (a_verbose args) (a_file_types args))
                 (map (fun row =>
                         let '(obj_id, results) :=
                           _process_single_source_parallel fs args row in
                         Returned obj_id results) rs) stats !! ft = Some st /\
               n_success st
               = (n_success st0 + length (List.filter (delivered fs args ft) rs))%nat /\
               n_failed st
               = (n_failed st0
                  + length (List.filter
                              (fun row => negb (delivered fs args ft row)) rs))%nat /\
               (n_success st + n_failed st
                = n_success st0 + n_failed st0 + length rs)%nat).
  { induction rs as [|row rs IH]; intros stats st0 Hdom Hst0.
    - exists st0. cbn. split; [exact Hst0|]. lia.
    - cbn [map fold_left].
      destruct (absorb_row fs args row stats ft st0 Hdom Hft Hst0)
        as (st1 & Hst1 & Hc).
      destruct (IH _ st1 (fun k Hk => absorb_keys _ _ _ _ k (Hdom k Hk)) Hst1)
        as (st & Hst & H1 & H2 & H3).
      exists st. split; [exact Hst|]. cbn [List.filter].
      destruct (delivered fs args ft row); cbn [negb length];
        destruct Hc as [C1 C2]; lia. }
  destruct (Hgen rows' (initial_stats (a_file_types args))
              {| n_success := 0; n_failed := 0; errors := [] |})
    as (st & Hst & H1 & H2 & H3).
  - intros k Hk. rewrite initial_stats_lookup by exact Hk. eauto.
  - now apply initial_stats_lookup.
  - exists st. split; [exact Hst|]. cbn in H1, H2, H3. now repeat split.
Qed.

End WorkerProperties.

Section WorkerExamples.
Import FileNames TileIndex Extract Batch Cache Worker.

Lemma process_catalog_counts_witness :
  exists st,
    @process_catalog_rows taxicab (archive_with (stamp_file 4 5 5))
      willing_disk plain_format (index_of [tile_a; tile_b])
      "tile_coordinates.fits" sample_archive sample_args false sample_rows
      !! "BGSUB" = Some st /\
    n_success st = 1%nat /\ n_failed st = 1%nat.
Proof.
  destruct (@process_catalog_counts taxicab (archive_with (stamp_file 4 5 5))
              willing_disk plain_format (index_of [tile_a; tile_b])
              "tile_coordinates.fits" sample_archive sample_args false
              sample_rows "BGSUB")
    as (st & Hst & H1 & H2 & _).
  - apply elem_of_cons. now left.
  - exists st. split; [exact Hst|]. split.
    + rewrite H1. vm_compute. reflexivity.
    + rewrite H2. vm_compute. reflexivity.
Defined.

End WorkerExamples.

(** ** Unified file names and the permanent tier *)

Section UnifiedNames.
Import Cache Shapes.
Context `{F : PyFormat}.

Lemma unified_filename_unfold (target_id file_type instrument : string)
    (band : option string) (radec : option (Q * Q)) :
  exists prefix,
    build_unified_filename target_id file_type instrument band radec
    = prefix ++ (if String.eqb (clean_band band) "VIS" then EmptyString
                 else "_" ++ clean_band band) ++ ".fits"
    /\ forall band',
         build_unified_filename target_id file_type instrument band' radec
         = prefix ++ (if String.eqb (clean_band band') "VIS" then EmptyString
                      else "_" ++ clean_band band') ++ ".fits".
Proof.
  unfold build_unified_filename.
  set (tid := if String.eqb target_id EmptyString then _ else target_id).
  exists (tid ++ "_" ++ str_upper instrument ++ "_"
          ++ str_replace "-" "_" file_type).
  assert (H : forall b,
             (if String.eqb (clean_band b) "VIS"
              then tid ++ "_" ++ str_upper instrument ++ "_"
                   ++ str_replace "-" "_" file_type ++ ".fits"
              else tid ++ "_" ++ str_upper instrument ++ "_"
                   ++ str_replace "-" "_" file_type ++ "_"
                   ++ clean_band b ++ ".fits")
             = (tid ++ "_" ++ str_upper instrument ++ "_"
                ++ str_replace "-" "_" file_type)
               ++ (if String.eqb (clean_band b) "VIS" then EmptyString
                   else "_" ++ clean_band b) ++ ".fits").
  { intros b. destruct (String.eqb (clean_band b) "VIS");
      now rewrite !append_assoc. }
  split; [apply H|intros band'; apply H].
Qed.

(** X13.  For one target, instrument and product type, two bands give
    the same unified file name exactly when they read the same after the
    normalisation of the function: upper-cased, with an absent or empty
    band read as VIS.  So a band and its lower-case spelling share a
    name, and distinct normalised bands never do. *)
Theorem unified_filename_bands (target_id file_type instrument : string)
    (band1 band2 : option string) (radec : option (Q * Q)) :
  build_unified_filename target_id file_type instrument band1 radec
  = build_unified_filename target_id file_type instrument band2 radec
  <-> clean_band band1 = clean_band band2.
Proof.
  destruct (unified_filename_unfold target_id file_type instrument band1
              radec) as (prefix & _ & H).
  rewrite (H band1), (H band2). split.
  - intros E. apply append_cancel_l in E.
    destruct (String.eqb_spec (clean_band band1) "VIS") as [E1|N1];
      destruct (String.eqb_spec (clean_band band2) "VIS") as [E2|N2].
    + congruence.
    + rewrite append_nil, append_assoc in E. discriminate E.
    + rewrite append_nil, append_assoc in E. discriminate E.
    + rewrite !append_assoc in E. apply append_cancel_l in E.
      now apply append_cancel_r in E.
  - now intros ->.
Qed.

End UnifiedNames.

Section UnifiedNamesExamples.
Import Cache Shapes.

Example unified_filename_samples :
  @build_unified_filename plain_format "2687494719" "CATALOG-PSF" "nisp"
    (Some "nir-y") None = "2687494719_NISP_CATALOG_PSF_NIR-Y.fits"
  /\ @build_unified_filename plain_format EmptyString "BGSUB" "VIS" None
       (Some (1501234564 # 10000000, - (22 # 10)))
     = "RA_15012345640_Dec_220000000_VIS_BGSUB.fits".
Proof. vm_compute. split; reflexivity. Qed.

End UnifiedNamesExamples.

Section BandCacheScan.
Import Cache Shapes.
Context `{F : PyFormat}.









End BandCacheScan.

Section BandCacheScanExamples.
Import Cache Shapes.



End BandCacheScanExamples.

(** ** More on the cached task pipeline *)

Section PipelineRerun.
Import Cache Shapes.
Context `{F : PyFormat} `{O : SetOrder} `{E : CutoutEngine}.

(** A run that sets out to do the work either fails before it has
    stored anything, or leaves the result archive. *)
Lemma process_task_outcome (fs : gmap fpath fits_file) (task_id : string)
    (table : result (list source)) (cfg : task_config) :
  let r := process_task fs task_id table cfg in
  match failure r with
  | Some _ => fs_after r = fs /\ fs !! PermanentZip task_id = None
  | None => is_Some (fs_after r !! PermanentZip task_id)
  end.
Proof.
  unfold process_task.
  destruct (bool_decide (is_Some (fs !! PermanentZip task_id))) eqn:Hz.
  - now apply bool_decide_eq_true_1 in Hz.
  - apply bool_decide_eq_false_1 in Hz.
    assert (Hnone : fs !! PermanentZip task_id = None)
      by (destruct (fs !! PermanentZip task_id); [exfalso; eauto | easy]).
    destruct table as [catalog|e]; [|now split].
    cbv zeta.
    assert (Hzip : forall fs3,
               is_Some (rmtree_output task_id
                          (<[OutputZip task_id := zip_archive]>
                             (<[PermanentZip task_id := zip_archive]> fs3))
                        !! PermanentZip task_id)).
    { intros fs3. rewrite rmtree_output_lookup. cbn [outside_output].
      rewrite lookup_insert_ne by discriminate.
      rewrite lookup_insert_eq. eauto. }
    destruct (sources_to_process (plan fs cfg catalog)) as [|j jobs];
      [apply Hzip|].
    destruct (process_catalog_files _ cfg) as [temp|e];
      cbn [mbind result_bind failure fs_after]; [apply Hzip | now split].
Qed.

(** X18.  A task that has run to its end is not run again: after a run
    of [process_task] that did not end in the [except] branch, any later
    run for the same task id - whatever catalog and configuration it is
    given, readable or not - finds the result archive, leaves the stores
    as they are and calls the extraction engine not at all.  A run that
    failed because its catalog could not be read or because the engine
    raised has stored nothing and left no archive, so that the next run
    for the task starts over and, given the same inputs, ends as the
    first did. *)
Theorem process_task_rerun (fs : gmap fpath fits_file) (task_id : string)
    (table table' : result (list source)) (cfg cfg' : task_config) :
  let r := process_task fs task_id table cfg in
  (failure r = None ->
   process_task (fs_after r) task_id table' cfg'
   = {| fs_after := fs_after r; extraction_calls := []; failure := None |})
  /\ (forall e, failure r = Some e ->
        fs_after r = fs /\ fs !! PermanentZip task_id = None /\
        process_task (fs_after r) task_id table cfg = r).
Proof.
  intros r. pose proof (process_task_outcome fs task_id table cfg) as H.
  fold r in H. cbv zeta in H. split.
  - intros Hok. rewrite Hok in H.
    unfold process_task at 1.
    now rewrite bool_decide_eq_true_2 by exact H.
  - intros e He. rewrite He in H. destruct H as [Hfs Hz].
    split; [exact Hfs|]. split; [exact Hz|]. now rewrite Hfs.
Qed.

End PipelineRerun.

Section PipelineRerunExamples.
Import Cache Shapes.

Lemma process_task_rerun_witness :
  failure first_run = None
  /\ @process_task plain_format first_seen eager_engine (fs_after first_run)
       "task-1" (Raise (ValueError "no RA column")) sample_config
     = {| fs_after := fs_after first_run; extraction_calls := [];
          failure := None |}
  /\ (let r := @process_task plain_format first_seen failing_engine ∅
                 "task-1" (Ok [sample_source]) sample_config in
      is_Some (failure r) /\ fs_after r = ∅ /\
      extraction_calls r = [[sample_source]]).
Proof.
  assert (Hok : failure first_run = None) by (vm_compute; reflexivity).
  split; [exact Hok|]. split.
  - apply (@process_task_rerun plain_format first_seen eager_engine ∅
             "task-1" (Ok [sample_source])
             (Raise (ValueError "no RA column")) sample_config
             sample_config).
    exact Hok.
  - intros r.
    assert (He : failure r
                 = Some (ValueError "max_workers must be greater than 0"))
      by (vm_compute; reflexivity).
    destruct (@process_task_rerun plain_format first_seen failing_engine ∅
                "task-1" (Ok [sample_source]) (Ok [sample_source])
                sample_config sample_config) as [_ H].
    destruct (H _ He) as (Hfs & _ & _).
    split; [rewrite He; eauto|]. split; [exact Hfs|].
    vm_compute. reflexivity.
Defined.

End PipelineRerunExamples.

Section PipelinePlanning.
Import Cache Shapes.
Context `{F : PyFormat} `{O : SetOrder} `{E : CutoutEngine}.

(** The jobs planned for one source: none exactly when every requested
    instrument and product type has its per-run cache file. *)
Lemma plan_source_jobs (fs : gmap fpath fits_file) (cfg : task_config)
    (i : nat) (s : source) :
  (forall j, j ∈ sources_to_process (plan_source fs cfg i s) -> j_index j = i)
  /\ (uncached fs cfg s = true <->
      exists j, j ∈ sources_to_process (plan_source fs cfg i s)).
Proof.
  unfold sources_to_process, plan_source, uncached. split.
  - intros j Hj. apply list_elem_of_omap in Hj as ([c|j'] & Hp & Hj);
      [discriminate|].
    injection Hj as ->.
    apply list_elem_of_In, in_flat_map in Hp as (inst & _ & Hp).
    apply in_map_iff in Hp as (ft & Hp & _).
    destruct (bool_decide _); [discriminate|]. now injection Hp as <-.
  - rewrite existsb_exists. split.
    + intros (inst & Hinst & Hft). apply existsb_exists in Hft as (ft & Hft & Hn).
      apply negb_true_iff in Hn.
      eexists. apply list_elem_of_omap.
      eexists (ToProcess _). split; [|reflexivity].
      apply list_elem_of_In, in_flat_map. exists inst. split; [exact Hinst|].
      apply in_map_iff. exists ft. split; [|exact Hft].
      cbv zeta. rewrite Hn. reflexivity.
    + intros (j & Hj).
      apply list_elem_of_omap in Hj as ([c|j'] & Hp & Hj); [discriminate|].
      apply list_elem_of_In, in_flat_map in Hp as (inst & Hinst & Hp).
      apply in_map_iff in Hp as (ft & Hp & Hft).
      exists inst. split; [exact Hinst|].
      apply existsb_exists. exists ft. split; [exact Hft|].
      cbv zeta in Hp. destruct (bool_decide _); [discriminate|reflexivity].
Qed.

Lemma sources_to_process_flat_map {X} (f : X -> list planned) (l : list X)
    (j : job) :
  j ∈ sources_to_process (flat_map f l)
  <-> exists x, x ∈ l /\ j ∈ sources_to_process (f x).
Proof.
  unfold sources_to_process. rewrite list_elem_of_omap. split.
  - intros (p & Hp & Hj).
    apply list_elem_of_In, in_flat_map in Hp as (x & Hx & Hp).
    exists x. split; [now apply list_elem_of_In|].
    apply list_elem_of_omap. exists p. split; [now apply list_elem_of_In|exact Hj].
  - intros (x & Hx & Hj). apply list_elem_of_omap in Hj as (p & Hp & Hj).
    exists p. split; [|exact Hj].
    apply list_elem_of_In, in_flat_map. exists x.
    split; now apply list_elem_of_In.
Qed.

(** The indices that have a job are those of the rows to extract. *)
Lemma planned_index (fs : gmap fpath fits_file) (cfg : task_config)
    (catalog : list source) (i : nat) :
  i ∈ map j_index (sources_to_process (plan fs cfg catalog))
  <-> exists s, catalog !! i = Some s /\ to_extract fs cfg s = true.
Proof.
  unfold plan, to_extract. split.
  - intros Hin. apply list_elem_of_In, in_map_iff in Hin as (j & Hji & Hj).
    apply list_elem_of_In, sources_to_process_flat_map in Hj
      as ([i' s'] & Hx & Hj).
    apply elem_of_lookup_imap in Hx as (k & y & Hk & Hy).
    injection Hk as -> ->.
    destruct (s_masked y) eqn:Hm; [now apply elem_of_nil in Hj|].
    destruct (plan_source_jobs fs cfg k y) as [Hidx Hun].
    rewrite (Hidx j Hj) in Hji. subst k.
    exists y. split; [exact Hy|]. rewrite Hm. cbn [negb andb].
    apply Hun. eauto.
  - intros (s & Hi & Hw). apply andb_true_iff in Hw as [Hm Hun].
    apply negb_true_iff in Hm.
    destruct (plan_source_jobs fs cfg i s) as [Hidx Hjob].
    apply Hjob in Hun as (j & Hj).
    apply list_elem_of_In, in_map_iff. exists j. split; [now apply Hidx|].
    apply list_elem_of_In, sources_to_process_flat_map. exists (i, s).
    split; [|now rewrite Hm].
    apply elem_of_lookup_imap. exists i, s. now split.
Qed.

(** Looking up the selected positions of a list, in order, gives its
    selected elements. *)
Lemma omap_lookup_selected {X} (p : X -> bool) (pre l : list X) :
  omap (fun i => (pre ++ l)%list !! i)
    (filter (fun i => (default false (p <$> (pre ++ l)%list !! i)) = true)
       (seq (length pre) (length l)))
  = List.filter p l.
Proof.
  revert pre. induction l as [|x l IH]; intros pre; [reflexivity|].
  cbn [length seq List.filter].
  specialize (IH (pre ++ [x])%list).
  rewrite <- app_assoc, length_app in IH. cbn [app length] in IH.
  rewrite Nat.add_1_r in IH.
  assert (Hx : (pre ++ x :: l)%list !! length pre = Some x)
    by (rewrite lookup_app_r by lia; now rewrite Nat.sub_diag).
  destruct (p x) eqn:Hp.
  - rewrite filter_cons_True by (rewrite Hx; exact Hp).
    cbn [omap list_omap]. rewrite Hx. f_equal. exact IH.
  - rewrite filter_cons_False
      by (rewrite Hx; cbn; rewrite Hp; discriminate).
    exact IH.
Qed.

(** The rows at a set of positions, taken once each in any order, are
    the selected rows up to their order. *)
Lemma rows_of_indices {X} (p : X -> bool) (l : list X) (idx : list nat) :
  NoDup idx ->
  (forall i, i ∈ idx <-> exists x, l !! i = Some x /\ p x = true) ->
  omap (fun i => l !! i) idx ≡ₚ List.filter p l.
Proof.
  intros Hnd Hidx.
  rewrite <- (omap_lookup_selected p [] l). cbn [app length].
  apply omap_Permutation, NoDup_Permutation;
    [exact Hnd | apply NoDup_filter, NoDup_seq|].
  intros i. rewrite Hidx, list_elem_of_filter, elem_of_seq. split.
  - intros (x & Hi & Hp). rewrite Hi. cbn. split; [exact Hp|].
    apply lookup_lt_Some in Hi. lia.
  - intros [Hp _]. destruct (l !! i) as [x|]; [|discriminate Hp].
    exists x. now split.
Qed.

(** X19.  Which rows reach the extraction engine.  A run of
    [process_task] that reads its catalog and does not find its result
    archive calls the engine at most once, and on exactly the rows of
    the catalog whose target id is not masked and that lack a per-run
    cache file for some requested instrument and product type: each such
    row once, in the order in which Python iterates over the set of
    their indices, which need not be the order of the catalog.  When no
    row is such a row the engine is not called. *)
Theorem process_task_extracts_uncached (fs : gmap fpath fits_file)
    (task_id : string) (catalog : list source) (cfg : task_config) :
  fs !! PermanentZip task_id = None ->
  match extraction_calls (process_task fs task_id (Ok catalog) cfg) with
  | [] => List.filter (to_extract fs cfg) catalog = []
  | [rows] => rows <> [] /\ rows ≡ₚ List.filter (to_extract fs cfg) catalog
  | _ => False
  end.
Proof.
  intros Hz. unfold process_task.
  rewrite bool_decide_eq_false_2 by (rewrite Hz; now intros [? [=]]).
  cbv zeta.
  assert (Hrows :
            omap (fun i => catalog !! i)
              (list_set (map j_index
                           (sources_to_process (plan fs cfg catalog))))
            ≡ₚ List.filter (to_extract fs cfg) catalog).
  { apply rows_of_indices; [apply list_set_NoDup|].
    intros i. rewrite list_set_elem. apply planned_index. }
  destruct (sources_to_process (plan fs cfg catalog)) as [|j jobs] eqn:Hjobs.
  - cbn [extraction_calls].
    destruct (List.filter (to_extract fs cfg) catalog) as [|s rows] eqn:Hf;
      [reflexivity|].
    exfalso.
    assert (Hs : s ∈ List.filter (to_extract fs cfg) catalog)
      by (rewrite Hf; now left).
    apply list_elem_of_In, filter_In in Hs as [Hs Hun].
    apply list_elem_of_In, list_elem_of_lookup in Hs as [i Hi].
    assert (Hin : i ∈ map j_index (sources_to_process (plan fs cfg catalog)))
      by (apply planned_index; eauto).
    rewrite Hjobs in Hin. now apply elem_of_nil in Hin.
  - assert (Hne : List.filter (to_extract fs cfg) catalog <> []).
    { assert (Hin : j_index j ∈ map j_index
                                  (sources_to_process (plan fs cfg catalog)))
        by (rewrite Hjobs; now left).
      apply planned_index in Hin as (s & Hi & Hw).
      intros Hnil.
      assert (Hs : s ∈ List.filter (to_extract fs cfg) catalog).
      { apply list_elem_of_In, filter_In. split; [|exact Hw].
        apply list_elem_of_In. eapply list_elem_of_lookup_2; exact Hi. }
      rewrite Hnil in Hs. now apply elem_of_nil in Hs. }
    destruct (process_catalog_files _ cfg) as [temp|e];
      cbn [mbind result_bind extraction_calls].
    + split; [|exact Hrows].
      intros Hnil. rewrite Hnil in Hrows.
      apply Permutation_nil_l in Hrows. now symmetry in Hrows.
    + split; [|exact Hrows].
      intros Hnil. rewrite Hnil in Hrows.
      apply Permutation_nil_l in Hrows. now symmetry in Hrows.
Qed.

(** X20.  With a band requested, the per-run cache delivers nothing: the
    loop that copies the cached files of the plan leaves the stores as
    they are, because the name it logs before copying is bound only on
    the path taken without a band. *)
Theorem cached_files_not_copied_with_band (fs fs1 : gmap fpath fits_file)
    (task_id : string) (catalog : list source) (cfg : task_config)
    (band : string) :
  cfg_band cfg = Some band -> band <> EmptyString ->
  fold_left (copy_cached task_id) (cached_sources_info (plan fs cfg catalog))
    (fs1, false)
  = (fs1, false).
Proof.
  intros Hband Hne.
  assert (Hall : forall c, c ∈ cached_sources_info (plan fs cfg catalog) ->
                           c_band c = Some band).
  { intros c Hc. unfold cached_sources_info in Hc.
    apply list_elem_of_omap in Hc as ([c'|j] & Hp & Hc); [|discriminate].
    injection Hc as ->. unfold plan in Hp.
    apply list_elem_of_In, in_flat_map in Hp as ([i s] & _ & Hp).
    destruct (s_masked s); [contradiction|].
    unfold plan_source in Hp.
    apply in_flat_map in Hp as (inst & _ & Hp).
    apply in_map_iff in Hp as (ft & Hp & _). cbv zeta in Hp.
    destruct (bool_decide _); [|discriminate].
    injection Hp as <-. exact Hband. }
  induction (cached_sources_info (plan fs cfg catalog)) as [|c l IH];
    [reflexivity|].
  cbn [fold_left]. rewrite <- IH at 2 by (intros; apply Hall; now right).
  f_equal. unfold copy_cached. rewrite (Hall c) by now left.
  cbn [or_default].
  destruct (String.eqb_spec band EmptyString) as [|_]; [contradiction|].
  now rewrite (proj2 (String.eqb_neq band EmptyString) Hne).
Qed.

End PipelinePlanning.

Section PipelinePlanningExamples.
Import Cache Shapes.

Lemma process_task_extracts_uncached_witness :
  extraction_calls
    (@process_task plain_format first_seen eager_engine ∅ "task-1"
       (Ok [masked_source; sample_source]) sample_config)
  = [[sample_source]]
  /\ [sample_source]
      ≡ₚ List.filter (@to_extract plain_format ∅ sample_config)
           [masked_source; sample_source]
  /\ List.filter
       (@to_extract plain_format {[sample_cache_file := zip_archive]}
          sample_config) [sample_source] = [].
Proof.
  pose proof (@process_task_extracts_uncached plain_format first_seen
                eager_engine ∅ "task-1" [masked_source; sample_source]
                sample_config eq_refl) as H1.
  pose proof (@process_task_extracts_uncached plain_format first_seen
                eager_engine {[sample_cache_file := zip_archive]} "task-3"
                [sample_source] sample_config eq_refl) as H2.
  assert (E1 : extraction_calls
                 (@process_task plain_format first_seen eager_engine ∅
                    "task-1" (Ok [masked_source; sample_source])
                    sample_config) = [[sample_source]])
    by (vm_compute; reflexivity).
  assert (E2 : extraction_calls
                 (@process_task plain_format first_seen eager_engine
                    {[sample_cache_file := zip_archive]} "task-3"
                    (Ok [sample_source]) sample_config) = [])
    by (vm_compute; reflexivity).
  rewrite E1 in H1. rewrite E2 in H2.
  split; [exact E1|]. split; [apply H1 | exact H2].
Defined.

Lemma cached_files_not_copied_with_band_witness :
  fold_left (@copy_cached plain_format "task-3")
    (cached_sources_info
       (@plan plain_format {[sample_cache_file := zip_archive]}
          sample_config [sample_source]))
    ({[sample_cache_file := zip_archive]}, false)
  = ({[sample_cache_file := zip_archive]}, false)
  /\ cached_sources_info
       (@plan plain_format {[sample_cache_file := zip_archive]}
          sample_config [sample_source]) <> [].
Proof.
  split.
  - apply (@cached_files_not_copied_with_band plain_format
             {[sample_cache_file := zip_archive]}
             {[sample_cache_file := zip_archive]} "task-3" [sample_source]
             sample_config "VIS"); [reflexivity|discriminate].
  - vm_compute. discriminate.
Defined.

End PipelinePlanningExamples.

(** ** More on the task registry *)

Section RegistryInvariant.
Import Tasks Executor.

(** The entry [_update_status] leaves, field by field *)
Lemma update_status_fields (now : nat) (task_id st : string)
    (p : option Z) (m : option string) (tasks : gmap string task) (t : task) :
  tasks !! task_id = Some t ->
  exists u,
    _update_status now task_id st p m tasks !! task_id = Some u /\
    status u = st /\
    progress u = default (progress t) p /\
    start_time u
    = (if String.eqb st "processing" && bool_decide (start_time t = None)
       then Some now else start_time t) /\
    end_time u
    = (if bool_decide (st ∈ ["completed"; "failed"]) then Some now
       else end_time t) /\
    zip_path u = zip_path t.
Proof.
  intros Ht. unfold _update_status. rewrite lookup_alter_eq, Ht.
  cbn [fmap option_fmap option_map]. eexists. split; [reflexivity|].
  destruct p as [p|], m as [m|]; try destruct (String.eqb m EmptyString);
    cbn [set_status set_progress set_message status progress message
         start_time end_time zip_path];
    destruct (String.eqb st "processing" && bool_decide (start_time t = None));
    destruct (bool_decide (st ∈ ["completed"; "failed"]));
    repeat split.
Qed.

Lemma update_status_other (now : nat) (task_id st : string)
    (p : option Z) (m : option string) (tasks : gmap string task)
    (k : string) :
  k <> task_id ->
  _update_status now task_id st p m tasks !! k = tasks !! k.
Proof. intros Hk. unfold _update_status. now rewrite lookup_alter_ne. Qed.

Lemma not_terminal (st : string) :
  st <> "completed" -> st <> "failed" -> st ∉ ["completed"; "failed"].
Proof.
  intros H1 H2 Hin.
  apply elem_of_cons in Hin as [|Hin]; [contradiction|].
  apply elem_of_cons in Hin as [|Hin]; [contradiction|].
  now apply elem_of_nil in Hin.
Qed.

Lemma exec_well_formed (now : nat) (task_id : string) (s : exec_step)
    (tasks : gmap string task) (u : task) :
  exec now task_id s tasks !! task_id = Some u -> well_formed u.
Proof.
  intros Hu.
  assert (exists t, tasks !! task_id = Some t) as [t Ht].
  { destruct (tasks !! task_id) as [t|] eqn:Ht; [eauto|].
    destruct s; cbn [exec] in Hu; unfold _update_status, use_cached_result in Hu;
      rewrite lookup_alter_eq, Ht in Hu; discriminate. }
  unfold well_formed, registry_statuses.
  destruct s; cbn [exec] in Hu.
  - destruct (update_status_fields now task_id "processing" (Some 0%Z) None
                tasks t Ht) as (u' & Hu' & Hs & _ & Hst & _).
    assert (u' = u) as -> by congruence. rewrite Hs, Hst.
    split; [set_solver|]. split.
    + intros _. cbn. destruct (decide (start_time t = None)) as [En|En].
      * rewrite (bool_decide_eq_true_2 _ En). eauto.
      * rewrite (bool_decide_eq_false_2 _ En).
        destruct (start_time t); [eauto|congruence].
    + split; [|discriminate]. intros Hin. exfalso.
      now apply (not_terminal "processing") in Hin.
  - unfold use_cached_result in Hu. rewrite lookup_alter_eq, Ht in Hu.
    injection Hu as <-. cbn.
    split; [set_solver|]. split; [discriminate|]. split; eauto.
  - destruct (update_status_fields now task_id "processing" None (Some msg)
                tasks t Ht) as (u' & Hu' & Hs & _ & Hst & _).
    assert (u' = u) as -> by congruence. rewrite Hs, Hst.
    split; [set_solver|]. split.
    + intros _. cbn. destruct (decide (start_time t = None)) as [En|En].
      * rewrite (bool_decide_eq_true_2 _ En). eauto.
      * rewrite (bool_decide_eq_false_2 _ En).
        destruct (start_time t); [eauto|congruence].
    + split; [|discriminate]. intros Hin. exfalso.
      now apply (not_terminal "processing") in Hin.
  - destruct (update_status_fields now task_id "completed" (Some 100%Z) None
                tasks t Ht) as (u' & Hu' & Hs & Hp & _ & He & _).
    assert (u' = u) as -> by congruence. rewrite Hs, Hp, He.
    split; [set_solver|]. split; [discriminate|].
    split; [intros _; cbn; eauto|reflexivity].
  - destruct (update_status_fields now task_id "failed" None
                (Some ("处理失败: " ++ msg)) tasks t Ht)
      as (u' & Hu' & Hs & _ & _ & He & _).
    assert (u' = u) as -> by congruence. rewrite Hs, He.
    split; [set_solver|]. split; [discriminate|].
    split; [intros _; cbn; eauto|discriminate].
Qed.

Lemma exec_other (now : nat) (task_id : string) (s : exec_step)
    (tasks : gmap string task) (k : string) :
  k <> task_id -> exec now task_id s tasks !! k = tasks !! k.
Proof.
  intros Hk. destruct s; cbn [exec];
    unfold _update_status, use_cached_result; now rewrite lookup_alter_ne.
Qed.

(** X21.  In every registry reached from the empty one by creating,
    cancelling and executing tasks, in any order and for any task ids,
    each entry has one of the five statuses pending, processing,
    completed, failed, cancelled (never 'queued'); a processing task has
    a start time, a completed or failed task has an end time, and a
    completed task has progress 100. *)
Theorem registry_well_formed (events : list event) (task_id : string)
    (t : task) :
  run events ∅ !! task_id = Some t -> well_formed t.
Proof.
  unfold run.
  assert (H : forall evs tasks,
             (forall k u, tasks !! k = Some u -> well_formed u) ->
             forall k u,
               fold_left (fun ts e => apply_event 0 e ts) evs tasks !! k
               = Some u -> well_formed u).
  { induction evs as [|e evs IH]; intros tasks Hwf; [exact Hwf|].
    cbn [fold_left]. apply IH. intros k u.
    destruct e as [id | id | id s]; cbn [apply_event].
    - unfold create_task. destruct (decide (k = id)) as [->|Hne].
      + rewrite lookup_insert_eq. intros [= <-].
        unfold well_formed, registry_statuses. cbn.
        split; [set_solver|]. repeat split; try discriminate.
        intros Hin. exfalso. revert Hin. now apply not_terminal.
      + rewrite lookup_insert_ne by congruence. apply Hwf.
    - unfold cancel_task. destruct (tasks !! id) as [t0|] eqn:Ht0;
        [|apply Hwf].
      destruct (bool_decide (status t0 ∈ ["completed"; "failed"]));
        [apply Hwf|].
      cbn [fst]. destruct (decide (k = id)) as [->|Hne].
      + rewrite lookup_insert_eq. intros [= <-].
        unfold well_formed, registry_statuses. cbn.
        split; [set_solver|]. repeat split; try discriminate.
        intros Hin. exfalso. revert Hin. now apply not_terminal.
      + rewrite lookup_insert_ne by congruence. apply Hwf.
    - destruct (decide (k = id)) as [->|Hne].
      + apply exec_well_formed.
      + rewrite exec_other by exact Hne. apply Hwf. }
  apply H. intros k u. now rewrite lookup_empty.
Qed.

Lemma registry_well_formed_witness :
  exists t,
    run cancelled_then_run ∅ !! "t1" = Some t /\
    status t = "completed" /\ progress t = 100%Z /\ is_Some (end_time t).
Proof.
  assert (E : exists t, run cancelled_then_run ∅ !! "t1" = Some t /\
                        status t = "completed").
  { vm_compute. eexists. split; reflexivity. }
  destruct E as (t & Ht & Hs). exists t.
  destruct (registry_well_formed cancelled_then_run "t1" t Ht)
    as (_ & _ & He & Hp).
  split; [exact Ht|]. split; [exact Hs|]. split; [now apply Hp|].
  apply He. rewrite Hs. set_solver.
Defined.

End RegistryInvariant.

(** ** One run of the executor *)

Section ExecutorProperties.
Import Tasks Executor.
Context {X : Type}.

Lemma find_first {Y} (p : Y -> bool) (l : list Y) (a : Y) :
  List.find p l = Some a ->
  p a = true /\
  exists i, l !! i = Some a /\
            forall j b, (j < i)%nat -> l !! j = Some b -> p b = false.
Proof.
  induction l as [|x l IH]; [discriminate|]. cbn [List.find].
  destruct (p x) eqn:Hx.
  - intros [= <-]. split; [exact Hx|]. exists 0%nat.
    split; [reflexivity|]. intros j b Hj. lia.
  - intros E. destruct (IH E) as (Ha & i & Hi & Hfirst).
    split; [exact Ha|]. exists (S i). split; [exact Hi|].
    intros [|j] b Hj Hb.
    + now injection Hb as <-.
    + apply (Hfirst j); [lia|exact Hb].
Qed.

Lemma detect_column_spec (available_cols : list string) (preferred : string)
    (aliases : list string) (c : string) :
  _detect_column available_cols preferred aliases = Ok c ->
  settled available_cols preferred aliases c.
Proof.
  unfold _detect_column, settled.
  destruct (decide (preferred ∈ available_cols)) as [Hp|Hp].
  - rewrite bool_decide_eq_true_2 by exact Hp. intros [= <-]. auto.
  - rewrite bool_decide_eq_false_2 by exact Hp.
    destruct (List.find _ aliases) as [a|] eqn:E; [|discriminate].
    intros [= <-]. apply find_first in E as (Ha & i & Hi & Hfirst).
    apply bool_decide_eq_true_1 in Ha.
    split; [exact Ha|]. right. split; [exact Hp|].
    exists i. split; [exact Hi|]. intros j b Hj Hb.
    specialize (Hfirst j b Hj Hb). now apply bool_decide_eq_false_1 in Hfirst.
Qed.

(** No usable column: the call raises exactly when neither the preferred
    column nor any alias exists. *)
Lemma detect_column_raises (available_cols : list string)
    (preferred : string) (aliases : list string) :
  (exists e, _detect_column available_cols preferred aliases = Raise e)
  <-> (preferred ∉ available_cols)
      /\ forall a, a ∈ aliases -> a ∉ available_cols.
Proof.
  unfold _detect_column.
  destruct (decide (preferred ∈ available_cols)) as [Hp|Hp].
  - rewrite bool_decide_eq_true_2 by exact Hp. split.
    + intros [e [=]].
    + intros [H _]. contradiction.
  - rewrite bool_decide_eq_false_2 by exact Hp.
    destruct (List.find _ aliases) as [a|] eqn:E.
    + apply find_some in E as [Hin Ha]. apply bool_decide_eq_true_1 in Ha.
      split; [intros [e [=]]|].
      intros [_ H]. exfalso. apply (H a); [now apply list_elem_of_In|exact Ha].
    + split; [|eauto]. intros _. split; [exact Hp|].
      intros a Ha. apply list_elem_of_In in Ha.
      pose proof (find_none _ _ E a Ha) as Hn.
      now apply bool_decide_eq_false_1 in Hn.
Qed.

(** X23.  The catalog [_load_and_validate_catalog] hands to the
    extraction is never longer than the row cap - it is the first
    [max_catalog_rows] rows of what was read - and the two position
    columns it settles on exist in that catalog: each is the configured
    column or, when that one is missing, the first alias of the fixed
    list that exists.  The registry is written only when rows were cut
    off, and then only the entry of the task. *)
Theorem load_catalog_capped (now : nat) (env : executor_env X)
    (task_id : string) (tasks : gmap string task) (l : loaded X) :
  snd (_load_and_validate_catalog now env task_id tasks) = Ok l ->
  exists catalog,
    Table_read env = Ok catalog /\
    rows (l_catalog l) = take (max_catalog_rows env) (rows catalog) /\
    (length (rows (l_catalog l)) <= max_catalog_rows env)%nat /\
    colnames (l_catalog l) = colnames catalog /\
    settled (colnames catalog) (cfg_ra_col env) ra_aliases (l_ra_col l) /\
    settled (colnames catalog) (cfg_dec_col env) dec_aliases (l_dec_col l) /\
    ((length (rows catalog) <= max_catalog_rows env)%nat ->
     fst (_load_and_validate_catalog now env task_id tasks) = tasks) /\
    (forall k, k <> task_id ->
       fst (_load_and_validate_catalog now env task_id tasks) !! k
       = tasks !! k).
Proof.
  unfold _load_and_validate_catalog.
  destruct (Table_read env) as [catalog|e]; [|discriminate].
  intros H. exists catalog. split; [reflexivity|].
  destruct (Nat.ltb_spec (max_catalog_rows env) (length (rows catalog)))
    as [Hlt|Hle]; cbn [fst snd colnames] in *;
    (destruct (_detect_column (colnames catalog) (cfg_ra_col env) ra_aliases)
       as [ra|e] eqn:Era; cbn [mbind result_bind] in H; [|discriminate]);
    (destruct (_detect_column (colnames catalog) (cfg_dec_col env) dec_aliases)
       as [dec|e] eqn:Edec; cbn [mbind result_bind] in H; [|discriminate]);
    injection H as <-; cbn;
    apply detect_column_spec in Era, Edec.
  - split; [reflexivity|]. split; [rewrite length_take; lia|].
    split; [reflexivity|]. split; [exact Era|]. split; [exact Edec|].
    split; [lia|]. intros k Hk. now apply update_status_other.
  - split; [now rewrite take_ge|]. split; [exact Hle|].
    split; [reflexivity|]. split; [exact Era|]. split; [exact Edec|].
    split; reflexivity.
Qed.






End ExecutorProperties.

Section ExecutorExamples.
Import Tasks Executor.

Lemma load_catalog_capped_witness :
  exists l,
    snd (_load_and_validate_catalog 7 sample_env "t1" (create_task "t1" ∅))
    = Ok l /\
    rows (l_catalog l) = [1; 2]%nat /\ l_ra_col l = "ra" /\
    l_dec_col l = "DEC".
Proof.
  assert (E : exists l,
             snd (_load_and_validate_catalog 7 sample_env "t1"
                    (create_task "t1" ∅)) = Ok l /\
             l_ra_col l = "ra" /\ l_dec_col l = "DEC").
  { vm_compute. eexists. repeat split. }
  destruct E as (l & Hl & Hra & Hdec). exists l.
  destruct (load_catalog_capped 7 sample_env "t1" (create_task "t1" ∅) l Hl)
    as (catalog & Hread & Hrows & _).
  injection Hread as <-.
  split; [exact Hl|]. split; [exact Hrows|]. split; assumption.
Defined.



End ExecutorExamples.

(** ** The configuration of a submitted task *)

Section SubmitProperties.
Import Cache Submit.
Context `{F : PyFormat}.

Lemma filter_supported (supported l : list string) (x : string) :
  x ∈ List.filter (fun y => bool_decide (y ∈ supported)) l ->
  x ∈ supported.
Proof.
  intros H. apply list_elem_of_In, filter_In in H as [_ H].
  now apply bool_decide_eq_true_1 in H.
Qed.

(** X26.  Whatever the request form holds, the configuration
    [submit_task] builds names at least one product type, all of them
    supported; exactly one instrument, a supported one; a band that is
    absent or one of the bands of that instrument; and at most 16
    workers. *)
Theorem submitted_config_valid (f : form) (s : submitted) :
  submitted_config f = Ok s ->
  cfg_file_types (s_config s) <> [] /\
  (forall ft, ft ∈ cfg_file_types (s_config s) ->
              ft ∈ supported_file_types) /\
  (exists instrument,
     cfg_instruments (s_config s) = [instrument] /\
     instrument ∈ supported_instruments /\
     forall band, cfg_band (s_config s) = Some band ->
                  band ∈ default [] (band_map !! instrument)) /\
  (s_n_workers s <= 16)%Z.
Proof.
  unfold submitted_config.
  destruct (f_size f) as [size|e]; [|discriminate].
  destruct (f_n_workers f) as [n|e]; [|discriminate].
  cbn [mbind result_bind]. intros [= <-]. cbn [s_config s_n_workers
    cfg_file_types cfg_instruments cfg_band].
  split; [|split; [|split; [|lia]]].
  - destruct (List.filter _ (f_file_types f)); discriminate.
  - intros ft Hft.
    destruct (List.filter _ (f_file_types f)) as [|x l] eqn:E.
    + apply list_elem_of_In. apply list_elem_of_In in Hft.
      cbn in *. tauto.
    + rewrite <- E in Hft. eapply filter_supported; exact Hft.
  - destruct (List.filter _ (f_instruments f)) as [|i0 rest] eqn:E.
    + exists "VIS". split; [reflexivity|].
      split; [apply list_elem_of_In; cbn; tauto|].
      intros band. destruct (f_bands f) as [[|b bs]|]; try discriminate.
      cbn [List.filter].
      destruct (band_map !! "VIS") as [bs'|] eqn:Eb; [|discriminate].
      destruct (decide (b ∈ bs')) as [Hb|Hb].
      * rewrite (bool_decide_eq_true_2 _ Hb). now intros [= <-].
      * rewrite (bool_decide_eq_false_2 _ Hb). discriminate.
    + assert (Hi0 : i0 ∈ supported_instruments).
      { apply (filter_supported _ (f_instruments f)). rewrite E. now left. }
      exists i0.
      assert (Hone : match (match i0 :: rest with
                            | first_instrument :: _ :: _ => [first_instrument]
                            | _ => i0 :: rest
                            end) with
                     | [] => ["VIS"]
                     | _ => match i0 :: rest with
                            | first_instrument :: _ :: _ => [first_instrument]
                            | _ => i0 :: rest
                            end
                     end = [i0]) by now destruct rest.
      rewrite Hone. split; [reflexivity|]. split; [exact Hi0|].
      intros band. destruct (f_bands f) as [[|b bs]|]; try discriminate.
      cbn [List.filter].
      destruct (band_map !! i0) as [bs'|] eqn:Eb; [|discriminate].
      destruct (decide (b ∈ bs')) as [Hb|Hb].
      * rewrite (bool_decide_eq_true_2 _ Hb). now intros [= <-].
      * rewrite (bool_decide_eq_false_2 _ Hb). discriminate.
Qed.

(** A band that [submit_task] lets through is a band of some instrument. *)
Lemma submitted_band_supported (f : form) (s : submitted) :
  submitted_config f = Ok s ->
  exists instrument,
    forall band, cfg_band (s_config s) = Some band ->
                 band ∈ default [] (band_map !! instrument).
Proof.
  unfold submitted_config.
  destruct (f_size f) as [size|e]; [|discriminate].
  destruct (f_n_workers f) as [n|e]; [|discriminate].
  cbn [mbind result_bind]. intros [= <-]. cbn [s_config cfg_band].
  destruct (f_bands f) as [[|b bs]|];
    try (exists EmptyString; discriminate).
  match goal with
  | |- context [List.filter ?p ?l] =>
      destruct (List.filter p l) as [|i0 rest] eqn:E
  end; [exists EmptyString; discriminate|].
  exists i0. intros band [= <-].
  assert (Hi0 : In i0 (i0 :: rest)) by now left.
  rewrite <- E in Hi0. apply filter_In in Hi0 as [_ Hi0].
  destruct (band_map !! i0) as [bs'|]; [|discriminate].
  now apply bool_decide_eq_true_1 in Hi0.
Qed.

(** X27.  The bands [submit_task] lets through are keyed apart: two
    submitted configurations whose bands differ get different cache keys
    for the same source, size, instrument and product type.  (The absent
    band is keyed 'unknown', which is not a band of any instrument.) *)
Theorem submitted_bands_keyed_apart (f1 f2 : form) (s1 s2 : submitted)
    (ra dec : Q) (size : Z) (instrument file_type : string) :
  submitted_config f1 = Ok s1 -> submitted_config f2 = Ok s2 ->
  cfg_band (s_config s1) <> cfg_band (s_config s2) ->
  generate_source_cache_key ra dec size instrument file_type
    (cfg_band (s_config s1))
  <> generate_source_cache_key ra dec size instrument file_type
       (cfg_band (s_config s2)).
Proof.
  intros H1 H2 Hne Hkey.
  destruct (submitted_band_supported f1 s1 H1) as (i1 & Hb1).
  destruct (submitted_band_supported f2 s2 H2) as (i2 & Hb2).
  rewrite !cache_key_unfold in Hkey.
  repeat (apply append_cancel_l in Hkey).
  apply Hne. unfold band_str in Hkey.
  destruct (cfg_band (s_config s1)) as [b1|], (cfg_band (s_config s2)) as [b2|];
    cbn [or_default] in Hkey.
  - destruct (band_map_names i1 b1 (Hb1 b1 eq_refl)) as [N1 _].
    destruct (band_map_names i2 b2 (Hb2 b2 eq_refl)) as [N2 _].
    rewrite (proj2 (String.eqb_neq _ _) N1) in Hkey.
    rewrite (proj2 (String.eqb_neq _ _) N2) in Hkey. now subst.
  - destruct (band_map_names i1 b1 (Hb1 b1 eq_refl)) as [N1 U1].
    rewrite (proj2 (String.eqb_neq _ _) N1) in Hkey. contradiction.
  - destruct (band_map_names i2 b2 (Hb2 b2 eq_refl)) as [N2 U2].
    rewrite (proj2 (String.eqb_neq _ _) N2) in Hkey. now symmetry in Hkey.
  - reflexivity.
Qed.

End SubmitProperties.

Section SubmitExamples.
Import Cache Submit.

Lemma submitted_config_valid_witness :
  exists s,
    submitted_config sample_form = Ok s /\
    cfg_file_types (s_config s) = ["BGSUB"] /\
    cfg_instruments (s_config s) = ["NISP"] /\
    cfg_band (s_config s) = Some "NIR-Y" /\ (s_n_workers s <= 16)%Z.
Proof.
  assert (E : exists s,
             submitted_config sample_form = Ok s /\
             cfg_file_types (s_config s) = ["BGSUB"] /\
             cfg_instruments (s_config s) = ["NISP"] /\
             cfg_band (s_config s) = Some "NIR-Y").
  { vm_compute. eexists. repeat split. }
  destruct E as (s & Hs & H1 & H2 & H3). exists s.
  destruct (submitted_config_valid sample_form s Hs) as (_ & _ & _ & Hn).
  now repeat split.
Defined.

Lemma submitted_bands_keyed_apart_witness :
  @generate_source_cache_key plain_format 11 1 128 "NISP" "BGSUB"
    (Some "NIR-Y")
  <> @generate_source_cache_key plain_format 11 1 128 "NISP" "BGSUB" None.
Proof.
  apply (@submitted_bands_keyed_apart plain_format sample_form
           {| f_file_types := []; f_instruments := ["NISP"];
              f_bands := Some ["VIS"]; f_size := Ok 128%Z;
              f_n_workers := Ok 4%Z |}
           {| s_config := {| cfg_file_types := ["BGSUB"];
                             cfg_instruments := ["NISP"];
                             cfg_band := Some "NIR-Y"; cfg_size := 128 |};
              s_n_workers := 16 |}
           {| s_config := {| cfg_file_types := ["BGSUB"; "CATALOG-PSF"];
                             cfg_instruments := ["NISP"];
                             cfg_band := None; cfg_size := 128 |};
              s_n_workers := 4 |}).
  - vm_compute. reflexivity.
  - vm_compute. reflexivity.
  - discriminate.
Defined.

End SubmitExamples.

(** ** Loading a catalog *)

Section CatalogLoadProperties.
Import Executor CatalogLoad.
Context {X : Type}.

Lemma list_index_spec (x : string) (l : list string) (i : nat) :
  list_index x l = Some i ->
  l !! i = Some x /\ forall j y, (j < i)%nat -> l !! j = Some y -> y <> x.
Proof.
  revert i. induction l as [|y l IH]; intros i; [discriminate|].
  cbn [list_index]. destruct (String.eqb_spec y x) as [->|Hne].
  - intros [= <-]. split; [reflexivity|]. intros j z Hj. lia.
  - destruct (list_index x l) as [i'|]; [|discriminate].
    intros [= <-]. destruct (IH i' eq_refl) as [Hi Hfirst].
    split; [exact Hi|]. intros [|j] z Hj Hz.
    + now injection Hz as <-.
    + apply (Hfirst j); [lia|exact Hz].
Qed.

Lemma list_index_elem (x : string) (l : list string) :
  x ∈ l -> is_Some (list_index x l).
Proof.
  induction l as [|y l IH]; intros Hx; [now apply elem_of_nil in Hx|].
  cbn [list_index]. destruct (String.eqb_spec y x) as [->|Hne]; [eauto|].
  apply elem_of_cons in Hx as [->|Hx]; [contradiction|].
  destruct (IH Hx) as [i ->]. cbn. eauto.
Qed.

Lemma detect_spec (colnames candidates : list string) :
  match detect colnames candidates with
  | Some c => detected colnames candidates c
  | None => forall col, col ∈ colnames -> str_upper col ∉ candidates
  end.
Proof.
  unfold detect.
  destruct (List.find _ candidates) as [candidate|] eqn:E.
  - apply find_first in E as (Hin & k & Hk & Hfirst).
    apply bool_decide_eq_true_1 in Hin.
    destruct (list_index_elem _ _ Hin) as [i Hi]. rewrite Hi.
    apply list_index_spec in Hi as [Hi Hbefore].
    rewrite lookup_map in Hi.
    destruct (colnames !! i) as [c|] eqn:Hc; [|discriminate].
    injection Hi as Hup. exists i, k. rewrite Hup.
    split; [exact Hc|]. split; [exact Hk|]. split.
    + intros j col Hj Hcol. apply (Hbefore j); [exact Hj|].
      now rewrite lookup_map, Hcol.
    + intros j cand col Hj Hcand Hcol Heq.
      specialize (Hfirst j cand Hj Hcand).
      apply bool_decide_eq_false_1 in Hfirst. apply Hfirst.
      rewrite <- Heq. apply list_elem_of_In, in_map.
      now apply list_elem_of_In.
  - intros col Hcol Hin. apply list_elem_of_In in Hin.
    pose proof (find_none _ _ E _ Hin) as Hn.
    apply bool_decide_eq_false_1 in Hn. apply Hn.
    apply list_elem_of_In, in_map. now apply list_elem_of_In.
Qed.

(** X28.  What [load_catalog] returns for the columns.  A column name
    that the caller gives is handed back as it is, without a look at the
    table.  A position column that is detected exists in the table: it
    is the first column whose upper-cased name is the candidate of
    highest priority present; when no candidate is present the call
    raises.  The id column is detected the same way, and is [None]
    exactly when no column carries a candidate name. *)
Theorem load_catalog_columns (read : result (table X))
    (ra_arg dec_arg id_arg : option string) (catalog : table X)
    (ra_col dec_col : string) (id_col : option string) :
  load_catalog read ra_arg dec_arg id_arg
  = Ok (catalog, ra_col, dec_col, id_col) ->
  read = Ok catalog /\
  match ra_arg with
  | Some c => ra_col = c
  | None => detected (colnames catalog) ra_candidates ra_col
  end /\
  match dec_arg with
  | Some c => dec_col = c
  | None => detected (colnames catalog) dec_candidates dec_col
  end /\
  match id_arg, id_col with
  | Some c, _ => id_col = Some c
  | None, Some c => detected (colnames catalog) id_candidates c
  | None, None =>
      forall col, col ∈ colnames catalog -> str_upper col ∉ id_candidates
  end.
Proof.
  unfold load_catalog. destruct read as [cat|e]; [|discriminate].
  cbn [mbind result_bind].
  pose proof (detect_spec (colnames cat) ra_candidates) as Hra.
  pose proof (detect_spec (colnames cat) dec_candidates) as Hdec.
  pose proof (detect_spec (colnames cat) id_candidates) as Hid.
  destruct ra_arg as [r|];
    [|destruct (detect (colnames cat) ra_candidates) as [r|]; [|discriminate]];
    (destruct dec_arg as [d|];
     [|destruct (detect (colnames cat) dec_candidates) as [d|];
       [|discriminate]]);
    cbn [mbind result_bind]; intros H; injection H as <- <- <- <-;
    (split; [reflexivity|]); (split; [first [reflexivity|exact Hra]|]);
    (split; [first [reflexivity|exact Hdec]|]);
    (destruct id_arg as [i|]; [reflexivity|exact Hid]).
Qed.

End CatalogLoadProperties.

Section CatalogLoadExamples.
Import Executor CatalogLoad.

Lemma load_catalog_columns_witness :
  detected ["Id"; "ra_deg"; "Dec"; "DEC"; "ra"] ra_candidates "ra"
  /\ detected ["Id"; "ra_deg"; "Dec"; "DEC"; "ra"] dec_candidates "Dec".
Proof.
  destruct (load_catalog_columns
              (Ok {| colnames := ["Id"; "ra_deg"; "Dec"; "DEC"; "ra"];
                     rows := [1; 2]%nat |})
              None None None _ "ra" "Dec" (Some "Id") eq_refl)
    as (_ & Hra & Hdec & _).
  split; assumption.
Defined.

End CatalogLoadExamples.

(** ** The configuration store *)

Section SettingsProperties.
Import Settings.

Lemma dict_get_put (k : string) (v : cfg_value)
    (items : list (string * cfg_value)) :
  dict_get k (dict_put k v items) = Some v.
Proof.
  induction items as [|[k' v'] items IH]; cbn [dict_put dict_get].
  - now rewrite String.eqb_refl.
  - destruct (String.eqb k' k) eqn:E; cbn [dict_get]; rewrite E; auto.
Qed.

Lemma dict_get_put_ne (k k' : string) (v : cfg_value)
    (items : list (string * cfg_value)) :
  k <> k' -> dict_get k' (dict_put k v items) = dict_get k' items.
Proof.
  intros Hne. induction items as [|[x w] items IH]; cbn [dict_put dict_get].
  - now rewrite (proj2 (String.eqb_neq k k') Hne).
  - destruct (String.eqb_spec x k) as [->|Hx]; cbn [dict_get].
    + now rewrite (proj2 (String.eqb_neq k k') Hne).
    + now rewrite IH.
Qed.

Lemma set_path_cons (k : string) (keys : list string) (value : cfg_value)
    (items : list (string * cfg_value)) :
  set_path (k :: keys) value (Dict items)
  = match keys with
    | [] => Some (Dict (dict_put k value items))
    | _ :: _ =>
        match set_path keys value (default (Dict []) (dict_get k items)) with
        | Some sub => Some (Dict (dict_put k sub items))
        | None => None
        end
    end.
Proof. now destruct keys. Qed.

Lemma set_path_step (k : string) (keys : list string) (value : cfg_value)
    (items : list (string * cfg_value)) :
  keys <> [] ->
  set_path (k :: keys) value (Dict items)
  = match set_path keys value (default (Dict []) (dict_get k items)) with
    | Some sub => Some (Dict (dict_put k sub items))
    | None => None
    end.
Proof. now destruct keys. Qed.

Lemma get_set_path (keys : list string) (value config config' : cfg_value) :
  set_path keys value config = Some config' ->
  get_path keys config' = Some value.
Proof.
  revert config config'. induction keys as [|k keys IH];
    intros config config'.
  - destruct config; discriminate.
  - destruct config as [|items]; [discriminate|].
    rewrite set_path_cons. destruct keys as [|k2 keys].
    + intros [= <-]. cbn [get_path]. now rewrite dict_get_put.
    + destruct (set_path (k2 :: keys) value _) as [sub|] eqn:E;
        [|discriminate].
      intros [= <-]. cbn [get_path]. rewrite dict_get_put.
      exact (IH _ _ E).
Qed.

Lemma set_path_frame (common : list string) (k k' : string)
    (rest rest' : list string) (value config config' : cfg_value) :
  k <> k' ->
  set_path (common ++ k :: rest) value config = Some config' ->
  get_path (common ++ k' :: rest') config'
  = get_path (common ++ k' :: rest') config.
Proof.
  intros Hne. revert config config'.
  induction common as [|c common IH]; intros config config'; cbn [app].
  - destruct config as [|items]; [discriminate|].
    rewrite set_path_cons. destruct rest as [|r rest].
    + intros [= <-]. cbn [get_path]. now rewrite dict_get_put_ne.
    + destruct (set_path (r :: rest) value _) as [sub|]; [|discriminate].
      intros [= <-]. cbn [get_path]. now rewrite dict_get_put_ne.
  - destruct config as [|items]; [discriminate|].
    rewrite set_path_step by now destruct common.
    destruct (set_path (common ++ k :: rest) value _) as [sub|] eqn:E;
      [|discriminate].
    intros [= <-]. cbn [get_path]. rewrite dict_get_put.
    rewrite (IH _ _ E).
    destruct (dict_get c items) as [v|]; [reflexivity|].
    cbn [default]. now destruct common.
Qed.

(** X29.  The configuration store keeps what it is given: after
    [set(key, value)] has succeeded, [get(key)] returns that value
    (never the default), and [get] of any key whose dotted path parts
    ways with the path of [key] returns what it returned before. *)
Theorem config_get_set (config config' : cfg_value) (key : string)
    (value : cfg_value) :
  set config key value = Some config' ->
  (forall default, get config' key default = Some value) /\
  (forall key' default,
      part_ways (str_split "." key) (str_split "." key') ->
      get config' key' default = get config key' default).
Proof.
  unfold set, get. intros Hset. split.
  - intros default. now rewrite (get_set_path _ _ _ _ Hset).
  - intros key' default (common & k & k' & rest & rest' & E1 & E2 & Hne).
    rewrite E1 in Hset. rewrite E2.
    now rewrite (set_path_frame common k k' rest rest' _ _ _ Hne Hset).
Qed.

Lemma config_get_set_witness :
  exists config',
    set sample_settings "data.cache.dir" (Leaf "/tmp/cache") = Some config' /\
    get config' "data.cache.dir" None = Some (Leaf "/tmp/cache") /\
    get config' "data.root" None = Some (Leaf "/data/euclid").
Proof.
  assert (E : exists config',
             set sample_settings "data.cache.dir" (Leaf "/tmp/cache")
             = Some config').
  { vm_compute. eauto. }
  destruct E as (config' & Hset). exists config'.
  destruct (config_get_set _ _ _ _ Hset) as [Hget Hframe].
  split; [exact Hset|]. split; [apply Hget|].
  rewrite Hframe; [reflexivity|].
  exists ["data"], "cache", "root", ["dir"], []. repeat split.
  discriminate.
Defined.

End SettingsProperties.

(** ** The invalid-value flag, for both extraction paths *)

Section InvalidValueExact.
Import FileNames Extract.
Context `{G : SkyGeometry} `{A : Archive}.

Lemma cutout_of_data (file_type : string) (filepath : path) (ra dec : Q)
    (sz : size) :
  success (cutout_of file_type filepath ra dec sz) = true ->
  exists d, data (cutout_of file_type filepath ra dec sz) = Some d.
Proof.
  unfold cutout_of. destruct (String.eqb file_type "CATALOG-PSF").
  - intros Hs.
    destruct (cutout_psf_cases filepath ra dec)
      as [(Hf & _) | (hdul & _ & row & _ & _ & _ & _ & _ & Hd)];
      [congruence|eauto].
  - unfold cutout_image.
    destruct (image_window filepath ra dec sz); cbn; [eauto|discriminate].
Qed.

(** X30.  A successful extraction - a window or a stamp - returns data,
    and its invalid-value flag is set exactly when some pixel of that
    data is NaN.  So what the [skip_nan] policy of [cutout_tile] drops is
    exactly the extractions with a NaN pixel. *)
Theorem contains_nan_exact (file_type : string) (filepath : path)
    (ra dec : Q) (sz : size) :
  let r := cutout_of file_type filepath ra dec sz in
  success r = true ->
  exists d,
    data r = Some d /\
    (contains_nan r = true <->
     exists i j, (i < shape0 d)%nat /\ (j < shape1 d)%nat /\
                 at_ d i j = NaN).
Proof.
  intros r Hs. destruct (cutout_of_data _ _ _ _ _ Hs) as [d Hd].
  exists d. split; [exact Hd|].
  subst r. rewrite (contains_nan_eager _ _ _ _ _ d Hs Hd).
  apply any_nan_spec.
Qed.

End InvalidValueExact.

Section InvalidValueExactExamples.
Import FileNames Extract TileIndex.

Lemma contains_nan_exact_witness :
  contains_nan (@cutout_of taxicab (archive_with (stamp_file 4 5 5)) "BGSUB"
                  vis_mosaic 11 1 (Square 4)) = true
  /\ contains_nan (@cutout_of taxicab (archive_with (stamp_file 4 5 5))
                     "CATALOG-PSF" ["psf.fits"] 11 1 (Square 4)) = false.
Proof.
  destruct (@contains_nan_exact taxicab (archive_with (stamp_file 4 5 5))
              "BGSUB" vis_mosaic 11 1 (Square 4) eq_refl)
    as (d & Hd & Hflag).
  destruct (@contains_nan_exact taxicab (archive_with (stamp_file 4 5 5))
              "CATALOG-PSF" ["psf.fits"] 11 1 (Square 4) eq_refl)
    as (d' & Hd' & Hflag').
  split.
  - apply Hflag. injection Hd as <-. exists 1%nat, 2%nat.
    repeat split; cbn; lia.
  - apply not_true_is_false. intros E.
    destruct (proj1 Hflag' E) as (i & j & _ & _ & Hnan).
    injection Hd' as <-. discriminate Hnan.
Defined.

End InvalidValueExactExamples.
